(** * Agent SDK: a shallow embedding of selected runtime components

    The development follows the Python sources of the agent SDK.  Each
    module below embeds one component:

    - [GraySwan]         security/grayswan/analyzer.py
    - [SystemPrompt]     event/llm_convertible/system.py
    - [CriticRefine]     agent/critic_mixin.py, critic/base.py
    - [Registry]         llm/llm_registry.py
    - [PS1]              the PS1 metadata extractor of the terminal tool
    - [RemoteWorkspace]  the polling loop of the remote workspace client
    - [McpSchema]        the MCP schema of an action type
    - [Autosave]         the autosave of the conversation state
    - [Refinement]       agent/critic_mixin.py: the checks of one conversation
    - [GraySwanSetup]    security/grayswan/analyzer.py: the set-up
    - [GraySwanClient]   security/grayswan/analyzer.py: the HTTP client
    - [OpenAIMessages]   security/grayswan/utils.py
    - [ToolSpec]         tool/spec.py
    - [ProfileStore]     llm/llm_profile_store.py
    - [Recording]        tools/browser_use: event_storage.py, recording.py
    - [ApiBreakage]      .github/scripts/check_sdk_api_breakage.py

    The first four and the last eight follow the Python sources.  The
    sources of [PS1], [RemoteWorkspace], [McpSchema] and [Autosave] are not
    at hand; they are modelled from the specification and from the tests
    that exercise them, and the definitions concerned say so.  Python exceptions are values of [exn]; a computation that may
    raise returns a [pyresult].  The definitions come first, the
    verification follows. *)

From Stdlib Require Import ZArith QArith List String Ascii Bool Lia.
From stdpp Require Import base option gmap strings list.

Set Warnings "-register-all".
Close Scope Q_scope.
Open Scope Z_scope.

(** ** Python results and exceptions *)

(** The exception classes the embedded code raises or catches.  All of
    them derive from [Exception]. *)
Inductive exn : Type :=
| ValueError (msg : string)
| KeyError (msg : string)
| TypeError
| AttributeError
| OverflowError
| AssertionError (msg : string)
| JSONDecodeError
| TimeoutException
| OtherException (name : string).

Inductive pyresult (A : Type) : Type :=
| Ok (a : A)
| Raise (e : exn).
Arguments Ok {A} a.
Arguments Raise {A} e.

Definition pybind {A B : Type} (m : pyresult A) (k : A -> pyresult B) : pyresult B :=
  match m with
  | Ok a => k a
  | Raise e => Raise e
  end.

#[global] Instance pyresult_ret : MRet pyresult := fun A a => Ok a.
#[global] Instance pyresult_bind : MBind pyresult := fun A B k m => pybind m k.

(** [try: m except Exception: return d] *)
Definition try_except {A : Type} (m : pyresult A) (handler : exn -> A) : A :=
  match m with
  | Ok a => a
  | Raise e => handler e
  end.

(** ** Python numbers

    Python compares [int], [bool] and [float] operands by their exact
    numerical value.  Every finite double is a rational number, so a float
    is represented by its value: a rational, an infinity or NaN.  Only
    comparisons are performed on these numbers, never arithmetic. *)
Module PyNum.

Inductive pyfloat : Type :=
| FNaN
| FInf (negative : bool)
| FFin (q : Q).

(** [x <= y] on floats: false as soon as an operand is NaN. *)
Definition fle (x y : pyfloat) : bool :=
  match x, y with
  | FNaN, _ | _, FNaN => false
  | FInf true, _ => true
  | _, FInf false => true
  | FInf false, _ => false
  | _, FInf true => false
  | FFin p, FFin q => Qle_bool p q
  end.

(** [x < y] on floats. *)
Definition flt (x y : pyfloat) : bool :=
  match x, y with
  | FNaN, _ | _, FNaN => false
  | FInf true, FInf true => false
  | FInf true, _ => true
  | FInf false, _ => false
  | FFin _, FInf b => negb b
  | FFin p, FFin q => negb (Qle_bool q p)
  end.

(** [x >= y] and [x > y] are the mirrored comparisons. *)
Definition fge (x y : pyfloat) : bool := fle y x.
Definition fgt (x y : pyfloat) : bool := flt y x.

Definition of_Z (z : Z) : pyfloat := FFin (inject_Z z).

End PyNum.

(** ** JSON values as [json.loads] returns them *)
Module Json.
Import PyNum.

Inductive json : Type :=
| JNull
| JBool (b : bool)
| JInt (z : Z)
| JFloat (f : pyfloat)
| JStr (s : string)
| JArr (items : list json)
| JObj (fields : list (string * json)).

(** [d.get(key)] on a dict built from the given items: the last binding
    of a repeated key wins, [None] when the key is absent. *)
Definition dict_get (fields : list (string * json)) (key : string) : json :=
  match find (fun kv => String.eqb (fst kv) key) (rev fields) with
  | Some (_, v) => v
  | None => JNull
  end.

(** [value.get(key)]: only a dict has the method. *)
Definition get (v : json) (key : string) : pyresult json :=
  match v with
  | JObj fields => Ok (dict_get fields key)
  | _ => Raise AttributeError
  end.

(** The numerical value of an operand of a comparison with a float;
    [None] for an operand that makes the comparison raise [TypeError]. *)
Definition number (v : json) : option pyfloat :=
  match v with
  | JBool b => Some (of_Z (if b then 1 else 0))
  | JInt z => Some (of_Z z)
  | JFloat f => Some f
  | _ => None
  end.

(** Python truthiness, [bool(v)]. *)
Definition truthy (v : json) : bool :=
  match v with
  | JNull => false
  | JBool b => b
  | JInt z => negb (z =? 0)
  | JFloat FNaN => true
  | JFloat (FInf _) => true
  | JFloat (FFin q) => negb (Qeq_bool q 0)
  | JStr s => negb (String.eqb s "")
  | JArr l => match l with [] => false | _ => true end
  | JObj l => match l with [] => false | _ => true end
  end.

(** [f"{v:.2f}"]: defined for numbers; an [int] is first converted to a
    double, which overflows from [2^1024 - 2^970] on. *)
Definition format_2f (v : json) : pyresult unit :=
  match v with
  | JBool _ | JFloat _ => Ok tt
  | JInt z => if Z.abs z <? 2 ^ 1024 - 2 ^ 970 then Ok tt else Raise OverflowError
  | JNull => Raise TypeError
  | JStr _ => Raise (ValueError "Unknown format code 'f' for object of type 'str'")
  | JArr _ | JObj _ => Raise TypeError
  end.

End Json.

(** ** security/grayswan/analyzer.py *)
Module GraySwan.
Import PyNum Json.

Inductive SecurityRisk : Type := UNKNOWN | LOW | MEDIUM | HIGH.

(** The fields of [GraySwanAnalyzer] the analysis reads.  [api_key] is
    the secret's value when a key is configured. *)
Record GraySwanAnalyzer : Type := {
  history_limit : Z;
  low_threshold : pyfloat;
  medium_threshold : pyfloat;
  api_url : string;
  api_key : option string;
  policy_id : option string;
}.

(** [not self.api_key]: [None], or a secret of length zero. *)
Definition no_api_key (a : GraySwanAnalyzer) : bool :=
  match api_key a with
  | None => true
  | Some k => String.eqb k ""
  end.

(** The model validator that runs when an analyzer is constructed. *)
Definition validate_thresholds (a : GraySwanAnalyzer) : pyresult GraySwanAnalyzer :=
  if fge (low_threshold a) (medium_threshold a)
  then Raise (ValueError "low_threshold must be less than medium_threshold")
  else Ok a.

Definition _map_violation_to_risk (a : GraySwanAnalyzer) (violation_score : json)
  : pyresult SecurityRisk :=
  match number violation_score with
  | None => Raise TypeError
  | Some s =>
      if fle s (low_threshold a) then Ok LOW
      else if fle s (medium_threshold a) then Ok MEDIUM
      else Ok HIGH
  end.

(** What [client.post] and then [response.json()] can do. *)
Inductive body : Type :=
| NotJson                      (* response.json() raises JSONDecodeError *)
| BodyError (e : exn)          (* response.json() raises something else *)
| Body (result : json).

Inductive http_outcome : Type :=
| PostTimeout                  (* httpx.TimeoutException *)
| PostError (e : exn)          (* any other exception of the transport *)
| Response (status_code : Z) (content : body).

Section Analysis.
(** Events and OpenAI-format messages are opaque here; the conversion
    of utils.py and the HTTP transport are given. *)
Context {event message : Type}.
Variable convert_events_to_openai_messages : list event -> pyresult (list message).

Record request : Type := {
  req_url : string;
  req_messages : list message;
  req_policy_id : option string;
}.

Variable post : request -> http_outcome.

(** The body of the [try] block of [_call_grayswan_api]. *)
Definition call_body (a : GraySwanAnalyzer) (messages : list message)
  : pyresult SecurityRisk :=
  match post {| req_url := api_url a; req_messages := messages;
                req_policy_id := policy_id a |} with
  | PostTimeout => Raise TimeoutException
  | PostError e => Raise e
  | Response status_code content =>
      if status_code =? 200 then
        match content with
        | NotJson => Ok UNKNOWN
        | BodyError e => Raise e
        | Body result =>
            violation_score ← get result "violation";
            match violation_score with
            | JNull => Ok UNKNOWN
            | _ =>
                risk_level ← _map_violation_to_risk a violation_score;
                ipi ← get result "ipi";
                let risk_level := if truthy ipi then HIGH else risk_level in
                _ ← format_2f violation_score;
                Ok risk_level
            end
        end
      else Ok UNKNOWN
  end.

Definition _call_grayswan_api (a : GraySwanAnalyzer) (messages : list message)
  : pyresult SecurityRisk :=
  if no_api_key a then Ok UNKNOWN
  else Ok (try_except (call_body a messages) (fun _ => UNKNOWN)).

(** [l[-n:]] *)
Definition slice_last {A : Type} (l : list A) (n : Z) : list A :=
  let len := Z.of_nat (length l) in
  let start := if - n <? 0 then Z.max (- n + len) 0 else Z.min (- n) len in
  drop (Z.to_nat start) l.

(** [security_risk], given the events set by [set_events]. *)
Definition security_risk (a : GraySwanAnalyzer) (_events : list event) (action : event)
  : pyresult SecurityRisk :=
  if no_api_key a then Ok UNKNOWN
  else
    Ok (try_except
          (let recent_events :=
             if Z.of_nat (length _events) >? history_limit a
             then slice_last _events (history_limit a)
             else _events in
           let events_to_process := recent_events ++ [action] in
           openai_messages ← convert_events_to_openai_messages events_to_process;
           match openai_messages with
           | [] => Ok UNKNOWN
           | _ => _call_grayswan_api a openai_messages
           end)
          (fun _ => UNKNOWN)).

End Analysis.

(** The outcomes of the HTTP exchange that carry no violation score: the
    transport raised, the status is not 200, the body is not JSON, or the
    JSON value has no [violation]. *)
Definition no_score (o : http_outcome) : bool :=
  match o with
  | PostTimeout | PostError _ => true
  | Response status_code content =>
      if status_code =? 200 then
        match content with
        | NotJson | BodyError _ => true
        | Body result =>
            match get result "violation" with
            | Ok JNull | Raise _ => true
            | Ok _ => false
            end
        end
      else true
  end.

End GraySwan.

(** ** event/llm_convertible/system.py *)
Module SystemPrompt.

(** Modelled from the spec: llm/message.py is not part of the sources at
    hand.  A text block of a message, with its text and its cache marker
    [cache_prompt], as the tests construct and read it. *)
Record TextContent : Type := {
  text : string;
  cache_prompt : bool;
}.

Inductive Role : Type := system | user | assistant | tool.

(** Modelled from the spec: a message has a role and ordered content
    blocks; a system prompt holds text blocks only. *)
Record Message : Type := {
  role : Role;
  content : list TextContent;
}.

Section Event.
Context {ToolDefinition : Type}.

Record SystemPromptEvent : Type := {
  system_prompt : TextContent;
  tools : list ToolDefinition;
  dynamic_context : option TextContent;
}.

(** [if self.dynamic_context:] tests for [None]: a [TextContent] model
    defines neither [__bool__] nor [__len__]. *)
Definition to_llm_message (self : SystemPromptEvent) : Message :=
  match dynamic_context self with
  | Some dc => {| role := system; content := [system_prompt self; dc] |}
  | None => {| role := system; content := [system_prompt self] |}
  end.

End Event.
Arguments SystemPromptEvent ToolDefinition : clear implicits.

End SystemPrompt.

(** ** agent/critic_mixin.py and critic/base.py *)
Module CriticRefine.

Definition ITERATIVE_REFINEMENT_ITERATION_KEY : string :=
  "iterative_refinement_iteration".

(** [success_threshold] is validated into [[0,1]] and a critic score is a
    probability, so both are finite; they are only compared. *)
Record IterativeRefinementConfig : Type := {
  success_threshold : Q;
  max_iterations : Z;
}.

(** Modelled from the spec: critic/result.py is not part of the sources at
    hand; a critic result carries a score in [[0,1]] and a message. *)
Record CriticResult : Type := {
  score : Q;
  message : option string;
}.

(** The critic attached to the agent: its refinement configuration and its
    [get_followup_prompt] method, which subclasses may override. *)
Record CriticBase : Type := {
  iterative_refinement : option IterativeRefinementConfig;
  get_followup_prompt : CriticResult -> Z -> string;
}.

(** Values of the [agent_state] dictionary, typed [dict[str, Any]]. *)
Inductive value : Type :=
| VNone
| VBool (b : bool)
| VInt (z : Z)
| VStr (s : string).

(** The conversation state and the action event, by the one field of each
    that the method reads. *)
Record ConversationState : Type := {
  agent_state : gmap string value;
}.

Record ActionEvent : Type := {
  critic_result : option CriticResult;
}.

(** An operand of [>=] and [+] with an [int]: [bool] is a subclass of
    [int]; [None] and [str] raise [TypeError]. *)
Definition as_int (v : value) : pyresult Z :=
  match v with
  | VInt z => Ok z
  | VBool b => Ok (if b then 1 else 0)
  | VNone | VStr _ => Raise TypeError
  end.

(** The method returns its tuple and leaves the conversation state, which
    it received by reference, as the second component. *)
Definition _check_iterative_refinement
    (critic : option CriticBase) (state : ConversationState) (action_event : ActionEvent)
  : pyresult (bool * option string) * ConversationState :=
  match critic with
  | None => (Ok (false, None), state)
  | Some critic =>
      match iterative_refinement critic with
      | None => (Ok (false, None), state)
      | Some config =>
          let iteration :=
            default (VInt 0) (agent_state state !! ITERATIVE_REFINEMENT_ITERATION_KEY) in
          match as_int iteration with
          | Raise e => (Raise e, state)
          | Ok iteration =>
              if iteration >=? max_iterations config then (Ok (false, None), state)
              else
                match critic_result action_event with
                | None => (Ok (false, None), state)
                | Some critic_result =>
                    if Qle_bool (success_threshold config) (score critic_result)
                    then (Ok (false, None), state)
                    else
                      let new_iteration := iteration + 1 in
                      let state' :=
                        {| agent_state :=
                             <[ITERATIVE_REFINEMENT_ITERATION_KEY := VInt new_iteration]>
                               (agent_state state) |} in
                      (Ok (true, Some (get_followup_prompt critic critic_result new_iteration)),
                       state')
                end
          end
      end
  end.

(** The counter as the method reads it: 0 when the key is absent. *)
Definition iteration_of (state : ConversationState) : option Z :=
  match agent_state state !! ITERATIVE_REFINEMENT_ITERATION_KEY with
  | None => Some 0
  | Some (VInt z) => Some z
  | Some (VBool b) => Some (if b then 1 else 0)
  | Some _ => None
  end.

End CriticRefine.

(** ** llm/llm_registry.py *)
Module Registry.

(** Object identities, as [id()] returns them. *)
Abbreviation loc := positive.

(** An [LLM] object as far as the registry reads it: its usage id and the
    reference to its [Metrics] object, [None] until first accessed. *)
Record LLM : Type := {
  usage_id : string;
  _metrics : option loc;
}.

Record LLMRegistry : Type := {
  _usage_to_llm : gmap string loc;
  _metrics_ids : gset loc;
  subscriber : bool;
}.

(** The objects the registry works on: the heap of [LLM] objects, the one
    registry, and the events its subscriber has been called with. *)
Record world : Type := {
  heap : gmap loc LLM;
  registry : LLMRegistry;
  delivered : list loc;
}.

(** The [Metrics] objects that are alive: those some [LLM] refers to. *)
Definition live_metrics (h : gmap loc LLM) : gset loc :=
  list_to_set (omap (fun kv => _metrics (snd kv)) (map_to_list h)).

Definition deref (w : world) (llm : loc) : pyresult LLM :=
  match heap w !! llm with
  | Some o => Ok o
  | None => Raise (OtherException "dangling reference")
  end.

Section Alloc.
(** A new object gets an identity that no live object has; [alloc] is that
    choice, given the identities of the live [Metrics] objects. *)
Variable alloc : gset loc -> loc.

Definition set_metrics (w : world) (llm : loc) (m : option loc) : world :=
  {| heap := alter (fun o => {| usage_id := usage_id o; _metrics := m |}) llm (heap w);
     registry := registry w;
     delivered := delivered w |}.

(** Modelled from the spec: llm/llm.py is not part of the sources at hand.
    [llm.metrics] returns the metrics object of the instance, which is
    created on first access; the result is its identity. *)
Definition metrics (w : world) (llm : loc) : pyresult loc * world :=
  match deref w llm with
  | Raise e => (Raise e, w)
  | Ok o =>
      match _metrics o with
      | Some m => (Ok m, w)
      | None =>
          let m := alloc (live_metrics (heap w)) in
          (Ok m, set_metrics w llm (Some m))
      end
  end.

(** Modelled from the spec: [llm.reset_metrics()] drops the metrics object
    of the instance, so that the next access creates a fresh one. *)
Definition reset_metrics (w : world) (llm : loc) : world :=
  set_metrics w llm None.

Definition track (w : world) (metrics_id : loc) : world :=
  {| heap := heap w;
     registry := {| _usage_to_llm := _usage_to_llm (registry w);
                    _metrics_ids := {[metrics_id]} ∪ _metrics_ids (registry w);
                    subscriber := subscriber (registry w) |};
     delivered := delivered w |}.

Definition _ensure_independent_metrics (w : world) (llm : loc) : pyresult unit * world :=
  match metrics w llm with
  | (Raise e, w) => (Raise e, w)
  | (Ok metrics_id, w) =>
      if decide (metrics_id ∈ _metrics_ids (registry w)) then
        let w := reset_metrics w llm in
        match metrics w llm with
        | (Raise e, w) => (Raise e, w)
        | (Ok metrics_id, w) => (Ok tt, track w metrics_id)
        end
      else (Ok tt, track w metrics_id)
  end.

(** [notify]: the subscriber, when there is one, is called with the event;
    what it raises is logged and dropped.  The callback is recorded, not
    run: it is taken to leave the registry and the instances alone. *)
Definition notify (w : world) (llm : loc) : world :=
  if subscriber (registry w)
  then {| heap := heap w; registry := registry w; delivered := delivered w ++ [llm] |}
  else w.

Definition register (w : world) (usage : string) (llm : loc) : world :=
  {| heap := heap w;
     registry := {| _usage_to_llm := <[usage := llm]> (_usage_to_llm (registry w));
                    _metrics_ids := _metrics_ids (registry w);
                    subscriber := subscriber (registry w) |};
     delivered := delivered w |}.

Definition add (w : world) (llm : loc) : pyresult unit * world :=
  match deref w llm with
  | Raise e => (Raise e, w)
  | Ok o =>
      let usage := usage_id o in
      if decide (is_Some (_usage_to_llm (registry w) !! usage)) then
        (Raise (ValueError "Usage ID already exists in registry"), w)
      else
        match _ensure_independent_metrics w llm with
        | (Raise e, w) => (Raise e, w)
        | (Ok _, w) => (Ok tt, notify (register w usage llm) llm)
        end
  end.

(** [get] returns the registered instance. *)
Definition get (w : world) (usage : string) : pyresult loc :=
  match _usage_to_llm (registry w) !! usage with
  | None => Raise (KeyError "Usage ID not found in registry")
  | Some llm => Ok llm
  end.

(** A sequence of [add] calls; a call that raises leaves the caller with
    the state at the point of the raise. *)
Definition add_all (w : world) (llms : list loc) : world :=
  foldl (fun w llm => snd (add w llm)) w llms.

End Alloc.

(** A new registry over a heap of [LLM] objects. *)
Definition new_registry (h : gmap loc LLM) (subscribed : bool) : world :=
  {| heap := h;
     registry := {| _usage_to_llm := ∅; _metrics_ids := ∅; subscriber := subscribed |};
     delivered := [] |}.

(** The metrics object of the instance registered under a usage id. *)
Definition metrics_of (w : world) (usage : string) : option loc :=
  llm ← _usage_to_llm (registry w) !! usage;
  o ← heap w !! llm;
  _metrics o.

(** The registry invariant: every registered instance is an object whose
    usage id is its key and whose metrics object is tracked; every tracked
    identity is the metrics object of a registered instance; and no two
    registered instances share a metrics object. *)
Definition registry_inv (w : world) : Prop :=
  (forall u l, _usage_to_llm (registry w) !! u = Some l ->
     exists o m, heap w !! l = Some o /\ usage_id o = u /\
                 _metrics o = Some m /\ m ∈ _metrics_ids (registry w)) /\
  (forall m, m ∈ _metrics_ids (registry w) ->
     exists u l o, _usage_to_llm (registry w) !! u = Some l /\
                   heap w !! l = Some o /\ _metrics o = Some m) /\
  (forall u1 u2 m, metrics_of w u1 = Some m -> metrics_of w u2 = Some m -> u1 = u2).

End Registry.

(** ** tools/terminal: the PS1 metadata extractor *)
Module PS1.

(** A Python [str] is a sequence of characters. *)
Abbreviation str := (list ascii).

Definition CMD_OUTPUT_PS1_BEGIN : str := list_ascii_of_string "###PS1JSON###".
Definition CMD_OUTPUT_PS1_END : str := list_ascii_of_string "###PS1END###".

(** [s.startswith(p)] *)
Fixpoint startswith (p s : str) : bool :=
  match p, s with
  | [], _ => true
  | _ :: _, [] => false
  | a :: p', b :: s' => Ascii.eqb a b && startswith p' s'
  end.

(** A match object: its span and its first group. *)
Record ps1_match : Type := {
  m_start : nat;
  m_end : nat;
  group1 : str;
}.

(** Modelled from the spec: tools/terminal/constants.py and metadata.py are
    not part of the sources at hand.  The extractor matches the pattern the
    tests document,
      [###PS1JSON###((?:(?!###PS1JSON###).)*?)###PS1END###]
    with [.] matching every character.  [match_group] matches the lazy group
    and the closing marker at the head of [s]: characters are consumed one
    by one, none of them at the start of an opening marker, until the
    closing marker is met.  It returns the group and what follows the
    closing marker. *)
Fixpoint match_group (s : str) : option (str * str) :=
  if startswith CMD_OUTPUT_PS1_END s
  then Some ([], drop (length CMD_OUTPUT_PS1_END) s)
  else if startswith CMD_OUTPUT_PS1_BEGIN s then None
  else match s with
       | [] => None
       | c :: s' =>
           match match_group s' with
           | Some (g, rest) => Some (c :: g, rest)
           | None => None
           end
       end.

Definition is_newline (c : ascii) : bool := (nat_of_ascii c =? 10)%nat.

(** Whether a line begins after the characters [u], given whether one
    began before them. *)
Definition line_start_after (u : str) (bol : bool) : bool :=
  match last u with
  | Some c => is_newline c
  | None => bol
  end.

Section Pattern.
(** The pattern the tests document has no anchor.  The constant itself is
    not among the sources, so the variant anchored with [^] under
    [re.MULTILINE] is modelled too: when [anchored], a match starts at the
    beginning of the transcript or just after a newline only. *)
Variable anchored : bool.

(** The pattern matched at the head of [s]; [bol] tells whether a line
    begins there. *)
Definition match_here (bol : bool) (s : str) : option (str * str) :=
  if (negb anchored || bol) && startswith CMD_OUTPUT_PS1_BEGIN s
  then match_group (drop (length CMD_OUTPUT_PS1_BEGIN) s)
  else None.

(** [finditer]: the leftmost match, then the leftmost match after its end,
    and so on.  [pos] is the index of the head of [s] in the transcript,
    [skip] the number of characters left of the match just reported, and
    [bol] tells whether a line begins at [pos]. *)
Fixpoint finditer_from (s : str) (pos skip : nat) (bol : bool) : list ps1_match :=
  match skip with
  | S k =>
      match s with
      | [] => []
      | c :: s' => finditer_from s' (S pos) k (is_newline c)
      end
  | O =>
      match match_here bol s with
      | Some (g, rest) =>
          let n := (length s - length rest)%nat in
          {| m_start := pos; m_end := (pos + n)%nat; group1 := g |} ::
          match s with
          | [] => []
          | c :: s' => finditer_from s' (S pos) (n - 1) (is_newline c)
          end
      | None =>
          match s with
          | [] => []
          | c :: s' => finditer_from s' (S pos) 0 (is_newline c)
          end
      end
  end.

Definition finditer (s : str) : list ps1_match := finditer_from s 0 0 true.

End Pattern.

(** The characters [str.strip()] removes. *)
Definition isspace (c : ascii) : bool :=
  let n := nat_of_ascii c in
  ((9 <=? n) && (n <=? 13) || (28 <=? n) && (n <=? 32) || (n =? 133) || (n =? 160))%nat.

Fixpoint lstrip (s : str) : str :=
  match s with
  | c :: s' => if isspace c then lstrip s' else s
  | [] => []
  end.

Definition strip (s : str) : str := rev (lstrip (rev (lstrip s))).

Section Extractor.
Variable anchored : bool.
(** [json.loads(text)] returns rather than raising [JSONDecodeError]. *)
Variable json_loads_ok : str -> bool.

(** Modelled from the spec: [CmdOutputMetadata.matches_ps1_metadata] keeps
    the matches whose stripped group parses as JSON and skips the others. *)
Definition matches_ps1_metadata (s : str) : list ps1_match :=
  filter (fun m => json_loads_ok (strip (group1 m)) = true) (finditer anchored s).

End Extractor.

(** The indices, from [pos] on, at which [p] stands in [s]. *)
Fixpoint occurrences_from (p s : str) (pos : nat) : list nat :=
  (if startswith p s then [pos] else []) ++
  match s with
  | [] => []
  | _ :: s' => occurrences_from p s' (S pos)
  end.

(** The opening (closing) marker stands at index [i] of [s]. *)
Definition begin_at (s : str) (i : nat) : Prop :=
  startswith CMD_OUTPUT_PS1_BEGIN (drop i s) = true.
Definition end_at (s : str) (i : nat) : Prop :=
  startswith CMD_OUTPUT_PS1_END (drop i s) = true.

End PS1.

(** ** workspace/remote: polling the events of a shell command *)
Module RemoteWorkspace.

(** An item of a bash-events search result. *)
Record bash_event : Type := {
  ev_id : option string;
  ev_kind : string;
  ev_order : option Z;
  ev_stdout : option string;
  ev_stderr : option string;
  ev_exit_code : option Z;
}.

(** What the client asks the transport to send. *)
Inductive request : Type :=
| StartBashCommand (command : string)
| SearchBashEvents (command_id : string) (kind__eq : string) (order__gt : option Z).

(** A response: what [raise_for_status] does, and the fields of its JSON
    body the client reads. *)
Record response : Type := {
  status : pyresult unit;
  body_id : option string;
  body_items : list bash_event;
}.

Record CommandResult : Type := {
  exit_code : Z;
  stdout : string;
  stderr : string;
}.

(** The local variables of the polling loop. *)
Record poll_state : Type := {
  last_order : Z;
  stdout_parts : list string;
  stderr_parts : list string;
  seen_exit_code : option Z;
}.

(** ["".join(parts)] *)
Definition join (parts : list string) : string := fold_right String.append "" parts.

(** [parts.append(x)] when [x] is a non-empty string. *)
Definition append_truthy (parts : list string) (x : option string) : list string :=
  match x with
  | Some s => if String.eqb s "" then parts else parts ++ [s]
  | None => parts
  end.

(** Modelled from the spec: workspace/remote/remote_workspace_mixin.py is
    not part of the sources at hand.  The loop body handles one item of a
    search result: only [BashOutput] items count; an item whose order is
    not above the last order seen fails the assertion; otherwise the order
    is recorded and the item's output collected. *)
Definition process_event (st : poll_state) (ev : bash_event) : pyresult poll_state :=
  if String.eqb (ev_kind ev) "BashOutput" then
    match ev_order ev with
    | Some o =>
        if o <=? last_order st
        then Raise (AssertionError
                      ("Duplicate event received: " ++ default "None" (ev_id ev)))
        else Ok {| last_order := o;
                   stdout_parts := append_truthy (stdout_parts st) (ev_stdout ev);
                   stderr_parts := append_truthy (stderr_parts st) (ev_stderr ev);
                   seen_exit_code := match ev_exit_code ev with
                                     | Some c => Some c
                                     | None => seen_exit_code st
                                     end |}
    | None =>
        Ok {| last_order := last_order st;
              stdout_parts := append_truthy (stdout_parts st) (ev_stdout ev);
              stderr_parts := append_truthy (stderr_parts st) (ev_stderr ev);
              seen_exit_code := match ev_exit_code ev with
                                | Some c => Some c
                                | None => seen_exit_code st
                                end |}
    end
  else Ok st.

Fixpoint process_events (st : poll_state) (evs : list bash_event) : pyresult poll_state :=
  match evs with
  | [] => Ok st
  | ev :: evs' => st' ← process_event st ev; process_events st' evs'
  end.

(** [str(e)] *)
Definition exn_str (e : exn) : string :=
  match e with
  | ValueError m | KeyError m | AssertionError m | OtherException m => m
  | TypeError => "TypeError"
  | AttributeError => "AttributeError"
  | OverflowError => "OverflowError"
  | JSONDecodeError => "JSONDecodeError"
  | TimeoutException => "TimeoutException"
  end.

(** The [except Exception] clause around the whole exchange. *)
Definition error_result (e : exn) : CommandResult :=
  {| exit_code := -1;
     stdout := "";
     stderr := "Remote command execution failed: " ++ exn_str e |}.

(** After the loop: the parts are joined; a missing exit code is a timeout. *)
Definition finish (st : poll_state) : CommandResult :=
  match seen_exit_code st with
  | Some c => {| exit_code := c;
                 stdout := join (stdout_parts st);
                 stderr := join (stderr_parts st) |}
  | None => {| exit_code := -1;
               stdout := join (stdout_parts st);
               stderr := join (stderr_parts st ++ ["Command timed out"]) |}
  end.

(** The generator between two [send]s. *)
Inductive suspended : Type :=
| AwaitStart (timeout : Q)
| AwaitPoll (timeout : Q) (command_id : string) (start_time : Q) (ticks : nat)
            (st : poll_state).

Inductive generator : Type :=
| Yielded (req : request) (k : suspended)
| Returned (r : CommandResult).

Section Client.
(** [clock n] is what the [n]-th call of [time.time()] returns. *)
Variable clock : nat -> Q.

(** Modelled from the spec: the head of the polling loop.  While the
    deadline has not passed, the next search is requested, filtered on the
    [BashOutput] kind and, once an order has been seen, on orders above
    the last one seen. *)
Definition loop_head (timeout : Q) (command_id : string) (start_time : Q) (ticks : nat)
    (st : poll_state) : generator :=
  if Qle_bool timeout (clock ticks - start_time)%Q
  then Returned (finish st)
  else Yielded
         (SearchBashEvents command_id "BashOutput"
            (if 0 <=? last_order st then Some (last_order st) else None))
         (AwaitPoll timeout command_id start_time (S ticks) st).

Definition _execute_command_generator (command : string) (timeout : Q) : generator :=
  Yielded (StartBashCommand command) (AwaitStart timeout).

(** [generator.send(response)] *)
Definition send (k : suspended) (r : response) : generator :=
  match k with
  | AwaitStart timeout =>
      match status r with
      | Raise e => Returned (error_result e)
      | Ok _ =>
          match body_id r with
          | None => Returned (error_result (KeyError "id"))
          | Some command_id =>
              loop_head timeout command_id (clock 0) 1
                {| last_order := -1; stdout_parts := []; stderr_parts := [];
                   seen_exit_code := None |}
          end
      end
  | AwaitPoll timeout command_id start_time ticks st =>
      match status r with
      | Raise e => Returned (error_result e)
      | Ok _ =>
          match process_events st (body_items r) with
          | Raise e => Returned (error_result e)
          | Ok st' =>
              match seen_exit_code st' with
              | Some _ => Returned (finish st')
              | None => loop_head timeout command_id start_time ticks st'
              end
          end
      end
  end.

(** The transport answers the requests with the given responses, in turn.
    The result comes with the responses left unused; [None] when the
    generator waits for a response that is not there. *)
Fixpoint run (g : generator) (responses : list response) {struct responses}
  : option (CommandResult * list response) :=
  match g with
  | Returned r => Some (r, responses)
  | Yielded _ k =>
      match responses with
      | [] => None
      | r :: rest => run (send k r) rest
      end
  end.

End Client.

(** The output chunks of the [BashOutput] items among [evs], in order. *)
Definition chunks (evs : list bash_event) : list string :=
  flat_map (fun ev =>
              if String.eqb (ev_kind ev) "BashOutput"
              then match ev_stdout ev with Some s => [s] | None => [] end
              else []) evs.

(** No item is delivered again: the orders of the [BashOutput] items
    increase strictly, starting above [last]. *)
Fixpoint increasing_orders (last : Z) (evs : list bash_event) : Prop :=
  match evs with
  | [] => True
  | ev :: evs' =>
      if String.eqb (ev_kind ev) "BashOutput" then
        match ev_order ev with
        | Some o => last < o /\ increasing_orders o evs'
        | None => increasing_orders last evs'
        end
      else increasing_orders last evs'
  end.

End RemoteWorkspace.

(** ** tool/schema.py: the MCP schema of an action type *)
Module McpSchema.

(** A JSON-schema node, by the keys the conversion reads.  [ref] holds the
    name [N] of a node [{"$ref": "#/$defs/N"}]; an absent [anyOf] is the
    empty list. *)
Inductive schema : Type :=
| Node (ref : option string) (type_ : option string) (description : option string)
       (properties : option (list (string * schema))) (required : option (list string))
       (items : option schema) (anyOf : list schema).

Definition ref_of (s : schema) : option string :=
  match s with Node r _ _ _ _ _ _ => r end.
Definition type_of (s : schema) : option string :=
  match s with Node _ t _ _ _ _ _ => t end.
Definition description_of (s : schema) : option string :=
  match s with Node _ _ d _ _ _ _ => d end.
Definition properties_of (s : schema) : option (list (string * schema)) :=
  match s with Node _ _ _ p _ _ _ => p end.
Definition required_of (s : schema) : option (list string) :=
  match s with Node _ _ _ _ r _ _ => r end.
Definition items_of (s : schema) : option schema :=
  match s with Node _ _ _ _ _ i _ => i end.

(** [{"type": "object"}] *)
Definition bare_object : schema := Node None (Some "object") None None None None [].

(** Modelled from the spec: tool/schema.py is not part of the sources at
    hand.  A [$ref] met while its definition is being expanded is not
    expanded again: a generic object stands for it.  The test
    test_circular_ref_returns_generic_object pins that the generic object
    keeps the description of the definition it stands for. *)
Definition placeholder (def : schema) : schema :=
  Node None (Some "object") (description_of def) None None None [].

(** [result.update(processed)] *)
Definition update (result processed : schema) : schema :=
  let pick {A} (new old : option A) : option A :=
    match new with Some x => Some x | None => old end in
  Node None
       (pick (type_of processed) (type_of result))
       (pick (description_of processed) (description_of result))
       (pick (properties_of processed) (properties_of result))
       (pick (required_of processed) (required_of result))
       (pick (items_of processed) (items_of result))
       [].

Definition is_type (t : string) (ty : option string) : bool :=
  match ty with Some t' => String.eqb t' t | None => false end.

(** The first alternative of an [anyOf] that is not the null type, once
    processed by [f], is merged into [result]. *)
Definition merge_first_non_null (f : schema -> option schema) (result : schema)
  : list schema -> option schema :=
  fix first (alts : list schema) : option schema :=
    match alts with
    | [] => Some result
    | alt :: rest =>
        if is_type "null" (type_of alt) then first rest
        else update result <$> f alt
    end.

(** Every property processed by [f], in order. *)
Definition process_properties (f : schema -> option schema)
  : list (string * schema) -> option (list (string * schema)) :=
  fix each (ps : list (string * schema)) : option (list (string * schema)) :=
    match ps with
    | [] => Some []
    | (n, s) :: rest =>
        s' ← f s;
        rest' ← each rest;
        Some ((n, s') :: rest')
    end.

Definition with_description (desc : option string) (r : schema) : schema :=
  match desc with
  | Some d => Node None (type_of r) (Some d) (properties_of r) (required_of r)
                   (items_of r) []
  | None => r
  end.

Section Process.
(** The [$defs] of the schema being converted. *)
Variable defs : list (string * schema).

Definition lookup_def (name : string) : option schema :=
  snd <$> find (fun kv => String.eqb (fst kv) name) defs.

(** The definitions not being visited. *)
Definition unvisited (visiting : list string) : list (string * schema) :=
  filter (fun kv => fst kv ∉ visiting) defs.

(** The definition a node refers to, when its [$ref] resolves. *)
Definition resolve (ref : option string) : option (string * schema) :=
  name ← ref; pair name <$> lookup_def name.

(** Modelled from the spec: [_process_schema_node(node, defs, _visiting)].
    A resolvable [$ref] is replaced by its processed definition, or by the
    placeholder when the definition is among those being visited.  Any
    other node keeps its type and description; the first alternative of an
    [anyOf] that is not the null type is merged in; the properties of an
    object and the items of an array are processed in turn.  [budget]
    bounds the number of nested [$ref] expansions; [None] is returned when
    it is exhausted. *)
Fixpoint process (budget : nat) : list string -> schema -> option schema :=
  fix walk (visiting : list string) (node : schema) {struct node} : option schema :=
    match node with
    | Node ref ty desc props req items anyOf =>
        match resolve ref with
        | Some (name, def) =>
            if bool_decide (name ∈ visiting) then Some (placeholder def)
            else match budget with
                 | O => None
                 | S b => process b (name :: visiting) def
                 end
        | None =>
            r1 ← merge_first_non_null (walk visiting)
                   (Node None ty None None None None []) anyOf;
            let r2 := with_description desc r1 in
            r3 ← match props with
                 | Some ps =>
                     if is_type "object" ty then
                       ps' ← process_properties (walk visiting) ps;
                       Some (Node None (Some "object") (description_of r2) (Some ps')
                                  (match req with Some r => Some r | None => required_of r2 end)
                                  (items_of r2) [])
                     else Some r2
                 | None => Some r2
                 end;
            match items with
            | Some it =>
                if is_type "array" ty then
                  it' ← walk visiting it;
                  Some (Node None (Some "array") (description_of r3) (properties_of r3)
                             (required_of r3) (Some it') [])
                else Some r3
            | None => Some r3
            end
        end
    end.

Definition _process_schema_node (node : schema) : option schema :=
  process (length defs) [] node.

End Process.

(** The discriminator field of the polymorphic models. *)
Definition DISCRIMINATOR : string := "kind".

(** Modelled from the spec: the discriminator is left out of the properties
    and of the required names of the result. *)
Definition exclude_discriminator (s : schema) : schema :=
  match s with
  | Node r t d props req items alts =>
      Node r t d
           (filter (fun kv => fst kv ≠ DISCRIMINATOR) <$> props)
           (filter (fun n => n ≠ DISCRIMINATOR) <$> req)
           items alts
  end.

(** Modelled from the spec: [Schema.to_mcp_schema], from the JSON schema
    of the action type, its root node and its [$defs]. *)
Definition to_mcp_schema (root : schema) (defs : list (string * schema)) : option schema :=
  exclude_discriminator <$> _process_schema_node defs root.

(** No [$ref] is left anywhere in a schema. *)
Fixpoint ref_free (s : schema) : bool :=
  match s with
  | Node r _ _ props _ items alts =>
      match r with Some _ => false | None => true end
      && match props with
         | Some ps => forallb (fun kv => ref_free (snd kv)) ps
         | None => true
         end
      && match items with Some it => ref_free it | None => true end
      && forallb ref_free alts
  end.

(** The parts of a schema in which a [$ref] could be left. *)
Definition properties_free (props : option (list (string * schema))) : bool :=
  match props with
  | Some ps => forallb (fun kv => ref_free (snd kv)) ps
  | None => true
  end.

Definition items_free (items : option schema) : bool :=
  match items with Some it => ref_free it | None => true end.

(** The names of the properties of a schema. *)
Definition property_names (s : schema) : list string :=
  match properties_of s with
  | Some ps => fst <$> ps
  | None => []
  end.

End McpSchema.

(** ** conversation/state.py: autosave on field assignment *)
Module Autosave.
Import Json.

(** Identities of dictionary objects. *)
Abbreviation ref := positive.

(** The conversation state as far as autosave goes.  [agent_state] refers
    to a dictionary object; [_fs] tells whether a file store is attached. *)
Record ConversationState : Type := {
  agent_state : ref;
  _autosave_enabled : bool;
  _fs : bool;
}.

(** The dictionary objects, the state, and the file store with the writes
    it has received, oldest first. *)
Record world : Type := {
  dicts : gmap ref (gmap string json);
  state : ConversationState;
  files : gmap string (gmap string json);
  writes : list (string * gmap string json);
}.

Definition BASE_STATE : string := "base_state.json".

(** The dictionary [state.agent_state] refers to. *)
Definition agent_state_dict (w : world) : gmap string json :=
  default ∅ (dicts w !! agent_state (state w)).

(** Modelled from the spec: [_save_base_state] writes base_state.json,
    which holds the state without its events. *)
Definition _save_base_state (w : world) : world :=
  {| dicts := dicts w;
     state := state w;
     files := <[BASE_STATE := agent_state_dict w]> (files w);
     writes := writes w ++ [(BASE_STATE, agent_state_dict w)] |}.

(** Modelled from the spec: conversation/state.py is not part of the
    sources at hand.  [state.agent_state = d] goes through the one write
    path of the state: the field is replaced, and with autosave enabled and
    a file store attached the base state is saved. *)
Definition setattr_agent_state (w : world) (d : ref) : world :=
  let w' := {| dicts := dicts w;
               state := {| agent_state := d;
                           _autosave_enabled := _autosave_enabled (state w);
                           _fs := _fs (state w) |};
               files := files w;
               writes := writes w |} in
  if _autosave_enabled (state w) && _fs (state w) then _save_base_state w' else w'.

(** A dictionary display [{...}] creates a new object. *)
Definition new_dict (w : world) (content : gmap string json) : ref * world :=
  let d := fresh (dom (dicts w)) in
  (d, {| dicts := <[d := content]> (dicts w);
         state := state w; files := files w; writes := writes w |}).

(** [state.agent_state = {**state.agent_state, key: value}] *)
Definition reassign (w : world) (key : string) (value : json) : world :=
  let (d, w') := new_dict w (<[key := value]> (agent_state_dict w)) in
  setattr_agent_state w' d.

(** [state.agent_state = content], for a newly built map. *)
Definition assign (w : world) (content : gmap string json) : world :=
  let (d, w') := new_dict w content in
  setattr_agent_state w' d.

(** [state.agent_state[key] = value]: the dictionary object is updated;
    no attribute of the state is assigned. *)
Definition setitem (w : world) (key : string) (value : json) : world :=
  {| dicts := alter (fun m => <[key := value]> m) (agent_state (state w)) (dicts w);
     state := state w;
     files := files w;
     writes := writes w |}.

(** [state.agent_state.get(key)] *)
Definition get (w : world) (key : string) : option json :=
  agent_state_dict w !! key.

End Autosave.

(** ** JSON texts

    The extractor of [PS1] is parametric in the JSON parser.  To run it on
    the transcripts of the tests, [json_text] recognises the texts that
    [json.loads] accepts: the JSON grammar, with the constants [NaN],
    [Infinity] and [-Infinity]. *)
Module JsonText.

Abbreviation str := (list ascii).

Definition code (c : ascii) : nat := nat_of_ascii c.

Definition is_json_space (c : ascii) : bool :=
  ((code c =? 32) || (code c =? 9) || (code c =? 10) || (code c =? 13))%nat.

Fixpoint skip_ws (s : str) : str :=
  match s with
  | c :: s' => if is_json_space c then skip_ws s' else s
  | [] => []
  end.

Definition is_digit (c : ascii) : bool := ((48 <=? code c) && (code c <=? 57))%nat.

Definition is_hex (c : ascii) : bool :=
  (is_digit c || (65 <=? code c) && (code c <=? 70)
   || (97 <=? code c) && (code c <=? 102))%nat.

Fixpoint skip_digits (s : str) : str :=
  match s with
  | c :: s' => if is_digit c then skip_digits s' else s
  | [] => []
  end.

(** One digit at least, then the rest. *)
Definition digits1 (s : str) : option str :=
  match s with
  | c :: s' => if is_digit c then Some (skip_digits s') else None
  | [] => None
  end.

(** The characters of a string after its opening quote. *)
Fixpoint string_tail (s : str) : option str :=
  match s with
  | [] => None
  | c :: r =>
      if (code c =? 34)%nat then Some r
      else if (code c =? 92)%nat then
        match r with
        | e :: r1 =>
            if existsb (Nat.eqb (code e)) [34; 92; 47; 98; 102; 110; 114; 116]%nat
            then string_tail r1
            else if (code e =? 117)%nat then
              match r1 with
              | h1 :: h2 :: h3 :: h4 :: r2 =>
                  if is_hex h1 && is_hex h2 && is_hex h3 && is_hex h4
                  then string_tail r2 else None
              | _ => None
              end
            else None
        | [] => None
        end
      else if (code c <? 32)%nat then None
      else string_tail r
  end.

Definition number (s : str) : option str :=
  let s1 := match s with
            | c :: r => if (code c =? 45)%nat then r else s
            | [] => s
            end in
  int ← match s1 with
        | c :: r => if (code c =? 48)%nat then Some r else digits1 s1
        | [] => None
        end;
  frac ← match int with
         | c :: r => if (code c =? 46)%nat then digits1 r else Some int
         | [] => Some int
         end;
  match frac with
  | c :: r =>
      if (code c =? 101)%nat || (code c =? 69)%nat then
        match r with
        | sg :: r' =>
            if (code sg =? 43)%nat || (code sg =? 45)%nat then digits1 r' else digits1 r
        | [] => None
        end
      else Some frac
  | [] => Some frac
  end.

Definition constant (s : str) : option str :=
  let lit (w : string) :=
    if PS1.startswith (list_ascii_of_string w) s
    then Some (drop (String.length w) s) else None in
  match lit "true", lit "false", lit "null", lit "NaN", lit "Infinity", lit "-Infinity" with
  | Some r, _, _, _, _, _ | _, Some r, _, _, _, _ | _, _, Some r, _, _, _
  | _, _, _, Some r, _, _ | _, _, _, _, Some r, _ | _, _, _, _, _, Some r => Some r
  | _, _, _, _, _, _ => None
  end.

Inductive mode : Type := Value | Members | Elements.

(** A value, the members of an object after its brace, or the elements of
    an array after its bracket, at the head of [s]; what follows is
    returned. *)
Fixpoint parse (fuel : nat) (m : mode) (s : str) : option str :=
  match fuel with
  | O => None
  | S f =>
      match m with
      | Value =>
          match skip_ws s with
          | [] => None
          | c :: r =>
              if (code c =? 123)%nat then
                match skip_ws r with
                | c' :: r' => if (code c' =? 125)%nat then Some r' else parse f Members r
                | [] => None
                end
              else if (code c =? 91)%nat then
                match skip_ws r with
                | c' :: r' => if (code c' =? 93)%nat then Some r' else parse f Elements r
                | [] => None
                end
              else if (code c =? 34)%nat then string_tail r
              else match constant (c :: r) with
                   | Some r' => Some r'
                   | None => number (c :: r)
                   end
          end
      | Members =>
          match skip_ws s with
          | q :: r =>
              if (code q =? 34)%nat then
                r1 ← string_tail r;
                match skip_ws r1 with
                | colon :: r2 =>
                    if (code colon =? 58)%nat then
                      r3 ← parse f Value r2;
                      match skip_ws r3 with
                      | d :: r4 =>
                          if (code d =? 44)%nat then parse f Members r4
                          else if (code d =? 125)%nat then Some r4 else None
                      | [] => None
                      end
                    else None
                | [] => None
                end
              else None
          | [] => None
          end
      | Elements =>
          r1 ← parse f Value s;
          match skip_ws r1 with
          | d :: r2 =>
              if (code d =? 44)%nat then parse f Elements r2
              else if (code d =? 93)%nat then Some r2 else None
          | [] => None
          end
      end
  end.

Definition json_text (s : str) : bool :=
  match parse (2 * length s + 2) Value s with
  | Some r => match skip_ws r with [] => true | _ => false end
  | None => false
  end.

(** Texts are written with [q] for a quoted word and [nl] for a newline. *)
Definition nl : str := [ascii_of_nat 10].
Definition q (w : string) : str :=
  ascii_of_nat 34 :: list_ascii_of_string w ++ [ascii_of_nat 34].
Definition t (w : string) : str := list_ascii_of_string w.

End JsonText.

(** ** agent/critic_mixin.py: the refinement checks of one conversation *)
Module Refinement.
Import CriticRefine.

(** The calls of [_check_iterative_refinement] that an agent makes on one
    conversation, one for each finish action in turn.  Every call works on
    the state the previous call left; a call that raises ends the run. *)
Fixpoint check_all (critic : option CriticBase) (state : ConversationState)
    (events : list ActionEvent)
  : list (pyresult (bool * option string)) * ConversationState :=
  match events with
  | [] => ([], state)
  | action_event :: rest =>
      match _check_iterative_refinement critic state action_event with
      | (Raise e, state) => ([Raise e], state)
      | (Ok out, state) =>
          let (outs, state) := check_all critic state rest in
          (Ok out :: outs, state)
      end
  end.

(** The call told the agent to continue. *)
Definition should_continue (out : pyresult (bool * option string)) : bool :=
  match out with
  | Ok (true, _) => true
  | _ => false
  end.

Definition raised {A : Type} (out : pyresult A) : bool :=
  match out with
  | Raise _ => true
  | Ok _ => false
  end.

(** The number of calls of a run that told the agent to continue. *)
Definition continues (outs : list (pyresult (bool * option string))) : nat :=
  length (List.filter should_continue outs).

End Refinement.

(** ** security/grayswan/analyzer.py: the set-up of an analyzer *)
Module GraySwanSetup.
Import GraySwan.

Definition DEFAULT_POLICY_ID : string := "689ca4885af3538a39b2ba04".

(** [not s] for [s : str | None]. *)
Definition not_str (s : option string) : bool :=
  match s with
  | None => true
  | Some k => String.eqb k ""
  end.

Section Environment.
(** [os.getenv] *)
Variable getenv : string -> option string.

(** [model_post_init]: the key and the policy id that were not given are
    looked up in the environment; a policy id that is still missing or empty
    is replaced by the default policy. *)
Definition model_post_init (a : GraySwanAnalyzer) : GraySwanAnalyzer :=
  let api_key :=
    match api_key a with
    | None =>
        let env_key := getenv "GRAYSWAN_API_KEY" in
        if not_str env_key then None else env_key
    | Some k => Some k
    end in
  let policy_id :=
    match policy_id a with
    | None => getenv "GRAYSWAN_POLICY_ID"
    | Some p => Some p
    end in
  let policy_id := if not_str policy_id then Some DEFAULT_POLICY_ID else policy_id in
  {| history_limit := history_limit a;
     low_threshold := low_threshold a;
     medium_threshold := medium_threshold a;
     api_url := api_url a;
     api_key := api_key;
     policy_id := policy_id |}.

End Environment.

(** The analyzer with another history limit. *)
Definition with_history_limit (a : GraySwanAnalyzer) (n : Z) : GraySwanAnalyzer :=
  {| history_limit := n;
     low_threshold := low_threshold a;
     medium_threshold := medium_threshold a;
     api_url := api_url a;
     api_key := api_key a;
     policy_id := policy_id a |}.

(** The levels of risk a score is mapped to, in increasing order. *)
Definition risk_rank (r : SecurityRisk) : Z :=
  match r with
  | UNKNOWN => 0
  | LOW => 1
  | MEDIUM => 2
  | HIGH => 3
  end.

End GraySwanSetup.

(** ** security/grayswan/utils.py *)
Module OpenAIMessages.
Import Json.

(** The content blocks of a message. *)
Inductive content : Type :=
| TextContent (text : string)
| ImageContent (image_urls : list string).

(** The events the conversion tells apart, each with what the conversion
    reads from it: the text of the system prompt; the source of a message
    event and the content of its [to_llm_message()]; the tool call of an
    action event and the texts of its thought; the tool call id of an
    observation and its [to_llm_content]; the tool call id of another
    observation base event (a rejection, an agent error) and the content of
    its [to_llm_message()].  Any other event is an [OtherEvent]. *)
Inductive event : Type :=
| SystemPromptEvent (system_prompt : string)
| MessageEvent (source : string) (llm_message : list content)
| ActionEvent (tool_call_id tool_name arguments : string) (thought : list string)
| ObservationEvent (tool_call_id : string) (to_llm_content : list content)
| ObservationBaseEvent (tool_call_id : string) (llm_message : list content)
| OtherEvent.

(** The dictionaries the conversion builds; a key that a dictionary lacks is
    [None]. *)
Record tool_call_dict : Type := {
  tc_id : string;
  tc_type : string;
  tc_name : string;
  tc_arguments : string;
}.

Record message : Type := {
  role : string;
  content_str : string;
  tool_calls : option (list tool_call_dict);
  msg_tool_call_id : option string;
}.

(** [key in args] on a value that [json.loads] returned: a key of a dict, an
    item of a list, a substring of a string; a number, a boolean and [None]
    are not iterable. *)
Definition contains (args : json) (key : string) : pyresult bool :=
  match args with
  | JObj fields => Ok (existsb (fun kv => String.eqb (fst kv) key) fields)
  | JArr items =>
      Ok (existsb (fun v => match v with JStr s => String.eqb s key | _ => false end) items)
  | JStr s => Ok (match String.index 0 key s with Some _ => true | None => false end)
  | JNull | JBool _ | JInt _ | JFloat _ => Raise TypeError
  end.

(** [del args[key]]: only a dict accepts a string key. *)
Definition delitem (args : json) (key : string) : pyresult json :=
  match args with
  | JObj fields =>
      if existsb (fun kv => String.eqb (fst kv) key) fields
      then Ok (JObj (List.filter (fun kv => negb (String.eqb (fst kv) key)) fields))
      else Raise (KeyError key)
  | _ => Raise TypeError
  end.

(** The texts of the text blocks; images are skipped. *)
Definition text_parts (blocks : list content) : list string :=
  omap (fun c => match c with TextContent t => Some t | ImageContent _ => None end) blocks.

Section Conversion.
(** [json.loads], [json.dumps] and [content_to_str] of the llm package. *)
Variable json_loads : string -> pyresult json.
Variable json_dumps : json -> string.
Variable content_to_str : list content -> list string.

(** The arguments of the tool call as they are sent: without the
    [security_risk] entry when they are a JSON object that has one.  Only
    [JSONDecodeError] and [KeyError] are caught. *)
Definition sent_arguments (arguments : string) : pyresult string :=
  let attempt :=
    args ← json_loads arguments;
    present ← contains args "security_risk";
    if present : bool then
      args ← delitem args "security_risk";
      Ok (json_dumps args)
    else Ok arguments in
  match attempt with
  | Raise JSONDecodeError | Raise (KeyError _) => Ok arguments
  | _ => attempt
  end.

(** The body of the loop: the messages one event contributes. *)
Definition convert_event (e : event) : pyresult (list message) :=
  match e with
  | SystemPromptEvent system_prompt =>
      Ok [{| role := "system"; content_str := system_prompt;
             tool_calls := None; msg_tool_call_id := None |}]
  | MessageEvent source llm_message =>
      let content_str := String.concat " " (text_parts llm_message) in
      if String.eqb source "user" then
        Ok [{| role := "user"; content_str := content_str;
               tool_calls := None; msg_tool_call_id := None |}]
      else if String.eqb source "agent" then
        Ok [{| role := "assistant"; content_str := content_str;
               tool_calls := None; msg_tool_call_id := None |}]
      else Ok []
  | ActionEvent tool_call_id tool_name arguments thought =>
      arguments ← sent_arguments arguments;
      Ok [{| role := "assistant"; content_str := String.concat " " thought;
             tool_calls := Some [{| tc_id := tool_call_id; tc_type := "function";
                                    tc_name := tool_name; tc_arguments := arguments |}];
             msg_tool_call_id := None |}]
  | ObservationEvent tool_call_id to_llm_content =>
      if String.eqb tool_call_id "" then Ok []
      else Ok [{| role := "tool";
                  content_str := String.concat " " (content_to_str to_llm_content);
                  tool_calls := None; msg_tool_call_id := Some tool_call_id |}]
  | ObservationBaseEvent tool_call_id llm_message =>
      if String.eqb tool_call_id "" then Ok []
      else Ok [{| role := "tool";
                  content_str := String.concat " " (content_to_str llm_message);
                  tool_calls := None; msg_tool_call_id := Some tool_call_id |}]
  | OtherEvent => Ok []
  end.

Fixpoint convert_events_to_openai_messages (events : list event)
  : pyresult (list message) :=
  match events with
  | [] => Ok []
  | e :: rest =>
      msgs ← convert_event e;
      openai_messages ← convert_events_to_openai_messages rest;
      Ok (msgs ++ openai_messages)
  end.

End Conversion.

(** A dict has the key. *)
Definition has_key (fields : list (string * json)) (key : string) : bool :=
  existsb (fun kv => String.eqb (fst kv) key) fields.

(** The values that are not iterable. *)
Definition scalar (v : json) : bool :=
  match v with
  | JNull | JBool _ | JInt _ | JFloat _ => true
  | _ => false
  end.

(** What a well-formed OpenAI message looks like: one of the four roles; a
    tool message, and only a tool message, names the tool call it answers;
    tool calls appear on assistant messages only and are function calls. *)
Definition well_formed (m : message) : Prop :=
  (role m = "system" \/ role m = "user" \/ role m = "assistant" \/ role m = "tool") /\
  (role m = "tool" <-> is_Some (msg_tool_call_id m)) /\
  msg_tool_call_id m <> Some "" /\
  (forall calls, tool_calls m = Some calls ->
     role m = "assistant" /\ Forall (fun c => tc_type c = "function") calls).

End OpenAIMessages.

(** ** tool/spec.py *)
Module ToolSpec.

(** [not s] for a string. *)
Definition is_empty (s : PS1.str) : bool :=
  match s with
  | [] => true
  | _ :: _ => false
  end.

(** The validator of the field [name]. *)
Definition validate_name (v : PS1.str) : pyresult PS1.str :=
  if is_empty v || is_empty (PS1.strip v)
  then Raise (ValueError "Tool name cannot be empty")
  else Ok v.

(** The validator of the field [params], run before the field is parsed. *)
Definition validate_params {params : Type} (empty : params) (v : option params) : params :=
  match v with
  | Some v => v
  | None => empty
  end.

End ToolSpec.

(** ** llm/llm_profile_store.py *)
Module ProfileStore.

Abbreviation str := (list ascii).

Definition JSON_SUFFIX : str := list_ascii_of_string ".json".

(** [s.endswith(suffix)] and [s.removesuffix(suffix)] *)
Definition endswith (suffix s : str) : bool := PS1.startswith (rev suffix) (rev s).

Definition removesuffix (suffix s : str) : str :=
  if negb (ToolSpec.is_empty suffix) && endswith suffix s
  then take (length s - length suffix) s
  else s.

(** [c in s] for a character [c]. *)
Definition contains (c : ascii) (s : str) : bool := existsb (Ascii.eqb c) s.

Definition SLASH : ascii := "/"%char.
Definition BACKSLASH : ascii := "\"%char.
Definition DOT : ascii := "."%char.

(** [_get_profile_path]: the name of the profile's file; the path returned
    is [base_dir / file name]. *)
Definition _get_profile_path (name : str) : pyresult str :=
  let clean_name := removesuffix JSON_SUFFIX name in
  if ToolSpec.is_empty clean_name
     || contains SLASH clean_name
     || contains BACKSLASH clean_name
     || PS1.startswith [DOT] clean_name
  then Raise (ValueError "Invalid profile name")
  else Ok (clean_name ++ JSON_SUFFIX).

Section Store.
(** An [LLM] and its serialization: [llm.model_dump_json] with secrets
    exposed or not, and [LLM.load_from_json] on the content of a file. *)
Context {LLM : Type}.
Variable model_dump_json : LLM -> bool -> str.
Variable load_from_json : str -> pyresult LLM.
(** The name [tempfile.NamedTemporaryFile] picks in a directory. *)
Variable mktemp : gmap str str -> str.

(** The files of [base_dir] by name, and whether the lock of the store can
    be acquired within the timeout. *)
Record store : Type := {
  files : gmap str str;
  lock_free : bool;
}.

Definition with_files (s : store) (f : gmap str str) : store :=
  {| files := f; lock_free := lock_free s |}.

Definition TimeoutError : exn := OtherException "TimeoutError".
Definition FileNotFoundError : exn := OtherException "FileNotFoundError".

(** [base_dir.glob("*.json")], by name; in no particular order. *)
Definition glob_json (s : store) : list str :=
  List.filter (endswith JSON_SUFFIX) (map_to_list (files s)).*1.

Definition list (s : store) : pyresult (list str) :=
  if lock_free s then Ok (glob_json s) else Raise TimeoutError.

(** [save]: the profile is written to a temporary file of the directory,
    which then replaces the profile's file. *)
Definition save (s : store) (name : str) (llm : LLM) (include_secrets : bool)
  : pyresult unit * store :=
  match _get_profile_path name with
  | Raise e => (Raise e, s)
  | Ok profile_path =>
      if lock_free s then
        let profile_json := model_dump_json llm include_secrets in
        let tmp_path := mktemp (files s) in
        let written := <[tmp_path := profile_json]> (files s) in
        (Ok tt, with_files s (<[profile_path := profile_json]> (delete tmp_path written)))
      else (Raise TimeoutError, s)
  end.

Definition load (s : store) (name : str) : pyresult LLM :=
  profile_path ← _get_profile_path name;
  if lock_free s then
    match files s !! profile_path with
    | None => Raise FileNotFoundError
    | Some text =>
        match load_from_json text with
        | Ok llm_instance => Ok llm_instance
        | Raise _ => Raise (ValueError "Failed to load profile")
        end
    end
  else Raise TimeoutError.

Definition delete (s : store) (name : str) : pyresult unit * store :=
  match _get_profile_path name with
  | Raise e => (Raise e, s)
  | Ok profile_path =>
      if lock_free s then
        match files s !! profile_path with
        | None => (Ok tt, s)
        | Some _ => (Ok tt, with_files s (base.delete profile_path (files s)))
        end
      else (Raise TimeoutError, s)
  end.

End Store.

End ProfileStore.

(** ** tools/browser_use: event_storage.py and recording.py *)
Module Recording.

(** [not s] for [s : str | None]. *)
Definition not_str (s : option string) : bool :=
  match s with
  | None => true
  | Some k => String.eqb k ""
  end.

(** [not l] for a list. *)
Definition is_nil {A : Type} (l : list A) : bool :=
  match l with
  | [] => true
  | _ :: _ => false
  end.

(** [os.path.join(a, b)] on POSIX paths. *)
Definition path_join (a b : string) : string :=
  if String.prefix "/" b then b
  else if String.eqb a ""
          || match last (list_ascii_of_string a) with
             | Some c => Ascii.eqb c "/"
             | None => false
             end
       then (a ++ b)%string
       else (a ++ "/" ++ b)%string.

Section Storage.
(** A recorded event is a dict; its content is not looked at. *)
Context {event : Type}.
(** [datetime.now(UTC).strftime("%Y%m%d-%H%M%S-%f")] at the successive
    readings of the clock, and whether a file can be created and written at
    a path: else [open] or [json.dump] raises [OSError]. *)
Variable timestamp : nat -> string.
Variable writable : string -> bool.

Record EventStorage : Type := {
  output_dir : option string;
  _session_dir : option string;
  _files_written : Z;
  _total_events : Z;
}.

(** The outside of the storage: the files written so far, oldest first, each
    with the events dumped into it, the directories made, and the number of
    readings of the clock. *)
Record world : Type := {
  written : list (string * list event);
  made : list string;
  clock : nat;
}.

Definition OSError : exn := OtherException "OSError".

Definition session_dir (self : EventStorage) : option string := _session_dir self.
Definition file_count (self : EventStorage) : Z := _files_written self.
Definition total_events (self : EventStorage) : Z := _total_events self.

Definition create_session_subfolder (self : EventStorage) (w : world)
  : option string * EventStorage * world :=
  match output_dir self with
  | None => (None, self, w)
  | Some dir =>
      if String.eqb dir "" then (None, self, w)
      else
        let subfolder := path_join dir ("recording-" ++ timestamp (clock w)) in
        (Some subfolder,
         {| output_dir := output_dir self; _session_dir := Some subfolder;
            _files_written := _files_written self;
            _total_events := _total_events self |},
         {| written := written w; made := made w ++ [subfolder]; clock := S (clock w) |})
  end.

Definition save_events (self : EventStorage) (w : world) (events : list event)
  : pyresult (option string) * EventStorage * world :=
  match _session_dir self with
  | None => (Ok None, self, w)
  | Some dir =>
      if String.eqb dir "" || is_nil events then (Ok None, self, w)
      else
        let filepath := path_join dir (timestamp (clock w) ++ ".json") in
        let w := {| written := written w; made := made w ++ [dir];
                    clock := S (clock w) |} in
        if writable filepath then
          (Ok (Some filepath),
           {| output_dir := output_dir self; _session_dir := _session_dir self;
              _files_written := _files_written self + 1;
              _total_events := _total_events self + Z.of_nat (length events) |},
           {| written := written w ++ [(filepath, events)]; made := made w;
              clock := clock w |})
        else (Raise OSError, self, w)
  end.

Definition reset (self : EventStorage) : EventStorage :=
  {| output_dir := output_dir self; _session_dir := None;
     _files_written := 0; _total_events := 0 |}.

(** The fields of a [RecordingSession] that the buffering of events reads
    and writes. *)
Record RecordingSession : Type := {
  _storage : EventStorage;
  _is_recording : bool;
  _events : list event;
  _consecutive_flush_failures : Z;
}.

Definition with_storage (self : RecordingSession) (st : EventStorage) : RecordingSession :=
  {| _storage := st; _is_recording := _is_recording self; _events := _events self;
     _consecutive_flush_failures := _consecutive_flush_failures self |}.

Definition with_events (self : RecordingSession) (evs : list event) : RecordingSession :=
  {| _storage := _storage self; _is_recording := _is_recording self; _events := evs;
     _consecutive_flush_failures := _consecutive_flush_failures self |}.

Definition with_failures (self : RecordingSession) (n : Z) : RecordingSession :=
  {| _storage := _storage self; _is_recording := _is_recording self;
     _events := _events self; _consecutive_flush_failures := n |}.

Definition _save_and_clear_events (self : RecordingSession) (w : world)
  : pyresult (option string) * RecordingSession * world :=
  if is_nil (_events self) then (Ok None, self, w)
  else
    match save_events (_storage self) w (_events self) with
    | (Raise e, st, w) => (Raise e, with_storage self st, w)
    | (Ok filepath, st, w) =>
        let self := with_storage self st in
        if not_str filepath then (Ok filepath, self, w)
        else (Ok filepath, with_events self [], w)
    end.

(** [flush_events]: [browser] is what the evaluation of the flush script in
    the page and the decoding of its answer give, the events of the page or
    an exception; every exception is swallowed. *)
Definition flush_events (self : RecordingSession) (browser : pyresult (list event))
  : Z * RecordingSession :=
  if _is_recording self then
    match browser with
    | Ok events =>
        (Z.of_nat (length events),
         if is_nil events then self else with_events self (_events self ++ events))
    | Raise _ => (0, self)
    end
  else (0, self).

(** One round of [_periodic_flush_loop] while the session is recording: the
    [try] statement of the loop body. *)
Definition flush_round (self : RecordingSession) (w : world)
    (browser : pyresult (list event)) : RecordingSession * world :=
  let self := snd (flush_events self browser) in
  if is_nil (_events self) then (self, w)
  else
    match _save_and_clear_events self w with
    | (Raise _, self, w) =>
        (with_failures self (_consecutive_flush_failures self + 1), w)
    | (Ok filepath, self, w) =>
        if not_str filepath
        then (with_failures self (_consecutive_flush_failures self + 1), w)
        else (with_failures self 0, w)
    end.

(** The rounds of the loop, one for each answer of the browser. *)
Definition flush_rounds (self : RecordingSession) (w : world)
    (answers : list (pyresult (list event))) : RecordingSession * world :=
  foldl (fun sw browser => flush_round (fst sw) (snd sw) browser) (self, w) answers.

End Storage.

(** The total number of events in a list of files. *)
Definition events_in {event : Type} (files : list (string * list event)) : Z :=
  Z.of_nat (length (concat files.*2)).

(** The events a browser answer delivers. *)
Definition delivered {event : Type} (browser : pyresult (list event)) : list event :=
  match browser with
  | Ok events => events
  | Raise _ => []
  end.

End Recording.

(** ** security/grayswan/analyzer.py: the HTTP client of an analyzer *)
Module GraySwanClient.

(** The [httpx.Client] objects created so far, in the order of their
    creation, each with its [is_closed]; and the attribute [_client], a
    reference to one of them or [None]. *)
Record state : Type := {
  clients : list bool;
  _client : option nat;
}.

(** [_create_client]: a new client, which is open. *)
Definition _create_client (s : state) : nat * state :=
  (length (clients s), {| clients := clients s ++ [false]; _client := _client s |}).

Definition _get_client (s : state) : nat * state :=
  match _client s with
  | None =>
      let (c, s) := _create_client s in
      (c, {| clients := clients s; _client := Some c |})
  | Some c =>
      match clients s !! c with
      | Some false => (c, s)
      | _ =>
          let (c, s) := _create_client s in
          (c, {| clients := clients s; _client := Some c |})
      end
  end.

Definition close (s : state) : state :=
  match _client s with
  | Some c =>
      match clients s !! c with
      | Some false => {| clients := <[c := true]> (clients s); _client := None |}
      | _ => s
      end
  | None => s
  end.

(** The calls made on an analyzer: an API call fetches the client. *)
Inductive call : Type := GetClient | Close.

Definition step (s : state) (c : call) : state :=
  match c with
  | GetClient => snd (_get_client s)
  | Close => close s
  end.

Definition run (s : state) (calls : list call) : state := foldl step s calls.

(** A new analyzer. *)
Definition new : state := {| clients := []; _client := None |}.

(** The clients that are open. *)
Definition open (s : state) (c : nat) : Prop := clients s !! c = Some false.

(** Every open client is the one the analyzer holds. *)
Definition no_leak (s : state) : Prop := forall c, open s c -> _client s = Some c.

End GraySwanClient.

(** ** .github/scripts/check_sdk_api_breakage.py *)
Module ApiBreakage.

Definition IndexError : exn := OtherException "IndexError".

Section Versions.
(** [packaging.version]: the parsed versions, [parse], which raises
    [InvalidVersion] on a string that is no version, and the order [<] of
    parsed versions. *)
Context {Version : Type}.
Variable _parse_version : string -> pyresult Version.
Variable lt : Version -> Version -> bool.

(** The keys of a sort: [_sort_key] is called on every element in turn,
    before anything is compared. *)
Fixpoint keyed (l : list string) : pyresult (list (Version * string)) :=
  match l with
  | [] => Ok []
  | s :: l =>
      k ← _parse_version s;
      ks ← keyed l;
      Ok ((k, s) :: ks)
  end.

(** [sorted(l, key=_sort_key, reverse=True)] on keyed elements: by
    decreasing key, elements of equal key in their order in [l]. *)
Fixpoint insert_reverse (x : Version * string) (l : list (Version * string))
  : list (Version * string) :=
  match l with
  | [] => [x]
  | y :: l' => if lt (fst x) (fst y) then y :: insert_reverse x l' else x :: l
  end.

Definition sorted_reverse (l : list (Version * string)) : list (Version * string) :=
  foldr insert_reverse [] l.

(** [sorted(l, key=_sort_key, reverse=True)[0]] *)
Definition first_sorted_reverse (l : list string) : pyresult string :=
  ks ← keyed l;
  match sorted_reverse ks with
  | [] => Raise IndexError
  | (_, s) :: _ => Ok s
  end.

(** [[rv for rv in releases if _parse_version(rv) < cur_parsed]] *)
Fixpoint older_than (cur_parsed : Version) (releases : list string)
  : pyresult (list string) :=
  match releases with
  | [] => Ok []
  | rv :: releases =>
      v ← _parse_version rv;
      older ← older_than cur_parsed releases;
      Ok (if lt v cur_parsed then rv :: older else older)
  end.

(** [get_prev_pypi_version]: [fetched] is the metadata of the package as
    fetched from PyPI, by the keys of its [releases], or the exception the
    request raised. *)
Definition get_prev_pypi_version (fetched : pyresult (list string))
    (current : option string) : pyresult (option string) :=
  match fetched with
  | Raise _ => Ok None
  | Ok releases =>
      match releases with
      | [] => Ok None
      | _ :: _ =>
          match current with
          | None => first ← first_sorted_reverse releases; Ok (Some first)
          | Some current =>
              cur_parsed ← _parse_version current;
              older ← older_than cur_parsed releases;
              match older with
              | [] => Ok None
              | _ :: _ => first ← first_sorted_reverse older; Ok (Some first)
              end
          end
      end
  end.

End Versions.

(** Versions [major.minor] as pairs, for the examples: their order. *)
Definition pair_lt (a b : Z * Z) : bool :=
  (fst a <? fst b) || ((fst a =? fst b) && (snd a <? snd b)).

End ApiBreakage.

(** ** Test data

    The inputs of the tests of the repository on which the embedding is
    run below. *)

(** The analyzer with the default thresholds 0.3 and 0.7. *)
Definition default_analyzer : GraySwan.GraySwanAnalyzer :=
  {| GraySwan.history_limit := 20;
     GraySwan.low_threshold := PyNum.FFin (3 # 10);
     GraySwan.medium_threshold := PyNum.FFin (7 # 10);
     GraySwan.api_url := "https://api.grayswan.ai/cygnal/monitor";
     GraySwan.api_key := Some "test_key";
     GraySwan.policy_id := Some "689ca4885af3538a39b2ba04" |}.

(** A critic with threshold 0.6 and three iterations, as in the tests. *)
Definition test_critic : CriticRefine.CriticBase :=
  {| CriticRefine.iterative_refinement :=
       Some {| CriticRefine.success_threshold := 6 # 10;
               CriticRefine.max_iterations := 3 |};
     CriticRefine.get_followup_prompt := fun _ _ => "The task appears incomplete" |}.

(** Two instances that share one metrics object, as [model_copy] leaves
    them. *)
Definition shared_heap : gmap positive Registry.LLM :=
  <[2%positive := {| Registry.usage_id := "condenser"; Registry._metrics := Some 5%positive |}]>
    (<[1%positive := {| Registry.usage_id := "agent"; Registry._metrics := Some 5%positive |}]> ∅).

(** A state with autosave enabled, as the tests set it up. *)
Definition autosaving_world : Autosave.world :=
  {| Autosave.dicts := {[1%positive := ∅]};
     Autosave.state := {| Autosave.agent_state := 1%positive;
                          Autosave._autosave_enabled := true;
                          Autosave._fs := true |};
     Autosave.files := ∅;
     Autosave.writes := [] |}.

(** The responses of the test of three polls, and of the test in which the
    second poll delivers the first item again. *)
Definition output_event (id : string) (order : Z) (out : string) (code : option Z)
  : RemoteWorkspace.bash_event :=
  {| RemoteWorkspace.ev_id := Some id;
     RemoteWorkspace.ev_kind := "BashOutput";
     RemoteWorkspace.ev_order := Some order;
     RemoteWorkspace.ev_stdout := Some out;
     RemoteWorkspace.ev_stderr := None;
     RemoteWorkspace.ev_exit_code := code |}.

Definition ok_response (id : option string) (items : list RemoteWorkspace.bash_event)
  : RemoteWorkspace.response :=
  {| RemoteWorkspace.status := Ok tt;
     RemoteWorkspace.body_id := id;
     RemoteWorkspace.body_items := items |}.

Definition test_clock (n : nat) : Q := inject_Z (Z.of_nat n).

Definition three_polls : list RemoteWorkspace.response :=
  [ok_response None [output_event "event-1" 0 "CHUNK1" None];
   ok_response None [output_event "event-2" 1 "CHUNK2" None];
   ok_response None [output_event "event-3" 2 "CHUNK3" (Some 0)]].

(** The tree schema of the tests: its [children] are tree nodes again. *)
Definition tree_node : McpSchema.schema :=
  McpSchema.Node None (Some "object") (Some "A tree node")
    (Some [("name", McpSchema.Node None (Some "string") (Some "Node name")
                      None None None []);
           ("children",
            McpSchema.Node None (Some "array") (Some "Child nodes") None None
              (Some (McpSchema.Node (Some "TreeNode") None None None None None []))
              [])])
    None None [].

(** The transcript of test_regex_handles_nested_markers: the first block is
    cut short by concurrent output, the second is intact. *)
Definition corrupted_block : PS1.str :=
  JsonText.nl ++ JsonText.t "{" ++ JsonText.nl
  ++ JsonText.t "  " ++ JsonText.q "pid" ++ JsonText.t ": " ++ JsonText.q "123"
  ++ JsonText.t "," ++ JsonText.nl
  ++ JsonText.t "  " ++ JsonText.q "exit_code" ++ JsonText.t ": " ++ JsonText.q "0"
  ++ JsonText.t "," ++ JsonText.nl
  ++ JsonText.t "  " ++ JsonText.q "username" ++ JsonText.t ": " ++ JsonText.q "openhands"
  ++ JsonText.nl
  ++ JsonText.t "CONCURRENT OUTPUT CORRUPTS THIS BLOCK" ++ JsonText.nl.

Definition intact_block : PS1.str :=
  JsonText.nl ++ JsonText.t "{" ++ JsonText.nl
  ++ JsonText.t "  " ++ JsonText.q "pid" ++ JsonText.t ": " ++ JsonText.q "456"
  ++ JsonText.t "," ++ JsonText.nl
  ++ JsonText.t "  " ++ JsonText.q "exit_code" ++ JsonText.t ": " ++ JsonText.q "0"
  ++ JsonText.t "," ++ JsonText.nl
  ++ JsonText.t "  " ++ JsonText.q "username" ++ JsonText.t ": " ++ JsonText.q "openhands"
  ++ JsonText.t "," ++ JsonText.nl
  ++ JsonText.t "  " ++ JsonText.q "hostname" ++ JsonText.t ": " ++ JsonText.q "localhost"
  ++ JsonText.t "," ++ JsonText.nl
  ++ JsonText.t "  " ++ JsonText.q "working_dir" ++ JsonText.t ": " ++ JsonText.q "/workspace"
  ++ JsonText.t "," ++ JsonText.nl
  ++ JsonText.t "  " ++ JsonText.q "py_interpreter_path" ++ JsonText.t ": "
  ++ JsonText.q "/usr/bin/python" ++ JsonText.nl
  ++ JsonText.t "}" ++ JsonText.nl.

Definition before_ps1 : PS1.str := JsonText.t "COMMAND OUTPUT BEFORE PS1" ++ JsonText.nl.
Definition after_ps1 : PS1.str := JsonText.nl ++ JsonText.t "COMMAND OUTPUT AFTER PS1".

Definition nested_markers : PS1.str :=
  before_ps1 ++ PS1.CMD_OUTPUT_PS1_BEGIN ++ corrupted_block
  ++ PS1.CMD_OUTPUT_PS1_BEGIN ++ intact_block ++ PS1.CMD_OUTPUT_PS1_END ++ after_ps1.

(** A finish action whose critic score 0.3 is below the threshold of
    [test_critic], and a conversation that has not been refined yet. *)
Definition low_score_finish : CriticRefine.ActionEvent :=
  {| CriticRefine.critic_result :=
       Some {| CriticRefine.score := 3 # 10; CriticRefine.message := None |} |}.

Definition fresh_conversation : CriticRefine.ConversationState :=
  {| CriticRefine.agent_state := ∅ |}.

(** A conversation that has used its three iterations, and one whose counter
    was overwritten with a string. *)
Definition refined_conversation : CriticRefine.ConversationState :=
  {| CriticRefine.agent_state :=
       {[CriticRefine.ITERATIVE_REFINEMENT_ITERATION_KEY := CriticRefine.VInt 3]} |}.

Definition broken_conversation : CriticRefine.ConversationState :=
  {| CriticRefine.agent_state :=
       {[CriticRefine.ITERATIVE_REFINEMENT_ITERATION_KEY := CriticRefine.VStr "2"]} |}.

(** The tool call arguments of the tests of the conversion, a command with
    and without a [security_risk] entry, and what [json.loads] and
    [json.dumps] give on them; the arguments [null] and text that is not
    JSON. *)
Definition risk_arguments : string :=
  string_of_list_ascii
    (JsonText.t "{" ++ JsonText.q "command" ++ JsonText.t ": " ++ JsonText.q "test"
     ++ JsonText.t ", " ++ JsonText.q "security_risk" ++ JsonText.t ": "
     ++ JsonText.q "LOW" ++ JsonText.t "}").

Definition plain_arguments : string :=
  string_of_list_ascii
    (JsonText.t "{" ++ JsonText.q "command" ++ JsonText.t ": " ++ JsonText.q "test"
     ++ JsonText.t "}").

Definition loads_of_tests (s : string) : pyresult Json.json :=
  if String.eqb s risk_arguments
  then Ok (Json.JObj [("command", Json.JStr "test"); ("security_risk", Json.JStr "LOW")])
  else if String.eqb s plain_arguments
  then Ok (Json.JObj [("command", Json.JStr "test")])
  else if String.eqb s "null" then Ok Json.JNull
  else Raise JSONDecodeError.

Definition dumps_of_tests (v : Json.json) : string :=
  match v with
  | Json.JObj [("command", Json.JStr "test")] => plain_arguments
  | _ => "null"
  end.

(** A history of the tests: the system prompt, a user message with a
    picture, the action of the agent and its observation. *)
Definition grayswan_history : list OpenAIMessages.event :=
  [OpenAIMessages.SystemPromptEvent "You are a helpful assistant.";
   OpenAIMessages.MessageEvent "user"
     [OpenAIMessages.TextContent "Look at this";
      OpenAIMessages.ImageContent ["https://example.com/a.png"]];
   OpenAIMessages.ActionEvent "call_1" "terminal" risk_arguments ["I will run it"];
   OpenAIMessages.ObservationEvent "call_1" [OpenAIMessages.TextContent "done"]].

Definition null_action : OpenAIMessages.event :=
  OpenAIMessages.ActionEvent "call_2" "terminal" "null" [].

Definition plain_action : OpenAIMessages.event :=
  OpenAIMessages.ActionEvent "call_3" "terminal" plain_arguments [].

(** A transport that answers every request with a violation score of 0.1. *)
Definition calm_post (_ : @GraySwan.request OpenAIMessages.message) : GraySwan.http_outcome :=
  GraySwan.Response 200
    (GraySwan.Body (Json.JObj [("violation", Json.JFloat (PyNum.FFin (1 # 10)))])).

(** A profile store with one profile, and the stand-ins for the
    serialization of an [LLM], here its model name. *)
Definition profile_file (name : string) : ProfileStore.str := list_ascii_of_string name.

Definition dump_of_tests (llm : string) (_ : bool) : ProfileStore.str :=
  list_ascii_of_string llm.

Definition parse_of_tests (text : ProfileStore.str) : pyresult string :=
  Ok (string_of_list_ascii text).

Definition mktemp_of_tests (_ : gmap ProfileStore.str ProfileStore.str) : ProfileStore.str :=
  profile_file "tmpk3x9.tmp".

Definition one_profile : ProfileStore.store :=
  {| ProfileStore.files := {[profile_file "default.json" := profile_file "gpt-4-turbo"]};
     ProfileStore.lock_free := true |}.

(** A recording session with a session directory and two events in its
    buffer; the disk accepts every file but those of [/full]. *)
Definition stamp_of_tests (n : nat) : string :=
  String.append "20260101-000000-00000" (String (ascii_of_nat (48 + n mod 10)) "").

Definition disk_of_tests (path : string) : bool := negb (String.prefix "/full" path).

Definition recording_session : @Recording.RecordingSession nat :=
  {| Recording._storage :=
       {| Recording.output_dir := Some "/rec";
          Recording._session_dir := Some "/rec/recording-1";
          Recording._files_written := 0;
          Recording._total_events := 0 |};
     Recording._is_recording := true;
     Recording._events := [1%nat; 2%nat];
     Recording._consecutive_flush_failures := 0 |}.

Definition empty_disk : @Recording.world nat :=
  {| Recording.written := []; Recording.made := []; Recording.clock := 0 |}.

(** The releases of a package as PyPI lists them, and their parsed
    versions. *)
Definition pypi_releases : list string := ["1.9.0"; "1.11.0"; "1.10.0"; "2.0.0"].

Definition parse_of_releases (s : string) : pyresult (Z * Z) :=
  if String.eqb s "1.9.0" then Ok (1, 9)
  else if String.eqb s "1.10.0" then Ok (1, 10)
  else if String.eqb s "1.11.0" then Ok (1, 11)
  else if String.eqb s "2.0.0" then Ok (2, 0)
  else Raise (OtherException "InvalidVersion").

(** * Verification *)

(** ** Order facts on Python numbers *)
Section PyNumFacts.
Import PyNum.

Lemma flt_fle_false (x y : pyfloat) : flt x y = true -> fle y x = false.
Proof.
  destruct x as [|[]|p], y as [|[]|q]; simpl; try discriminate; try reflexivity.
  intros H. now apply negb_true_iff in H.
Qed.

Lemma fle_trans (x y z : pyfloat) : fle x y = true -> fle y z = true -> fle x z = true.
Proof.
  destruct x as [|[]|p], y as [|[]|q], z as [|[]|r]; simpl;
    try discriminate; try reflexivity.
  rewrite !Qle_bool_iff. apply Qle_trans.
Qed.

Lemma flt_fle (x y : pyfloat) : flt x y = true -> fle x y = true.
Proof.
  destruct x as [|[]|p], y as [|[]|q]; simpl; try discriminate; try reflexivity.
  intros H. apply negb_true_iff in H.
  apply Qle_bool_iff, Qlt_le_weak, Qnot_le_lt.
  intros Hle. apply Qle_bool_iff in Hle. congruence.
Qed.

Lemma fle_of_Z (x y : Z) : fle (of_Z x) (of_Z y) = true -> x <= y.
Proof.
  unfold of_Z; simpl. rewrite Qle_bool_iff. intros H. now rewrite Zle_Qle.
Qed.

End PyNumFacts.

(** ** GraySwan: threshold mapping and failure handling *)
Section GraySwanFacts.
Import PyNum Json GraySwan.
Context {event message : Type}.
Variable convert : list event -> pyresult (list message).
Variable post : @request message -> http_outcome.

Lemma unit_score_formats (v : json) (s : pyfloat) :
  number v = Some s -> fle (of_Z 0) s = true -> fle s (of_Z 1) = true ->
  format_2f v = Ok tt.
Proof.
  intros Hv H0 H1. destruct v; simpl in Hv; try discriminate; try reflexivity.
  injection Hv as <-. apply fle_of_Z in H0, H1.
  assert (z = 0 \/ z = 1) as [-> | ->] by lia; reflexivity.
Qed.

Lemma number_not_null (v : json) (s : pyfloat) : number v = Some s -> v <> JNull.
Proof. intros H ->. discriminate. Qed.

Lemma map_low (a : GraySwanAnalyzer) (v : json) (s : pyfloat) :
  number v = Some s -> fle s (low_threshold a) = true ->
  _map_violation_to_risk a v = Ok LOW.
Proof. intros Hv H. unfold _map_violation_to_risk. now rewrite Hv, H. Qed.

Lemma map_medium (a : GraySwanAnalyzer) (v : json) (s : pyfloat) :
  number v = Some s -> flt (low_threshold a) s = true ->
  fle s (medium_threshold a) = true ->
  _map_violation_to_risk a v = Ok MEDIUM.
Proof.
  intros Hv Hlo Hmed. unfold _map_violation_to_risk.
  now rewrite Hv, (flt_fle_false _ _ Hlo), Hmed.
Qed.

Lemma map_high (a : GraySwanAnalyzer) (v : json) (s : pyfloat) :
  validate_thresholds a = Ok a ->
  number v = Some s -> fgt s (medium_threshold a) = true ->
  _map_violation_to_risk a v = Ok HIGH.
Proof.
  intros Hval Hv Hgt. unfold fgt in Hgt. unfold _map_violation_to_risk.
  rewrite Hv, (flt_fle_false _ _ Hgt).
  destruct (fle s (low_threshold a)) eqn:Hlo; [|reflexivity].
  unfold validate_thresholds, fge in Hval.
  rewrite (fle_trans _ _ _ (flt_fle _ _ Hgt) Hlo) in Hval. discriminate.
Qed.

Lemma map_total (a : GraySwanAnalyzer) (v : json) (s : pyfloat) :
  number v = Some s -> exists r, _map_violation_to_risk a v = Ok r.
Proof.
  intros Hv. unfold _map_violation_to_risk. rewrite Hv.
  destruct (fle s (low_threshold a)), (fle s (medium_threshold a)); eauto.
Qed.

(** With an [ipi] flag the risk is HIGH whatever the score. *)
Lemma ipi_forces_high (a : GraySwanAnalyzer) (messages : list message)
    (result v : json) (s : pyfloat) :
  no_api_key a = false ->
  post {| req_url := api_url a; req_messages := messages;
          req_policy_id := policy_id a |} = Response 200 (Body result) ->
  get result "violation" = Ok v ->
  number v = Some s -> fle (of_Z 0) s = true -> fle s (of_Z 1) = true ->
  (exists flag, get result "ipi" = Ok flag /\ truthy flag = true) ->
  _call_grayswan_api post a messages = Ok HIGH.
Proof.
  intros Hkey Hpost Hget Hv H0 H1 (flag & Hipi & Hflag).
  unfold _call_grayswan_api, call_body. rewrite Hkey, Hpost. simpl.
  rewrite Hget. simpl.
  destruct (map_total a v s Hv) as [r Hr].
  rewrite Hr, Hipi, (unit_score_formats v s Hv H0 H1). simpl. rewrite Hflag.
  destruct v; try reflexivity. discriminate.
Qed.

(** Without a flag the result of the call is the mapped score. *)
Lemma call_maps_score (a : GraySwanAnalyzer) (messages : list message)
    (result v flag : json) (s : pyfloat) :
  no_api_key a = false ->
  post {| req_url := api_url a; req_messages := messages;
          req_policy_id := policy_id a |} = Response 200 (Body result) ->
  get result "violation" = Ok v ->
  number v = Some s -> fle (of_Z 0) s = true -> fle s (of_Z 1) = true ->
  get result "ipi" = Ok flag -> truthy flag = false ->
  _call_grayswan_api post a messages = _map_violation_to_risk a v.
Proof.
  intros Hkey Hpost Hget Hv H0 H1 Hipi Hflag.
  unfold _call_grayswan_api, call_body. rewrite Hkey, Hpost. simpl.
  rewrite Hget. simpl.
  destruct (map_total a v s Hv) as [r Hr].
  rewrite Hr, Hipi, (unit_score_formats v s Hv H0 H1). simpl. rewrite Hflag.
  destruct v; try reflexivity. discriminate.
Qed.

(** C4. A violation score in [[0,1]] is mapped through the two thresholds
    of a validated analyzer: a score at most [low_threshold] is LOW, a score
    above it and at most [medium_threshold] is MEDIUM, a score above
    [medium_threshold] is HIGH; a truthy [ipi] in the response makes the
    result of the API call HIGH whatever the score; and an analyzer whose
    [low_threshold] is at least its [medium_threshold] is rejected with a
    [ValueError]. *)
Theorem grayswan_risk_mapping (a : GraySwanAnalyzer) (v : json) (s : pyfloat) :
  validate_thresholds a = Ok a ->
  number v = Some s -> fle (of_Z 0) s = true -> fle s (of_Z 1) = true ->
  (fle s (low_threshold a) = true -> _map_violation_to_risk a v = Ok LOW) /\
  (flt (low_threshold a) s = true -> fle s (medium_threshold a) = true ->
   _map_violation_to_risk a v = Ok MEDIUM) /\
  (fgt s (medium_threshold a) = true -> _map_violation_to_risk a v = Ok HIGH) /\
  (forall messages result,
      no_api_key a = false ->
      post {| req_url := api_url a; req_messages := messages;
              req_policy_id := policy_id a |} = Response 200 (Body result) ->
      get result "violation" = Ok v ->
      (forall flag, get result "ipi" = Ok flag -> truthy flag = true ->
                    _call_grayswan_api post a messages = Ok HIGH) /\
      (forall flag, get result "ipi" = Ok flag -> truthy flag = false ->
                    _call_grayswan_api post a messages
                    = _map_violation_to_risk a v)) /\
  (forall a' : GraySwanAnalyzer,
      fge (low_threshold a') (medium_threshold a') = true ->
      exists msg, validate_thresholds a' = Raise (ValueError msg)).
Proof.
  intros Hval Hv H0 H1. repeat split.
  - now apply map_low.
  - now apply map_medium.
  - now apply map_high.
  - intros flag Hipi Hflag. eapply ipi_forces_high; eauto.
  - intros flag Hipi Hflag. eapply call_maps_score; eauto.
  - intros a' Hge. unfold validate_thresholds. rewrite Hge. eauto.
Qed.

Lemma call_no_score (a : GraySwanAnalyzer) (messages : list message) :
  no_score (post {| req_url := api_url a; req_messages := messages;
                    req_policy_id := policy_id a |}) = true ->
  _call_grayswan_api post a messages = Ok UNKNOWN.
Proof.
  intros H. unfold _call_grayswan_api, call_body.
  destruct (no_api_key a); [reflexivity|].
  destruct (post _) as [|e|code content]; simpl in *; try reflexivity.
  destruct (code =? 200); [|reflexivity].
  destruct content as [|e|result]; try reflexivity.
  destruct (get result "violation") as [[]|e]; simpl; try reflexivity; discriminate.
Qed.

Lemma call_never_raises (a : GraySwanAnalyzer) (messages : list message) :
  exists r, _call_grayswan_api post a messages = Ok r.
Proof. unfold _call_grayswan_api. destruct (no_api_key a); eauto. Qed.

(** C5. [security_risk] never raises, and it answers UNKNOWN whenever the
    exchange yields no score: the transport timed out or raised, the status
    is not 200, the body is not JSON, or the JSON has no [violation]. *)
Theorem grayswan_failure_unknown (a : GraySwanAnalyzer) (_events : list event)
    (action : event) :
  (exists r, security_risk convert post a _events action = Ok r) /\
  ((forall req, no_score (post req) = true) ->
   security_risk convert post a _events action = Ok UNKNOWN) /\
  (forall messages,
      no_score (post {| req_url := api_url a; req_messages := messages;
                        req_policy_id := policy_id a |}) = true ->
      _call_grayswan_api post a messages = Ok UNKNOWN).
Proof.
  split; [|split].
  - unfold security_risk. destruct (no_api_key a); eauto.
  - intros Hpost. unfold security_risk. destruct (no_api_key a); [reflexivity|].
    f_equal. set (evs := _ ++ [action]).
    destruct (convert evs) as [[|m msgs]|e]; simpl; try reflexivity.
    now rewrite call_no_score.
  - intros messages. apply call_no_score.
Qed.

End GraySwanFacts.

Example default_threshold_boundaries :
  GraySwan._map_violation_to_risk default_analyzer (Json.JFloat (PyNum.FFin (3 # 10)))
  = Ok GraySwan.LOW /\
  GraySwan._map_violation_to_risk default_analyzer (Json.JFloat (PyNum.FFin (7 # 10)))
  = Ok GraySwan.MEDIUM /\
  GraySwan._map_violation_to_risk default_analyzer (Json.JFloat (PyNum.FFin (71 # 100)))
  = Ok GraySwan.HIGH /\
  GraySwan._map_violation_to_risk default_analyzer (Json.JInt 1) = Ok GraySwan.HIGH /\
  GraySwan._map_violation_to_risk default_analyzer (Json.JStr "0.5") = Raise TypeError.
Proof. repeat split. Qed.

Example ipi_escalates_low_score :
  GraySwan._call_grayswan_api (message := unit)
    (fun _ => GraySwan.Response 200
                (GraySwan.Body (Json.JObj [("violation", Json.JFloat (PyNum.FFin (1 # 10)));
                                           ("ipi", Json.JBool true)])))
    default_analyzer [tt]
  = Ok GraySwan.HIGH.
Proof. reflexivity. Qed.

Lemma grayswan_risk_mapping_witness :
  GraySwan._map_violation_to_risk default_analyzer (Json.JFloat (PyNum.FFin (1 # 2)))
  = Ok GraySwan.MEDIUM.
Proof.
  refine (proj1 (proj2 (grayswan_risk_mapping (message := unit)
            (fun _ => GraySwan.PostTimeout) default_analyzer
            (Json.JFloat (PyNum.FFin (1 # 2))) (PyNum.FFin (1 # 2)) _ _ _ _)) _ _);
    reflexivity.
Defined.

Lemma grayswan_failure_unknown_witness :
  GraySwan.security_risk (event := unit) (message := unit)
    (fun evs => Ok evs) (fun _ => GraySwan.Response 503 GraySwan.NotJson)
    default_analyzer [] tt = Ok GraySwan.UNKNOWN.
Proof.
  refine (proj1 (proj2 (grayswan_failure_unknown _ _ default_analyzer [] tt)) _).
  intros req. reflexivity.
Defined.

(** ** The system prompt message *)
Section SystemPromptFacts.
Import SystemPrompt.
Context {ToolDefinition : Type}.

(** C6. A system prompt event converts to one message of role [system].
    Without dynamic context its content is the static prompt alone; with a
    dynamic context it is the static prompt followed by the dynamic context.
    The blocks are the event's own, so no cache marker is added: each block
    of the message carries the marker its field had, and a dynamic context
    that was not marked is not marked in the message. *)
Theorem system_prompt_message (self : SystemPromptEvent ToolDefinition) :
  role (to_llm_message self) = system /\
  (dynamic_context self = None ->
   content (to_llm_message self) = [system_prompt self]) /\
  (forall dc, dynamic_context self = Some dc ->
     content (to_llm_message self) = [system_prompt self; dc] /\
     (cache_prompt dc = false ->
      cache_prompt <$> content (to_llm_message self) !! 1%nat = Some false)) /\
  cache_prompt <$> content (to_llm_message self) !! 0%nat
  = Some (cache_prompt (system_prompt self)).
Proof.
  unfold to_llm_message.
  destruct (dynamic_context self) as [dc|]; simpl.
  - split; [reflexivity|]. split; [discriminate|]. split; [|reflexivity].
    intros dc' [= <-]. split; [reflexivity|]. intros H. simpl. now rewrite H.
  - split; [reflexivity|]. split; [reflexivity|]. split; [discriminate|reflexivity].
Qed.

End SystemPromptFacts.

(** ** Iterative refinement *)
Section CriticFacts.
Import CriticRefine.

Lemma check_outcomes (critic : option CriticBase) (state : ConversationState)
    (action_event : ActionEvent) (i : Z) :
  iteration_of state = Some i ->
  let out := _check_iterative_refinement critic state action_event in
  (exists config cr c,
      critic = Some c /\ iterative_refinement c = Some config /\
      critic_result action_event = Some cr /\
      i < max_iterations config /\ (score cr < success_threshold config)%Q /\
      out = (Ok (true, Some (get_followup_prompt c cr (i + 1))),
             {| agent_state := <[ITERATIVE_REFINEMENT_ITERATION_KEY := VInt (i + 1)]>
                                 (agent_state state) |}))
  \/
  ((critic = None \/
    (exists c, critic = Some c /\ iterative_refinement c = None) \/
    (exists c config, critic = Some c /\ iterative_refinement c = Some config /\
       (max_iterations config <= i \/ critic_result action_event = None \/
        exists cr, critic_result action_event = Some cr /\
                   (success_threshold config <= score cr)%Q))) /\
   out = (Ok (false, None), state)).
Proof.
  intros Hi out. subst out. unfold _check_iterative_refinement.
  destruct critic as [c|]; [|right; eauto].
  destruct (iterative_refinement c) as [config|] eqn:Hcfg; [|right; eauto 6].
  assert (as_int (default (VInt 0)
            (agent_state state !! ITERATIVE_REFINEMENT_ITERATION_KEY)) = Ok i) as ->.
  { unfold iteration_of in Hi.
    destruct (agent_state state !! ITERATIVE_REFINEMENT_ITERATION_KEY) as [[]|];
      simpl in *; congruence. }
  destruct (Z.geb_spec i (max_iterations config)) as [Hmax|Hmax].
  { right. split; [|reflexivity]. right; right. exists c, config. intuition lia. }
  destruct (critic_result action_event) as [cr|] eqn:Hcr.
  2:{ right. split; [|reflexivity]. right; right. exists c, config. intuition. }
  destruct (Qle_bool (success_threshold config) (score cr)) eqn:Hsc.
  { right. split; [|reflexivity]. right; right. exists c, config.
    apply Qle_bool_iff in Hsc. intuition eauto. }
  left. exists config, cr, c.
  split; [reflexivity|]. split; [exact Hcfg|]. split; [reflexivity|].
  split; [lia|]. split; [|reflexivity].
  apply Qnot_le_lt. intros Hle. apply Qle_bool_iff in Hle. congruence.
Qed.

(** C2. With an integer counter in [agent_state] (absent counts as 0),
    [_check_iterative_refinement] returns without raising; it returns
    [should_continue = True] exactly when a refinement configuration and a
    critic result are present, the score is strictly below
    [success_threshold] and the counter is strictly below [max_iterations];
    in that case [agent_state] is replaced by the map with the counter
    incremented by one, and in every other case the result is [False] and
    [agent_state] is unchanged. *)
Theorem refinement_counter (critic : option CriticBase) (state : ConversationState)
    (action_event : ActionEvent) (i : Z) :
  iteration_of state = Some i ->
  exists (should_continue : bool) (followup : option string) (state' : ConversationState),
    _check_iterative_refinement critic state action_event
    = (Ok (should_continue, followup), state') /\
    (should_continue = true <->
     exists c config cr,
       critic = Some c /\ iterative_refinement c = Some config /\
       critic_result action_event = Some cr /\
       (score cr < success_threshold config)%Q /\ i < max_iterations config) /\
    (should_continue = true ->
     agent_state state'
     = <[ITERATIVE_REFINEMENT_ITERATION_KEY := VInt (i + 1)]> (agent_state state) /\
     iteration_of state' = Some (i + 1)) /\
    (should_continue = false -> state' = state /\ followup = None).
Proof.
  intros Hi.
  destruct (check_outcomes critic state action_event i Hi)
    as [(config & cr & c & -> & Hcfg & Hcr & Hmax & Hsc & Hout) | [Hwhy Hout]];
    cbv zeta in Hout; rewrite Hout.
  - eexists true, _, _. split; [reflexivity|]. repeat split; try discriminate.
    + intros _. exists c, config, cr. auto.
    + unfold iteration_of. simpl. now rewrite lookup_insert_eq.
  - exists false, None, state. split; [reflexivity|]. repeat split; try discriminate.
    intros (c & config & cr & -> & Hcfg & Hcr & Hsc & Hmax). exfalso.
    destruct Hwhy as [? | [(c' & [= <-] & ?) | (c' & config' & [= <-] & Hcfg' & Hwhy)]];
      try congruence.
    rewrite Hcfg in Hcfg'. injection Hcfg' as <-.
    destruct Hwhy as [? | [? | (cr' & Hcr' & Hle)]]; try lia; try congruence.
    rewrite Hcr in Hcr'. injection Hcr' as <-.
    exact (Qlt_not_le _ _ Hsc Hle).
Qed.

End CriticFacts.

Lemma refinement_counter_witness :
  exists should_continue followup state',
    CriticRefine._check_iterative_refinement (Some test_critic)
      {| CriticRefine.agent_state := ∅ |}
      {| CriticRefine.critic_result :=
           Some {| CriticRefine.score := 3 # 10; CriticRefine.message := None |} |}
    = (Ok (should_continue, followup), state') /\
    CriticRefine.iteration_of state' = Some 1.
Proof.
  destruct (refinement_counter (Some test_critic)
              {| CriticRefine.agent_state := ∅ |}
              {| CriticRefine.critic_result :=
                   Some {| CriticRefine.score := 3 # 10; CriticRefine.message := None |} |}
              0 ltac:(unfold CriticRefine.iteration_of; simpl;
                      rewrite lookup_empty; reflexivity))
    as (b & f & st & Heq & Hiff & Hinc & _).
  exists b, f, st. split; [exact Heq|].
  apply Hinc, Hiff. do 3 eexists. repeat split; reflexivity.
Defined.

(** ** The LLM registry *)
Section RegistryFacts.
Import Registry.
Variable alloc : gset loc -> loc.
Hypothesis alloc_fresh : forall live : gset loc, alloc live ∉ live.

Lemma elem_of_live_metrics (h : gmap loc LLM) (m : loc) :
  m ∈ live_metrics h <-> exists l o, h !! l = Some o /\ _metrics o = Some m.
Proof.
  unfold live_metrics. rewrite elem_of_list_to_set, list_elem_of_omap. split.
  - intros ([l o] & Hin & Hm). apply elem_of_map_to_list in Hin. eauto.
  - intros (l & o & Hl & Hm). exists (l, o). split; [|exact Hm].
    now apply elem_of_map_to_list.
Qed.

Lemma metrics_of_Some (w : world) (u : string) (m : loc) :
  metrics_of w u = Some m <->
  exists l o, _usage_to_llm (registry w) !! u = Some l /\ heap w !! l = Some o /\
              _metrics o = Some m.
Proof.
  unfold metrics_of. split.
  - destruct (_usage_to_llm (registry w) !! u) as [l|]; simpl; [|discriminate].
    destruct (heap w !! l) as [o|] eqn:Hl; simpl; [|discriminate].
    intros H. exists l, o. auto.
  - intros (l & o & -> & Hl & Hm). simpl. rewrite Hl. exact Hm.
Qed.

Lemma new_registry_inv (h : gmap loc LLM) (subscribed : bool) :
  registry_inv (new_registry h subscribed).
Proof.
  split; [|split]; simpl.
  - intros u l H. now rewrite lookup_empty in H.
  - intros m H. now apply not_elem_of_empty in H.
  - intros u1 u2 m H. apply metrics_of_Some in H as (l & o & H & _).
    simpl in H. now rewrite lookup_empty in H.
Qed.

(** An instance whose usage id is not registered is not registered. *)
Lemma unregistered_object (w : world) (llm : loc) (o : LLM) :
  registry_inv w -> heap w !! llm = Some o ->
  _usage_to_llm (registry w) !! usage_id o = None ->
  forall u, _usage_to_llm (registry w) !! u <> Some llm.
Proof.
  intros (I1 & _) Ho Hfree u Hu.
  destruct (I1 u llm Hu) as (o' & m & Ho' & <- & _).
  rewrite Ho in Ho'. injection Ho' as <-. congruence.
Qed.

(** Tracked metrics objects stay alive when an unregistered instance drops
    or replaces its own. *)
Lemma tracked_live (w : world) (llm : loc) (o : LLM) (x : option loc) (m : loc) :
  registry_inv w -> heap w !! llm = Some o ->
  _usage_to_llm (registry w) !! usage_id o = None ->
  m ∈ _metrics_ids (registry w) ->
  m ∈ live_metrics (heap (set_metrics w llm x)).
Proof.
  intros Hinv Ho Hfree Hm. pose proof Hinv as (_ & I2 & _).
  destruct (I2 m Hm) as (u & l & o' & Hu & Hl & Hmo').
  apply elem_of_live_metrics. exists l, o'. split; [|exact Hmo'].
  simpl. rewrite lookup_alter_ne; [exact Hl|].
  intros <-. exact (unregistered_object w llm o Hinv Ho Hfree u Hu).
Qed.

Lemma tracked_live_now (w : world) (m : loc) :
  registry_inv w -> m ∈ _metrics_ids (registry w) -> m ∈ live_metrics (heap w).
Proof.
  intros (_ & I2 & _) Hm. destruct (I2 m Hm) as (u & l & o & _ & Hl & Hmo).
  apply elem_of_live_metrics. eauto.
Qed.

(** The effect of an [add] that passes the usage-id check. *)
Lemma add_success (w : world) (llm : loc) (o : LLM) :
  registry_inv w -> heap w !! llm = Some o ->
  _usage_to_llm (registry w) !! usage_id o = None ->
  exists m' w',
    add alloc w llm = (Ok tt, w') /\
    heap w' !! llm = Some {| usage_id := usage_id o; _metrics := Some m' |} /\
    (forall l, l <> llm -> heap w' !! l = heap w !! l) /\
    _usage_to_llm (registry w') = (<[usage_id o := llm]> (_usage_to_llm (registry w))) /\
    _metrics_ids (registry w') = ({[m']} ∪ _metrics_ids (registry w)) /\
    (m' ∉ _metrics_ids (registry w)) /\
    (_metrics o = Some m' \/ m' ∉ live_metrics (heap w)) /\
    (forall m, _metrics o = Some m -> m ∈ _metrics_ids (registry w) ->
               m' ∉ live_metrics (heap w)) /\
    subscriber (registry w') = subscriber (registry w) /\
    delivered w' = delivered w ++ (if subscriber (registry w) then [llm] else []).
Proof.
  intros Hinv Ho Hfree.
  unfold add, deref. rewrite Ho.
  destruct (decide (is_Some _)) as [[x Hx]|_]; [congruence|].
  unfold _ensure_independent_metrics, metrics at 1, deref. rewrite Ho.
  destruct (_metrics o) as [m|] eqn:Hm.
  - destruct (decide (m ∈ _metrics_ids (registry w))) as [Hin|Hnin].
    + (* shared: reset, then a fresh object *)
      unfold reset_metrics, metrics, deref. simpl.
      rewrite lookup_alter_eq, Ho. simpl.
      set (m' := alloc (live_metrics (alter _ llm (heap w)))).
      assert (Hfresh : m' ∉ live_metrics (heap (set_metrics w llm None)))
        by apply alloc_fresh.
      exists m'. eexists. split; [reflexivity|].
      unfold notify, register, track; simpl.
      split. { destruct (subscriber (registry w)); simpl;
               now rewrite !lookup_alter_eq, Ho. }
      split. { intros l Hl. destruct (subscriber (registry w)); simpl;
               now rewrite !lookup_alter_ne by congruence. }
      split. { now destruct (subscriber (registry w)). }
      split. { now destruct (subscriber (registry w)). }
      assert (Hlive : m' ∉ live_metrics (heap w)).
      { intros Hl. apply Hfresh. apply elem_of_live_metrics in Hl as (l & o' & Hl & Hmo').
        destruct (decide (l = llm)) as [->|Hne].
        - rewrite Ho in Hl. injection Hl as <-. rewrite Hm in Hmo'. injection Hmo' as <-.
          now apply (tracked_live w llm o).
        - apply elem_of_live_metrics. exists l, o'. split; [|exact Hmo'].
          simpl. now rewrite lookup_alter_ne by congruence. }
      split. { intros Hin'. apply Hfresh. now apply (tracked_live w llm o). }
      split. { now right. }
      split. { intros _ _ _. exact Hlive. }
      destruct (subscriber (registry w)); simpl; rewrite ?app_nil_r; split; reflexivity.
    + (* its own metrics object, not tracked yet *)
      exists m. eexists. split; [reflexivity|].
      unfold notify, register, track; simpl.
      split. { destruct (subscriber (registry w)); simpl; rewrite Ho;
               destruct o; simpl in *; now subst. }
      split. { intros l _. now destruct (subscriber (registry w)). }
      split. { now destruct (subscriber (registry w)). }
      split. { now destruct (subscriber (registry w)). }
      split. { exact Hnin. }
      split. { now left. }
      split. { intros m0 [= <-] Hin. contradiction. }
      destruct (subscriber (registry w)); simpl; rewrite ?app_nil_r; split; reflexivity.
  - (* no metrics object yet: created on access *)
    set (m' := alloc (live_metrics (heap w))).
    assert (Hfresh : m' ∉ live_metrics (heap w)) by apply alloc_fresh.
    assert (Hnin : m' ∉ _metrics_ids (registry w)).
    { intros Hin. apply Hfresh. now apply tracked_live_now. }
    simpl. destruct (decide (m' ∈ _metrics_ids (registry w))) as [Hin|_];
      [contradiction|].
    exists m'. eexists. split; [reflexivity|].
    unfold notify, register, track; simpl.
    split. { destruct (subscriber (registry w)); simpl;
             now rewrite lookup_alter_eq, Ho. }
    split. { intros l Hl. destruct (subscriber (registry w)); simpl;
             now rewrite lookup_alter_ne by congruence. }
    split. { now destruct (subscriber (registry w)). }
    split. { now destruct (subscriber (registry w)). }
    split. { exact Hnin. }
    split. { now right. }
    split. { intros m0 [=]. }
    destruct (subscriber (registry w)); simpl; rewrite ?app_nil_r; split; reflexivity.
Qed.

Lemma add_inv (w : world) (llm : loc) :
  registry_inv w -> registry_inv (snd (add alloc w llm)).
Proof.
  intros Hinv.
  destruct (heap w !! llm) as [o|] eqn:Ho.
  2:{ unfold add, deref. now rewrite Ho. }
  destruct (_usage_to_llm (registry w) !! usage_id o) as [l0|] eqn:Hfree.
  { unfold add, deref. rewrite Ho.
    destruct (decide (is_Some _)) as [_|Hn]; [exact Hinv|].
    exfalso. apply Hn. rewrite Hfree. eauto. }
  destruct (add_success w llm o Hinv Ho Hfree)
    as (m' & w' & -> & Hllm & Hother & Hreg & Hids & Hnew & _).
  simpl. pose proof Hinv as (I1 & I2 & I3).
  assert (Hold : forall u l, _usage_to_llm (registry w) !! u = Some l ->
                 heap w' !! l = heap w !! l).
  { intros u l Hu. apply Hother. intros ->.
    exact (unregistered_object w llm o Hinv Ho Hfree u Hu). }
  assert (Hkeep : forall u m, u <> usage_id o ->
                  metrics_of w' u = Some m -> metrics_of w u = Some m).
  { intros u m Hne. rewrite !metrics_of_Some. intros (l & o' & Hu & Hl & Hm).
    rewrite Hreg, lookup_insert_ne in Hu by congruence.
    rewrite (Hold u l Hu) in Hl. eauto. }
  assert (Hmine : forall m, metrics_of w' (usage_id o) = Some m -> m = m').
  { intros m. rewrite metrics_of_Some. intros (l & o' & Hu & Hl & Hm).
    rewrite Hreg, lookup_insert_eq in Hu. injection Hu as <-.
    rewrite Hllm in Hl. injection Hl as <-. simpl in Hm. congruence. }
  assert (Htracked : forall u m, metrics_of w u = Some m -> m ∈ _metrics_ids (registry w)).
  { intros u m. rewrite metrics_of_Some. intros (l & o' & Hu & Hl & Hm).
    destruct (I1 u l Hu) as (o'' & m'' & Hl' & _ & Hm' & Hin). congruence. }
  split; [|split].
  - intros u l Hu. rewrite Hreg in Hu.
    destruct (decide (u = usage_id o)) as [->|Hne].
    + rewrite lookup_insert_eq in Hu. injection Hu as <-.
      eexists _, m'. split; [exact Hllm|]. split; [reflexivity|]. split; [reflexivity|].
      rewrite Hids. apply elem_of_union_l. now apply elem_of_singleton.
    + rewrite lookup_insert_ne in Hu by congruence.
      destruct (I1 u l Hu) as (o' & m & Hl & Hid & Hm & Hin).
      exists o', m. rewrite (Hold u l Hu), Hids.
      repeat split; try assumption. now apply elem_of_union_r.
  - intros m Hin. rewrite Hids in Hin. apply elem_of_union in Hin as [Hin|Hin].
    + apply elem_of_singleton in Hin as ->.
      eexists (usage_id o), llm, _. rewrite Hreg, lookup_insert_eq. eauto.
    + destruct (I2 m Hin) as (u & l & o' & Hu & Hl & Hm).
      exists u, l, o'. rewrite Hreg, lookup_insert_ne by congruence.
      rewrite (Hold u l Hu). auto.
  - intros u1 u2 m H1 H2.
    destruct (decide (u1 = usage_id o)) as [->|Hne1],
             (decide (u2 = usage_id o)) as [->|Hne2]; [reflexivity| | |].
    + apply Hmine in H1 as ->. apply Hkeep, Htracked in H2; [contradiction|done].
    + apply Hmine in H2 as ->. apply Hkeep, Htracked in H1; [contradiction|done].
    + eapply I3; eauto.
Qed.

Lemma add_all_inv (w : world) (llms : list loc) :
  registry_inv w -> registry_inv (add_all alloc w llms).
Proof.
  revert w. induction llms as [|llm llms IH]; intros w Hinv; [exact Hinv|].
  simpl. apply IH, add_inv, Hinv.
Qed.

(** C8. Whatever instances are added to a new registry, and in whatever
    order, the registered instances have pairwise distinct metrics objects
    (each has one); and adding an instance whose metrics object is one
    already tracked succeeds after giving the instance a fresh metrics
    object, one that no instance referred to. *)
Theorem registry_metrics_independent (h : gmap loc LLM) (subscribed : bool)
    (llms : list loc) :
  let w := add_all alloc (new_registry h subscribed) llms in
  (forall u1 u2 m, metrics_of w u1 = Some m -> metrics_of w u2 = Some m -> u1 = u2) /\
  (forall u l, _usage_to_llm (registry w) !! u = Some l -> is_Some (metrics_of w u)) /\
  (forall llm o m,
      heap w !! llm = Some o ->
      _usage_to_llm (registry w) !! usage_id o = None ->
      _metrics o = Some m -> m ∈ _metrics_ids (registry w) ->
      exists m' w',
        add alloc w llm = (Ok tt, w') /\
        get w' (usage_id o) = Ok llm /\
        metrics_of w' (usage_id o) = Some m' /\
        m' <> m /\ (m' ∉ live_metrics (heap w)) /\
        m' ∉ _metrics_ids (registry w)).
Proof.
  intros w.
  assert (Hinv : registry_inv w) by apply add_all_inv, new_registry_inv.
  pose proof Hinv as (I1 & I2 & I3).
  split; [exact I3|]. split.
  - intros u l Hu. destruct (I1 u l Hu) as (o & m & Hl & _ & Hm & _).
    exists m. apply metrics_of_Some. eauto.
  - intros llm o m Ho Hfree Hm Hin.
    destruct (add_success w llm o Hinv Ho Hfree)
      as (m' & w' & Hadd & Hllm & _ & Hreg & _ & Hnew & _ & Hfresh & _).
    exists m', w'. split; [exact Hadd|].
    split. { unfold get. now rewrite Hreg, lookup_insert_eq. }
    split. { apply metrics_of_Some. eexists llm, _.
             rewrite Hreg, lookup_insert_eq. eauto. }
    split. { intros ->. contradiction. }
    split; [|exact Hnew]. exact (Hfresh m Hm Hin).
Qed.

(** C10. [add] of an instance whose usage id is registered raises
    [ValueError] and changes nothing: the mapping, the tracked metrics
    identities, the instances themselves and the events delivered to the
    subscriber are as before, and [get] still returns the instance that was
    registered. *)
Theorem add_registered_usage_id (w : world) (llm : loc) (o : LLM) :
  heap w !! llm = Some o ->
  is_Some (_usage_to_llm (registry w) !! usage_id o) ->
  exists msg w',
    add alloc w llm = (Raise (ValueError msg), w') /\
    _usage_to_llm (registry w') = _usage_to_llm (registry w) /\
    _metrics_ids (registry w') = _metrics_ids (registry w) /\
    heap w' = heap w /\
    delivered w' = delivered w /\
    get w' (usage_id o) = get w (usage_id o) /\
    w' = w.
Proof.
  intros Ho Hreg. unfold add, deref. rewrite Ho.
  destruct (decide (is_Some _)) as [_|Hn]; [|contradiction].
  eexists _, w. repeat split; reflexivity.
Qed.

End RegistryFacts.

Example shared_metrics_are_reset :
  let w := Registry.add_all fresh (Registry.new_registry shared_heap true)
             [1%positive; 2%positive] in
  Registry.metrics_of w "agent" = Some 5%positive /\
  Registry.metrics_of w "condenser" = Some 6%positive /\
  Registry.delivered w = [1%positive; 2%positive].
Proof. vm_compute. repeat split. Qed.

Lemma registry_metrics_independent_witness :
  is_Some (Registry.metrics_of
             (Registry.add_all fresh (Registry.new_registry shared_heap true)
                [1%positive; 2%positive]) "condenser").
Proof.
  exact (proj1 (proj2 (registry_metrics_independent fresh is_fresh shared_heap true
                         [1%positive; 2%positive]))
           "condenser" 2%positive ltac:(vm_compute; reflexivity)).
Defined.

Lemma add_registered_usage_id_witness :
  exists msg w',
    Registry.add fresh
      (Registry.add_all fresh (Registry.new_registry shared_heap true) [1%positive])
      1%positive = (Raise (ValueError msg), w') /\
    Registry.delivered w' = [1%positive].
Proof.
  destruct (add_registered_usage_id fresh
              (Registry.add_all fresh (Registry.new_registry shared_heap true) [1%positive])
              1%positive
              {| Registry.usage_id := "agent"; Registry._metrics := Some 5%positive |}
              ltac:(vm_compute; reflexivity)
              ltac:(exists 1%positive; vm_compute; reflexivity))
    as (msg & w' & Hadd & _ & _ & _ & Hdel & _).
  exists msg, w'. split; [exact Hadd|]. rewrite Hdel. vm_compute. reflexivity.
Defined.

(** ** Autosave of the conversation state *)
Section AutosaveFacts.
Import Json Autosave.

Lemma new_dict_lookup (w : world) (content : gmap string json) :
  dicts (snd (new_dict w content)) !! fst (new_dict w content) = Some content /\
  dicts w !! fst (new_dict w content) = None.
Proof.
  unfold new_dict. simpl. split; [apply lookup_insert_eq|].
  apply not_elem_of_dom, is_fresh.
Qed.

Lemma assign_effect (w : world) (content : gmap string json) :
  _autosave_enabled (state w) = true -> _fs (state w) = true ->
  writes (assign w content) = writes w ++ [(BASE_STATE, content)] /\
  files (assign w content) !! BASE_STATE = Some content /\
  agent_state_dict (assign w content) = content.
Proof.
  intros Hauto Hfs. unfold assign, new_dict, setattr_agent_state. simpl.
  rewrite Hauto, Hfs. unfold _save_base_state, agent_state_dict. simpl.
  rewrite !lookup_insert_eq. simpl. split; [reflexivity|]. split; reflexivity.
Qed.

(** C9. With autosave enabled and a file store attached, assigning a map
    to [agent_state] appends exactly one write, of base_state.json holding
    the new map, to the writes of the file store; this holds in particular
    for the reassignment [{**agent_state, key: value}].  Setting an item of
    the [agent_state] dictionary in place leaves the writes and the files
    untouched although the value read back from memory is the new one. *)
Theorem autosave_on_reassignment (w : world) :
  _autosave_enabled (state w) = true -> _fs (state w) = true ->
  is_Some (dicts w !! agent_state (state w)) ->
  (forall content,
      writes (assign w content) = writes w ++ [(BASE_STATE, content)] /\
      files (assign w content) !! BASE_STATE = Some content /\
      agent_state_dict (assign w content) = content) /\
  (forall key value,
      writes (reassign w key value)
      = writes w ++ [(BASE_STATE, <[key := value]> (agent_state_dict w))] /\
      get (reassign w key value) key = Some value) /\
  (forall key value,
      writes (setitem w key value) = writes w /\
      files (setitem w key value) = files w /\
      get (setitem w key value) key = Some value).
Proof.
  intros Hauto Hfs [d Hd]. split; [|split].
  - intros content. now apply assign_effect.
  - intros key value.
    destruct (assign_effect w (<[key := value]> (agent_state_dict w)) Hauto Hfs)
      as (Hw & _ & Hdict).
    change (reassign w key value) with (assign w (<[key := value]> (agent_state_dict w))).
    split; [exact Hw|]. unfold get. rewrite Hdict. apply lookup_insert_eq.
  - intros key value. split; [reflexivity|]. split; [reflexivity|].
    unfold get, agent_state_dict, setitem. simpl.
    rewrite lookup_alter_eq, Hd. simpl. apply lookup_insert_eq.
Qed.

End AutosaveFacts.

Lemma autosave_on_reassignment_witness :
  length (Autosave.writes
            (Autosave.reassign autosaving_world "test_key" (Json.JStr "test_value"))) = 1%nat /\
  Autosave.writes (Autosave.setitem autosaving_world "test_key" (Json.JStr "test_value")) = [] /\
  Autosave.get (Autosave.setitem autosaving_world "test_key" (Json.JStr "test_value"))
    "test_key" = Some (Json.JStr "test_value").
Proof.
  destruct (autosave_on_reassignment autosaving_world eq_refl eq_refl
              ltac:(exists ∅; vm_compute; reflexivity)) as (_ & Hre & Hset).
  destruct (Hre "test_key" (Json.JStr "test_value")) as [Hw _].
  destruct (Hset "test_key" (Json.JStr "test_value")) as (Hw' & _ & Hget).
  split; [now rewrite Hw|]. split; [exact Hw'|exact Hget].
Defined.

(** ** Polling the events of a remote command *)
Section PollingFacts.
Import RemoteWorkspace.
Variable clock : nat -> Q.

Lemma str_app_nil_r (s : string) : (s ++ "")%string = s.
Proof.
  induction s as [|c s IH]; [reflexivity|].
  change (String c (s ++ "")%string = String c s). now rewrite IH.
Qed.

Lemma str_app_assoc (a b c : string) :
  ((a ++ b) ++ c)%string = (a ++ (b ++ c))%string.
Proof.
  induction a as [|x a IH]; [reflexivity|].
  change (String x ((a ++ b) ++ c)%string = String x (a ++ (b ++ c))%string).
  now rewrite IH.
Qed.

Lemma join_app (l1 l2 : list string) : join (l1 ++ l2) = (join l1 ++ join l2)%string.
Proof.
  induction l1 as [|s l1 IH]; [reflexivity|].
  change (s ++ join (l1 ++ l2) = (s ++ join l1) ++ join l2)%string.
  now rewrite IH, str_app_assoc.
Qed.

Lemma join_append_truthy (parts : list string) (x : option string) :
  join (append_truthy parts x)
  = (join parts ++ match x with Some s => s | None => "" end)%string.
Proof.
  destruct x as [s|]; simpl; [|now rewrite str_app_nil_r].
  destruct (String.eqb_spec s "") as [->|_]; [now rewrite str_app_nil_r|].
  rewrite join_app. change (join [s]) with (s ++ "")%string.
  now rewrite str_app_nil_r.
Qed.

(** An item that is delivered again fails the assertion. *)
Lemma process_event_duplicate (st : poll_state) (ev : bash_event) (o : Z) :
  ev_kind ev = "BashOutput" -> ev_order ev = Some o -> o <= last_order st ->
  exists msg, process_event st ev = Raise (AssertionError msg).
Proof.
  intros Hk Ho Hle. unfold process_event. rewrite Hk, Ho. simpl.
  destruct (Z.leb_spec o (last_order st)); [eauto|lia].
Qed.

Lemma process_events_app (st : poll_state) (evs1 evs2 : list bash_event) :
  process_events st (evs1 ++ evs2)
  = st' ← process_events st evs1; process_events st' evs2.
Proof.
  revert st. induction evs1 as [|ev evs1 IH]; intros st; simpl; [reflexivity|].
  destruct (process_event st ev) as [st'|e]; simpl; [apply IH|reflexivity].
Qed.

(** Items with increasing orders are all accepted, their chunks collected
    in order, and the last order seen is recorded. *)
Lemma process_events_increasing (st : poll_state) (evs : list bash_event) :
  increasing_orders (last_order st) evs ->
  exists st',
    process_events st evs = Ok st' /\
    join (stdout_parts st') = (join (stdout_parts st) ++ join (chunks evs))%string /\
    last_order st <= last_order st' /\
    (forall rest, increasing_orders (last_order st) (evs ++ rest) ->
                  increasing_orders (last_order st') rest).
Proof.
  pose proof str_app_nil_r as Hnil. pose proof str_app_assoc as Hassoc.
  revert st. induction evs as [|ev evs IH]; intros st Hinc.
  { exists st. simpl. rewrite Hnil. repeat split; auto; lia. }
  simpl in Hinc |- *. unfold process_event, chunks. simpl.
  fold (chunks evs).
  destruct (String.eqb (ev_kind ev) "BashOutput") eqn:Hk.
  2:{ simpl. destruct (IH st Hinc) as (st' & -> & Hj & Hlo & Hrest).
      exists st'. repeat split; auto. }
  destruct (ev_order ev) as [o|] eqn:Ho.
  - destruct Hinc as [Hlt Hinc].
    destruct (Z.leb_spec o (last_order st)); [lia|]. simpl.
    match goal with |- context [process_events ?s evs] => set (st1 := s) end.
    destruct (IH st1 Hinc) as (st' & -> & Hj & Hlo & Hrest).
    exists st'. split; [reflexivity|]. split.
    { rewrite Hj. subst st1. simpl. rewrite join_append_truthy, join_app, Hassoc.
      f_equal. f_equal. destruct (ev_stdout ev); simpl; now rewrite ?Hnil. }
    split; [subst st1; simpl in *; lia|].
    intros rest [_ Hr]. now apply Hrest.
  - simpl.
    match goal with |- context [process_events ?s evs] => set (st1 := s) end.
    destruct (IH st1 Hinc) as (st' & -> & Hj & Hlo & Hrest).
    exists st'. split; [reflexivity|]. split.
    { rewrite Hj. subst st1. simpl. rewrite join_append_truthy, join_app, Hassoc.
      f_equal. f_equal. destruct (ev_stdout ev); simpl; now rewrite ?Hnil. }
    split; [subst st1; simpl in *; lia|].
    intros rest Hr. now apply Hrest.
Qed.

Lemma increasing_orders_app_l (last : Z) (evs rest : list bash_event) :
  increasing_orders last (evs ++ rest) -> increasing_orders last evs.
Proof.
  revert last. induction evs as [|ev evs IH]; intros last H; simpl in *; [exact I|].
  destruct (String.eqb (ev_kind ev) "BashOutput"); [|now apply IH].
  destruct (ev_order ev) as [o|]; [|now apply IH].
  destruct H as [Hlt H]. split; [exact Hlt|now apply IH].
Qed.

Lemma chunks_app (evs1 evs2 : list bash_event) :
  chunks (evs1 ++ evs2) = chunks evs1 ++ chunks evs2.
Proof. unfold chunks. apply flat_map_app. Qed.

Lemma stdout_finish (st : poll_state) : stdout (finish st) = join (stdout_parts st).
Proof. unfold finish. now destruct (seen_exit_code st). Qed.

(** The search request issued from a loop state carries the last order
    seen as its [order__gt] filter. *)
Lemma loop_head_request (timeout : Q) (command_id : string) (start_time : Q)
    (ticks : nat) (st : poll_state) (req : request) (k : suspended) :
  loop_head clock timeout command_id start_time ticks st = Yielded req k ->
  req = SearchBashEvents command_id "BashOutput"
          (if 0 <=? last_order st then Some (last_order st) else None) /\
  k = AwaitPoll timeout command_id start_time (S ticks) st.
Proof.
  unfold loop_head. destruct (Qle_bool _ _); [discriminate|].
  intros [= <- <-]. split; reflexivity.
Qed.

(** From a polling state on, what the client returns as stdout is what it
    had collected followed by the chunks of the responses it consumed. *)
Lemma run_polls (timeout : Q) (command_id : string) (start_time : Q)
    (polls : list response) :
  forall (ticks : nat) (st : poll_state) (g : generator)
         (res : CommandResult) (rest : list response),
    g = loop_head clock timeout command_id start_time ticks st \/
    g = Returned (finish st) ->
    Forall (fun r => status r = Ok tt) polls ->
    increasing_orders (last_order st) (flat_map body_items polls) ->
    run clock g polls = Some (res, rest) ->
    exists used,
      polls = used ++ rest /\
      stdout res
      = (join (stdout_parts st) ++ join (chunks (flat_map body_items used)))%string.
Proof.
  induction polls as [|r polls IH]; intros ticks st g res rest Hg Hok Hinc Hrun.
  - assert (g = Returned (finish st)) as ->.
    { destruct Hg as [-> | ->]; [|reflexivity].
      unfold loop_head in *. destruct (Qle_bool _ _); [reflexivity|discriminate]. }
    revert Hrun; intros [= <- <-]. exists []. split; [reflexivity|].
    simpl. now rewrite stdout_finish, str_app_nil_r.
  - assert (Hfin : run clock (Returned (finish st)) (r :: polls) = Some (res, rest) ->
                   exists used, r :: polls = used ++ rest /\
                     stdout res = (join (stdout_parts st)
                                   ++ join (chunks (flat_map body_items used)))%string).
    { intros [= <- <-]. exists []. split; [reflexivity|].
      simpl. now rewrite stdout_finish, str_app_nil_r. }
    destruct Hg as [-> | ->]; [|now apply Hfin].
    unfold loop_head in Hrun |- *.
    destruct (Qle_bool _ _); [now apply Hfin|].
    simpl in Hrun. inversion Hok as [|? ? Hr Hok']; subst.
    rewrite Hr in Hrun. simpl in Hinc.
    destruct (process_events_increasing st (body_items r)
                (increasing_orders_app_l _ _ _ Hinc)) as (st' & Hst' & Hj & _ & Hrest).
    rewrite Hst' in Hrun.
    destruct (IH (S ticks) st'
                (match seen_exit_code st' with
                 | Some _ => Returned (finish st')
                 | None => loop_head clock timeout command_id start_time (S ticks) st'
                 end) res rest) as (used & -> & Hout); auto.
    { destruct (seen_exit_code st'); auto. }
    exists (r :: used). split; [reflexivity|].
    rewrite Hout, Hj. simpl. now rewrite chunks_app, join_app, str_app_assoc.
Qed.

(** C3. Every search the client issues from a polling state carries the
    last order seen as its [order__gt] filter (none before any order was
    seen); an item whose order is not above the last order seen makes the
    exchange fail on an assertion -- the result has exit code -1, an empty
    stdout and the assertion's message as stderr; and when the orders
    delivered increase and no response is an error, the stdout returned is
    the concatenation, in order, of the chunks of the [BashOutput] items of
    the responses consumed. *)
Theorem polling_deduplicates (timeout : Q) (command_id : string) (start_time : Q)
    (ticks : nat) (st : poll_state) :
  (forall req k,
      loop_head clock timeout command_id start_time ticks st = Yielded req k ->
      req = SearchBashEvents command_id "BashOutput"
              (if 0 <=? last_order st then Some (last_order st) else None)) /\
  (forall r evs1 ev evs2 st1 o,
      status r = Ok tt -> body_items r = evs1 ++ ev :: evs2 ->
      process_events st evs1 = Ok st1 ->
      ev_kind ev = "BashOutput" -> ev_order ev = Some o -> o <= last_order st1 ->
      exists msg,
        send clock (AwaitPoll timeout command_id start_time ticks st) r
        = Returned {| exit_code := -1; stdout := "";
                      stderr := "Remote command execution failed: " ++ msg |}) /\
  (forall r st',
      status r = Ok tt -> process_events st (body_items r) = Ok st' ->
      (forall ev o, ev ∈ body_items r -> ev_kind ev = "BashOutput" ->
                    ev_order ev = Some o -> o <= last_order st') /\
      forall req k,
        send clock (AwaitPoll timeout command_id start_time ticks st) r = Yielded req k ->
        req = SearchBashEvents command_id "BashOutput"
                (if 0 <=? last_order st' then Some (last_order st') else None)) /\
  (forall command r0 polls res rest,
      status r0 = Ok tt -> is_Some (body_id r0) ->
      Forall (fun r => status r = Ok tt) polls ->
      increasing_orders (-1) (flat_map body_items polls) ->
      run clock (_execute_command_generator command timeout) (r0 :: polls)
      = Some (res, rest) ->
      exists used,
        polls = used ++ rest /\
        stdout res = join (chunks (flat_map body_items used))).
Proof.
  split; [|split; [|split]].
  - intros req k H. now apply loop_head_request in H as [-> _].
  - intros r evs1 ev evs2 st1 o Hr Hitems Hst1 Hk Ho Hle.
    destruct (process_event_duplicate st1 ev o Hk Ho Hle) as [msg Hdup].
    exists msg. simpl. rewrite Hr, Hitems, process_events_app, Hst1. simpl.
    now rewrite Hdup.
  - intros r st' Hr Hst'. split.
    + revert st Hst'. induction (body_items r) as [|e evs IH]; intros st0 Hst' ev o Hin Hk Ho.
      { now apply elem_of_nil in Hin. }
      simpl in Hst'. destruct (process_event st0 e) as [s1|] eqn:He; [|discriminate].
      simpl in Hst'.
      assert (Hmono : forall evs s s', process_events s evs = Ok s' ->
                                       last_order s <= last_order s').
      { clear. induction evs as [|e evs IH]; intros s s' H; simpl in H.
        - injection H as <-. lia.
        - destruct (process_event s e) as [s1|] eqn:He; [|discriminate]. simpl in H.
          apply IH in H. unfold process_event in He.
          destruct (String.eqb _ _); [|injection He as <-; lia].
          destruct (ev_order e) as [o|].
          + destruct (Z.leb_spec o (last_order s)); [discriminate|].
            injection He as <-. simpl in H. lia.
          + injection He as <-. simpl in H. lia. }
      apply elem_of_cons in Hin as [->|Hin]; [|eapply IH; eauto].
      apply Hmono in Hst'. unfold process_event in He. rewrite Hk, Ho in He. simpl in He.
      destruct (Z.leb_spec o (last_order st0)); [discriminate|].
      injection He as <-. simpl in Hst'. exact Hst'.
    + intros req k. simpl. rewrite Hr, Hst'.
      destruct (seen_exit_code st'); [discriminate|].
      intros H. now apply loop_head_request in H as [-> _].
  - intros command r0 polls res rest Hr0 [cid Hid] Hok Hinc Hrun.
    simpl in Hrun. rewrite Hr0, Hid in Hrun.
    destruct (run_polls timeout cid (clock 0) polls 1%nat
                {| last_order := -1; stdout_parts := []; stderr_parts := [];
                   seen_exit_code := None |} _ res rest
                (or_introl eq_refl) Hok Hinc Hrun) as (used & -> & Hout).
    exists used. split; [reflexivity|]. exact Hout.
Qed.

End PollingFacts.

Example three_polls_output :
  RemoteWorkspace.run test_clock
    (RemoteWorkspace._execute_command_generator "test_command" 30%Q)
    (ok_response (Some "cmd-123") [] :: three_polls)
  = Some ({| RemoteWorkspace.exit_code := 0;
             RemoteWorkspace.stdout := "CHUNK1CHUNK2CHUNK3";
             RemoteWorkspace.stderr := "" |}, []).
Proof. vm_compute. reflexivity. Qed.

Example duplicate_event_fails :
  RemoteWorkspace.run test_clock
    (RemoteWorkspace._execute_command_generator "test_command" 30%Q)
    [ok_response (Some "cmd-999") [];
     ok_response None [output_event "event-1" 0 "CHUNK1" None];
     ok_response None [output_event "event-1" 0 "CHUNK1" None;
                       output_event "event-2" 1 "CHUNK2" (Some 0)]]
  = Some ({| RemoteWorkspace.exit_code := -1;
             RemoteWorkspace.stdout := "";
             RemoteWorkspace.stderr :=
               "Remote command execution failed: Duplicate event received: event-1" |},
          []).
Proof. vm_compute. reflexivity. Qed.

Lemma polling_deduplicates_witness :
  exists used,
    three_polls = used ++ [] /\
    RemoteWorkspace.stdout
      {| RemoteWorkspace.exit_code := 0;
         RemoteWorkspace.stdout := "CHUNK1CHUNK2CHUNK3";
         RemoteWorkspace.stderr := "" |}
    = RemoteWorkspace.join
        (RemoteWorkspace.chunks (flat_map RemoteWorkspace.body_items used)).
Proof.
  refine (proj2 (proj2 (proj2
            (polling_deduplicates test_clock 30%Q "cmd-123" 0%Q 0%nat
               {| RemoteWorkspace.last_order := -1;
                  RemoteWorkspace.stdout_parts := [];
                  RemoteWorkspace.stderr_parts := [];
                  RemoteWorkspace.seen_exit_code := None |})))
            "test_command" (ok_response (Some "cmd-123") []) three_polls _ []
            eq_refl (ex_intro _ "cmd-123" eq_refl) _ _ _).
  - repeat constructor.
  - simpl. repeat split; lia.
  - vm_compute. reflexivity.
Defined.

(** ** The MCP schema conversion *)
Section SchemaInduction.
Import McpSchema.
Variable P : schema -> Prop.
Hypothesis step :
  forall ref ty desc props req items anyOf,
    match props with
    | Some ps => Forall (fun kv => P (snd kv)) ps
    | None => True
    end ->
    match items with Some it => P it | None => True end ->
    Forall P anyOf ->
    P (Node ref ty desc props req items anyOf).

Fixpoint schema_induction (s : schema) : P s :=
  match s with
  | Node ref ty desc props req items anyOf =>
      step ref ty desc props req items anyOf
        match props with
        | Some ps =>
            (fix each (ps : list (string * schema)) : Forall (fun kv => P (snd kv)) ps :=
               match ps with
               | [] => @List.Forall_nil _ _
               | kv :: rest =>
                   @List.Forall_cons _ _ kv rest (schema_induction (snd kv)) (each rest)
               end) ps
        | None => I
        end
        match items with Some it => schema_induction it | None => I end
        ((fix each (l : list schema) : Forall P l :=
            match l with
            | [] => @List.Forall_nil _ _
            | a :: rest => @List.Forall_cons _ _ a rest (schema_induction a) (each rest)
            end) anyOf)
  end.

End SchemaInduction.

Section SchemaFacts.
Import McpSchema.
Variable defs : list (string * schema).

Lemma process_node (b : nat) (visiting : list string) ref ty desc props req items anyOf :
  process defs b visiting (Node ref ty desc props req items anyOf)
  = match resolve defs ref with
    | Some (name, def) =>
        if bool_decide (name ∈ visiting) then Some (placeholder def)
        else match b with
             | O => None
             | S b' => process defs b' (name :: visiting) def
             end
    | None =>
        r1 ← merge_first_non_null (process defs b visiting)
               (Node None ty None None None None []) anyOf;
        let r2 := with_description desc r1 in
        r3 ← match props with
             | Some ps =>
                 if is_type "object" ty then
                   ps' ← process_properties (process defs b visiting) ps;
                   Some (Node None (Some "object") (description_of r2) (Some ps')
                              (match req with Some r => Some r | None => required_of r2 end)
                              (items_of r2) [])
                 else Some r2
             | None => Some r2
             end;
        match items with
        | Some it =>
            if is_type "array" ty then
              it' ← process defs b visiting it;
              Some (Node None (Some "array") (description_of r3) (properties_of r3)
                         (required_of r3) (Some it') [])
            else Some r3
        | None => Some r3
        end
    end.
Proof. destruct b; reflexivity. Qed.

Lemma resolve_Some (ref : option string) (name : string) (def : schema) :
  resolve defs ref = Some (name, def) ->
  ref = Some name /\ lookup_def defs name = Some def /\ (name, def) ∈ defs.
Proof.
  unfold resolve. destruct ref as [n|]; simpl; [|discriminate].
  destruct (lookup_def defs n) as [d|] eqn:Hl; simpl; [|discriminate].
  intros [= <- <-]. split; [reflexivity|]. split; [exact Hl|].
  unfold lookup_def in Hl.
  destruct (find _ defs) as [[k d']|] eqn:Hf; simpl in Hl; [|discriminate].
  injection Hl as <-. apply find_some in Hf as [Hin Hk]. simpl in Hk.
  apply String.eqb_eq in Hk as ->. now apply list_elem_of_In.
Qed.

Lemma filter_unvisited_shrinks (l : list (string * schema)) (visiting : list string)
    (name : string) (def : schema) :
  (name, def) ∈ l -> name ∉ visiting ->
  (length (filter (fun kv => fst kv ∉ name :: visiting) l)
   < length (filter (fun kv => fst kv ∉ visiting) l))%nat.
Proof.
  assert (Hle : forall l' : list (string * schema),
             (length (filter (fun kv => fst kv ∉ name :: visiting) l')
              <= length (filter (fun kv => fst kv ∉ visiting) l'))%nat).
  { induction l' as [|x l' IHl]; [reflexivity|].
    rewrite !filter_cons.
    destruct (decide (fst x ∉ name :: visiting)) as [Hx|Hx].
    - assert (fst x ∉ visiting) by (intros ?; apply Hx; now right).
      rewrite decide_True by assumption. simpl. lia.
    - destruct (decide (fst x ∉ visiting)); simpl; lia. }
  induction l as [|kv l IH]; intros Hin Hout.
  { now apply elem_of_nil in Hin. }
  rewrite !filter_cons.
  apply elem_of_cons in Hin as [Heq|Hin].
  - subst kv. simpl.
    rewrite decide_False by (intros Hn; apply Hn; now left).
    rewrite decide_True by assumption. simpl.
    apply Nat.lt_succ_r, Hle.
  - specialize (IH Hin Hout).
    destruct (decide (fst kv ∉ name :: visiting)) as [Hkv|Hkv].
    + assert (fst kv ∉ visiting) by (intros ?; apply Hkv; now right).
      rewrite decide_True by assumption. simpl. lia.
    + destruct (decide (fst kv ∉ visiting)); simpl; lia.
Qed.

Lemma unvisited_shrinks (visiting : list string) (name : string) (def : schema) :
  (name, def) ∈ defs -> name ∉ visiting ->
  (length (unvisited defs (name :: visiting)) < length (unvisited defs visiting))%nat.
Proof. apply filter_unvisited_shrinks. Qed.

Lemma merge_first_total (f : schema -> option schema) (result : schema)
    (alts : list schema) :
  Forall (fun s => is_Some (f s)) alts ->
  is_Some (merge_first_non_null f result alts).
Proof.
  induction 1 as [|alt rest [r Hr] _ IH]; simpl; [eauto|].
  destruct (is_type "null" (type_of alt)); [exact IH|]. rewrite Hr. simpl. eauto.
Qed.

Lemma process_properties_total (f : schema -> option schema)
    (ps : list (string * schema)) :
  Forall (fun kv => is_Some (f (snd kv))) ps ->
  is_Some (process_properties f ps).
Proof.
  induction 1 as [|[n s] rest [r Hr] _ [rs IH]]; simpl; [eauto|].
  simpl in Hr. rewrite Hr. simpl. rewrite IH. simpl. eauto.
Qed.

(** The conversion returns a schema as soon as the budget covers the
    definitions that are not being visited. *)
Lemma process_total (b : nat) :
  forall (visiting : list string) (node : schema),
    (length (unvisited defs visiting) <= b)%nat ->
    is_Some (process defs b visiting node).
Proof.
  induction b as [b IHb] using lt_wf_ind. intros visiting node Hlen.
  induction node as [ref ty desc props req items anyOf IHprops IHitems IHany]
    using schema_induction.
  rewrite process_node.
  destruct (resolve defs ref) as [[name def]|] eqn:Hres.
  - apply resolve_Some in Hres as (_ & _ & Hin).
    case_bool_decide as Hvis; [eauto|].
    pose proof (unvisited_shrinks visiting name def Hin Hvis) as Hlt.
    destruct b as [|b']; [lia|]. apply IHb; lia.
  - destruct (merge_first_total (process defs b visiting)
                (Node None ty None None None None []) anyOf IHany) as [r1 ->].
    simpl.
    assert (Hr3 : is_Some
              match props with
              | Some ps =>
                  if is_type "object" ty then
                    ps' ← process_properties (process defs b visiting) ps;
                    Some (Node None (Some "object")
                            (description_of (with_description desc r1)) (Some ps')
                            (match req with
                             | Some r => Some r
                             | None => required_of (with_description desc r1)
                             end)
                            (items_of (with_description desc r1)) [])
                  else Some (with_description desc r1)
              | None => Some (with_description desc r1)
              end).
    { destruct props as [ps|]; [|eauto].
      destruct (is_type "object" ty); [|eauto].
      destruct (process_properties_total _ ps IHprops) as [ps' ->]. simpl. eauto. }
    destruct Hr3 as [r3 ->]. simpl.
    destruct items as [it|]; [|eauto].
    destruct (is_type "array" ty); [|eauto].
    destruct IHitems as [it' ->]. simpl. eauto.
Qed.

(** *** No [$ref] is left *)

Lemma ref_free_parts (s : schema) :
  ref_free s = true ->
  properties_free (properties_of s) = true /\ items_free (items_of s) = true.
Proof.
  destruct s as [r t d p q i alts]. simpl.
  rewrite !andb_true_iff. tauto.
Qed.

Lemma ref_free_built (t d : option string) (p : option (list (string * schema)))
    (q : option (list string)) (i : option schema) :
  properties_free p = true -> items_free i = true ->
  ref_free (Node None t d p q i []) = true.
Proof. intros Hp Hi. simpl. fold (properties_free p) (items_free i). now rewrite Hp, Hi. Qed.

Lemma ref_free_update (result processed : schema) :
  ref_free result = true -> ref_free processed = true ->
  ref_free (update result processed) = true.
Proof.
  intros [Hp1 Hi1]%ref_free_parts [Hp2 Hi2]%ref_free_parts.
  unfold update. apply ref_free_built.
  - now destruct (properties_of processed).
  - now destruct (items_of processed).
Qed.

Lemma ref_free_with_description (desc : option string) (r : schema) :
  ref_free r = true -> ref_free (with_description desc r) = true.
Proof.
  intros H. destruct desc; [|exact H]. unfold with_description.
  apply ref_free_parts in H as [Hp Hi]. now apply ref_free_built.
Qed.

Lemma merge_first_ref_free (f : schema -> option schema) (result : schema)
    (alts : list schema) (r : schema) :
  Forall (fun s => forall r, f s = Some r -> ref_free r = true) alts ->
  ref_free result = true ->
  merge_first_non_null f result alts = Some r -> ref_free r = true.
Proof.
  intros Hall Hres. induction Hall as [|alt rest Halt _ IH]; simpl.
  - now intros [= <-].
  - destruct (is_type "null" (type_of alt)); [exact IH|].
    destruct (f alt) as [r'|] eqn:Hf; simpl; [|discriminate].
    intros [= <-]. apply ref_free_update; auto.
Qed.

Lemma process_properties_ref_free (f : schema -> option schema)
    (ps ps' : list (string * schema)) :
  Forall (fun kv => forall r, f (snd kv) = Some r -> ref_free r = true) ps ->
  process_properties f ps = Some ps' ->
  forallb (fun kv => ref_free (snd kv)) ps' = true /\ fst <$> ps' = fst <$> ps.
Proof.
  intros Hall. revert ps'. induction Hall as [|[n s] rest Hs _ IH]; intros ps'; simpl.
  - now intros [= <-].
  - destruct (f s) as [s'|] eqn:Hf; simpl; [|discriminate].
    destruct (process_properties f rest) as [rest'|]; simpl; [|discriminate].
    intros [= <-]. destruct (IH rest' eq_refl) as [Hfree Hnames]. split.
    + simpl. now rewrite (Hs s' Hf), Hfree.
    + rewrite !fmap_cons. simpl. f_equal. exact Hnames.
Qed.

Lemma process_ref_free (b : nat) :
  forall (visiting : list string) (node r : schema),
    process defs b visiting node = Some r -> ref_free r = true.
Proof.
  induction b as [b IHb] using lt_wf_ind. intros visiting node.
  induction node as [ref ty desc props req items anyOf IHprops IHitems IHany]
    using schema_induction.
  intros r. rewrite process_node.
  destruct (resolve defs ref) as [[name def]|] eqn:Hres.
  - case_bool_decide; [now intros [= <-]|].
    destruct b as [|b']; [discriminate|]. apply IHb. lia.
  - destruct (merge_first_non_null _ _ anyOf) as [r1|] eqn:H1; simpl; [|discriminate].
    apply merge_first_ref_free in H1; [|exact IHany|reflexivity].
    pose proof (ref_free_with_description desc r1 H1) as H2.
    set (r2 := with_description desc r1) in *.
    destruct (match props with Some _ => _ | None => _ end) as [r3|] eqn:H3;
      simpl; [|discriminate].
    assert (Hr3 : ref_free r3 = true).
    { destruct props as [ps|]; [|now injection H3 as <-].
      destruct (is_type "object" ty); [|now injection H3 as <-].
      destruct (process_properties _ ps) as [ps'|] eqn:Hps; simpl in H3; [|discriminate].
      injection H3 as <-.
      apply process_properties_ref_free in Hps as [Hps _]; [|exact IHprops].
      apply ref_free_built; [exact Hps|]. now apply ref_free_parts in H2. }
    destruct items as [it|]; [|now intros [= <-]].
    destruct (is_type "array" ty); [|now intros [= <-]].
    destruct (process defs b visiting it) as [it'|] eqn:Hit; simpl; [|discriminate].
    intros [= <-]. apply ref_free_parts in Hr3 as [Hp _].
    apply ref_free_built; [exact Hp|]. simpl. now apply IHitems.
Qed.

Lemma exclude_discriminator_spec (s : schema) :
  (DISCRIMINATOR ∉ property_names (exclude_discriminator s)) /\
  (forall req, required_of (exclude_discriminator s) = Some req -> DISCRIMINATOR ∉ req) /\
  (ref_free s = true -> ref_free (exclude_discriminator s) = true).
Proof.
  destruct s as [r t d p q i alts]. unfold property_names. simpl. split; [|split].
  - destruct p as [ps|]; simpl; [|apply not_elem_of_nil].
    intros [kv [Hk Hin]]%list_elem_of_fmap.
    apply list_elem_of_filter in Hin as [Hne _]. congruence.
  - destruct q as [names|]; simpl; [|discriminate].
    intros req [= <-] Hin. apply list_elem_of_filter in Hin as [Hne _]. congruence.
  - rewrite !andb_true_iff. intros [[[Hr Hp] Hi] Ha]. repeat split; auto.
    destruct p as [ps|]; simpl in *; [|reflexivity].
    apply forallb_forall. intros kv Hin.
    rewrite forallb_forall in Hp. apply Hp.
    apply list_elem_of_In in Hin. apply list_elem_of_filter in Hin as [_ Hin].
    now apply list_elem_of_In.
Qed.

End SchemaFacts.

(** C7, as amended.  For every action schema and its definitions, cyclic or
    not, [to_mcp_schema] returns a schema; the schema contains no [$ref];
    the discriminator [kind] is neither among its properties nor among its
    required names.  A [$ref] to a definition being visited is not expanded:
    it is replaced by a generic object that keeps the description of the
    definition.  A [$ref] to a definition not being visited is replaced by
    the processed definition. *)
Theorem to_mcp_schema_total (root : McpSchema.schema)
    (defs : list (string * McpSchema.schema)) :
  (exists r,
      McpSchema.to_mcp_schema root defs = Some r /\
      McpSchema.ref_free r = true /\
      (McpSchema.DISCRIMINATOR ∉ McpSchema.property_names r) /\
      (forall req, McpSchema.required_of r = Some req ->
                   McpSchema.DISCRIMINATOR ∉ req)) /\
  (forall b visiting name def ty desc props req items anyOf,
      McpSchema.lookup_def defs name = Some def -> name ∈ visiting ->
      McpSchema.process defs b visiting
        (McpSchema.Node (Some name) ty desc props req items anyOf)
      = Some (McpSchema.Node None (Some "object") (McpSchema.description_of def)
                None None None [])) /\
  (forall b visiting name def ty desc props req items anyOf,
      McpSchema.lookup_def defs name = Some def -> name ∉ visiting ->
      McpSchema.process defs (S b) visiting
        (McpSchema.Node (Some name) ty desc props req items anyOf)
      = McpSchema.process defs b (name :: visiting) def).
Proof.
  split; [|split].
  - unfold McpSchema.to_mcp_schema, McpSchema._process_schema_node.
    destruct (process_total defs (length defs) [] root) as [r Hr].
    { unfold McpSchema.unvisited. apply length_filter. }
    rewrite Hr. simpl. eexists. split; [reflexivity|].
    destruct (exclude_discriminator_spec r) as (Hp & Hq & Hf).
    split; [|split; assumption]. apply Hf. eapply process_ref_free, Hr.
  - intros b visiting name def ty desc props req items anyOf Hdef Hvis.
    rewrite process_node. unfold McpSchema.resolve. simpl. rewrite Hdef. simpl.
    now rewrite bool_decide_eq_true_2.
  - intros b visiting name def ty desc props req items anyOf Hdef Hvis.
    rewrite process_node. unfold McpSchema.resolve. simpl. rewrite Hdef. simpl.
    now rewrite bool_decide_eq_false_2.
Qed.

Example tree_schema_converts :
  McpSchema.to_mcp_schema
    (McpSchema.Node (Some "TreeNode") None None None None None [])
    [("TreeNode", tree_node)]
  = Some (McpSchema.Node None (Some "object") (Some "A tree node")
            (Some [("name", McpSchema.Node None (Some "string") (Some "Node name")
                              None None None []);
                   ("children",
                    McpSchema.Node None (Some "array") (Some "Child nodes") None None
                      (Some (McpSchema.Node None (Some "object") (Some "A tree node")
                               None None None []))
                      [])])
            None None []).
Proof. vm_compute. reflexivity. Qed.

(** The placeholder of a cyclic [$ref] is not always the bare
    [{"type": "object"}]: it carries the description of the definition. *)
Lemma cyclic_ref_not_bare :
  ~ (forall defs b visiting name def,
        McpSchema.lookup_def defs name = Some def -> name ∈ visiting ->
        McpSchema.process defs b visiting
          (McpSchema.Node (Some name) None None None None None [])
        = Some McpSchema.bare_object).
Proof.
  intros H.
  specialize (H [("TreeNode", tree_node)] 0%nat ["TreeNode"] "TreeNode" tree_node
                eq_refl ltac:(now left)).
  vm_compute in H. discriminate.
Qed.


(** ** The PS1 metadata extractor *)
Section PS1Facts.
Import PS1.
Variable anchored : bool.
Variable json_loads_ok : str -> bool.

Lemma startswith_app (p x : str) : startswith p (p ++ x) = true.
Proof.
  induction p as [|c p IH]; [reflexivity|].
  simpl. now rewrite Ascii.eqb_refl, IH.
Qed.

Lemma end_not_at_begin (x : str) :
  startswith CMD_OUTPUT_PS1_END (CMD_OUTPUT_PS1_BEGIN ++ x) = false.
Proof. reflexivity. Qed.

Lemma begin_not_at_end (x : str) :
  startswith CMD_OUTPUT_PS1_BEGIN (CMD_OUTPUT_PS1_END ++ x) = false.
Proof. reflexivity. Qed.

Lemma match_group_eq (s : str) :
  match_group s
  = if startswith CMD_OUTPUT_PS1_END s
    then Some ([], drop (length CMD_OUTPUT_PS1_END) s)
    else if startswith CMD_OUTPUT_PS1_BEGIN s then None
         else match s with
              | [] => None
              | c :: s' =>
                  match match_group s' with
                  | Some (g, rest) => Some (c :: g, rest)
                  | None => None
                  end
              end.
Proof. destruct s; reflexivity. Qed.

(** A stretch without the start of a marker, then an opening marker: the
    group cannot be matched. *)
Lemma match_group_blocked (u v : str) :
  (forall i, (i < length u)%nat ->
             startswith CMD_OUTPUT_PS1_BEGIN (drop i (u ++ CMD_OUTPUT_PS1_BEGIN ++ v)) = false /\
             startswith CMD_OUTPUT_PS1_END (drop i (u ++ CMD_OUTPUT_PS1_BEGIN ++ v)) = false) ->
  match_group (u ++ CMD_OUTPUT_PS1_BEGIN ++ v) = None.
Proof.
  induction u as [|c u IH]; intros H.
  - rewrite match_group_eq. change ([] ++ ?x) with x.
    now rewrite end_not_at_begin, startswith_app.
  - destruct (H 0%nat ltac:(simpl; lia)) as [Hb He]. rewrite drop_0 in Hb, He.
    rewrite <- app_comm_cons in Hb, He |- *.
    rewrite match_group_eq, He, Hb. cbv beta iota.
    rewrite IH; [reflexivity|].
    intros i Hi. apply (H (S i)). simpl. lia.
Qed.

(** A stretch without the start of a marker, then the closing marker: the
    group is that stretch. *)
Lemma match_group_found (u v : str) :
  (forall i, (i < length u)%nat ->
             startswith CMD_OUTPUT_PS1_BEGIN (drop i (u ++ CMD_OUTPUT_PS1_END ++ v)) = false /\
             startswith CMD_OUTPUT_PS1_END (drop i (u ++ CMD_OUTPUT_PS1_END ++ v)) = false) ->
  match_group (u ++ CMD_OUTPUT_PS1_END ++ v) = Some (u, v).
Proof.
  induction u as [|c u IH]; intros H.
  - rewrite match_group_eq. change ([] ++ ?x) with x.
    now rewrite startswith_app, drop_app_length.
  - destruct (H 0%nat ltac:(simpl; lia)) as [Hb He]. rewrite drop_0 in Hb, He.
    rewrite <- app_comm_cons in Hb, He |- *.
    rewrite match_group_eq, He, Hb. cbv beta iota.
    rewrite IH; [reflexivity|].
    intros i Hi. apply (H (S i)). simpl. lia.
Qed.

Lemma line_start_after_cons (c : ascii) (u : str) (bol : bool) :
  line_start_after (c :: u) bol = line_start_after u (is_newline c).
Proof.
  unfold line_start_after. rewrite last_cons. now destruct (last u).
Qed.

Lemma line_start_after_app (u v : str) (bol : bool) :
  line_start_after (u ++ v) bol = line_start_after v (line_start_after u bol).
Proof.
  revert bol. induction u as [|c u IH]; intros bol; [reflexivity|].
  rewrite <- app_comm_cons, !line_start_after_cons. apply IH.
Qed.

Lemma match_here_no_begin (bol : bool) (s : str) :
  startswith CMD_OUTPUT_PS1_BEGIN s = false -> match_here anchored bol s = None.
Proof. intros H. unfold match_here. now rewrite H, andb_false_r. Qed.

(** No match starts where no opening marker stands. *)
Lemma finditer_skip (u v : str) (pos : nat) (bol : bool) :
  (forall i, (i < length u)%nat ->
             startswith CMD_OUTPUT_PS1_BEGIN (drop i (u ++ v)) = false) ->
  finditer_from anchored (u ++ v) pos 0 bol
  = finditer_from anchored v (pos + length u) 0 (line_start_after u bol).
Proof.
  revert pos bol. induction u as [|c u IH]; intros pos bol H.
  - simpl. now rewrite Nat.add_0_r.
  - pose proof (H 0%nat ltac:(simpl; lia)) as Hb. rewrite drop_0 in Hb.
    rewrite <- app_comm_cons in Hb |- *.
    change (finditer_from anchored (c :: u ++ v) pos 0 bol)
      with (match match_here anchored bol (c :: u ++ v) with
            | Some (g, rest) =>
                let n := (length (c :: u ++ v) - length rest)%nat in
                {| m_start := pos; m_end := (pos + n)%nat; group1 := g |} ::
                finditer_from anchored (u ++ v) (S pos) (n - 1) (is_newline c)
            | None => finditer_from anchored (u ++ v) (S pos) 0 (is_newline c)
            end).
    rewrite (match_here_no_begin bol _ Hb), line_start_after_cons.
    rewrite IH; [f_equal; simpl; lia|].
    intros i Hi. apply (H (S i)). simpl. lia.
Qed.

(** The characters of a match are passed over. *)
Lemma finditer_skipped (s : str) (pos n : nat) (bol : bool) :
  (n <= length s)%nat ->
  finditer_from anchored s pos n bol
  = finditer_from anchored (drop n s) (pos + n) 0 (line_start_after (take n s) bol).
Proof.
  revert s pos bol. induction n as [|n IH]; intros s pos bol Hn.
  - now rewrite drop_0, Nat.add_0_r.
  - destruct s as [|c s]; [simpl in Hn; lia|].
    simpl. rewrite IH by (simpl in Hn; lia). rewrite line_start_after_cons.
    f_equal. lia.
Qed.

Lemma finditer_nil (pos : nat) (bol : bool) : finditer_from anchored [] pos 0 bol = [].
Proof. unfold finditer_from, match_here. now rewrite andb_false_r. Qed.

Lemma finditer_from_cons (s : str) (pos : nat) (bol : bool) :
  s <> [] ->
  finditer_from anchored s pos 0 bol
  = match match_here anchored bol s with
    | Some (g, rest) =>
        let n := (length s - length rest)%nat in
        {| m_start := pos; m_end := (pos + n)%nat; group1 := g |} ::
        finditer_from anchored (drop 1 s) (S pos) (n - 1)
          (line_start_after (take 1 s) bol)
    | None =>
        finditer_from anchored (drop 1 s) (S pos) 0 (line_start_after (take 1 s) bol)
    end.
Proof. destruct s; [congruence|]. intros _. reflexivity. Qed.

Lemma begin_app_nonempty (x : str) : CMD_OUTPUT_PS1_BEGIN ++ x <> [].
Proof. discriminate. Qed.

Lemma matches_filter (s : str) (m : ps1_match) :
  m ∈ matches_ps1_metadata anchored json_loads_ok s
  <-> m ∈ finditer anchored s /\ json_loads_ok (strip (group1 m)) = true.
Proof. unfold matches_ps1_metadata. rewrite list_elem_of_filter. tauto. Qed.

(** The transcript [pre ++ BEGIN ++ garbage ++ BEGIN ++ body ++ END ++ post]
    in which the opening marker stands at these two places only and the
    closing marker at this one only has exactly one match: the block of the
    second opening marker.  With the anchored pattern the second marker has
    to begin a line. *)
Lemma finditer_last_block (pre garbage body post : str) :
  let s := pre ++ CMD_OUTPUT_PS1_BEGIN ++ garbage ++ CMD_OUTPUT_PS1_BEGIN
               ++ body ++ CMD_OUTPUT_PS1_END ++ post in
  let p1 := length pre in
  let p2 := (p1 + 13 + length garbage)%nat in
  let e := (p2 + 13 + length body)%nat in
  (forall i, begin_at s i -> i = p1 \/ i = p2) ->
  (forall i, end_at s i -> i = e) ->
  (anchored = true -> line_start_after garbage false = true) ->
  finditer anchored s
  = [{| m_start := p2; m_end := (e + 12)%nat; group1 := body |}].
Proof.
  intros s p1 p2 e H1 H2 Hline.
  assert (HlenB : length CMD_OUTPUT_PS1_BEGIN = 13%nat) by reflexivity.
  assert (HlenE : length CMD_OUTPUT_PS1_END = 12%nat) by reflexivity.
  set (s2 := CMD_OUTPUT_PS1_BEGIN ++ body ++ CMD_OUTPUT_PS1_END ++ post) in *.
  set (s1 := CMD_OUTPUT_PS1_BEGIN ++ garbage ++ s2) in *.
  (* what stands at an index of [s] *)
  assert (Hnb : forall i, i <> p1 -> i <> p2 ->
                startswith CMD_OUTPUT_PS1_BEGIN (drop i s) = false).
  { intros i Hp1 Hp2.
    destruct (startswith CMD_OUTPUT_PS1_BEGIN (drop i s)) eqn:Hb; [|reflexivity].
    destruct (H1 i Hb); contradiction. }
  assert (Hne : forall i, i <> e -> startswith CMD_OUTPUT_PS1_END (drop i s) = false).
  { intros i He.
    destruct (startswith CMD_OUTPUT_PS1_END (drop i s)) eqn:Hb; [|reflexivity].
    specialize (H2 i Hb). contradiction. }
  assert (Hs1 : forall i, drop i s1 = drop (p1 + i) s).
  { intros i. unfold s, p1. now rewrite drop_app_add. }
  assert (Hg : forall i, drop i (garbage ++ s2) = drop (p1 + 13 + i) s).
  { intros i. rewrite <- Nat.add_assoc, <- Hs1. unfold s1.
    rewrite <- HlenB. now rewrite drop_app_add. }
  assert (Hs2 : forall i, drop i s2 = drop (p2 + i) s).
  { intros i. unfold p2. rewrite <- Nat.add_assoc, <- Hg.
    now rewrite drop_app_add. }
  assert (Hbody : forall i, drop i (body ++ CMD_OUTPUT_PS1_END ++ post)
                            = drop (p2 + 13 + i) s).
  { intros i. rewrite <- Nat.add_assoc, <- Hs2. unfold s2.
    rewrite <- HlenB. now rewrite drop_app_add. }
  assert (Hpost : forall i, drop i post = drop (e + 12 + i) s).
  { intros i.
    replace (e + 12 + i)%nat
      with (p2 + 13 + (length body + (length CMD_OUTPUT_PS1_END + i)))%nat
      by (unfold e; lia).
    rewrite <- Hbody. now rewrite !drop_app_add. }
  (* the characters before the first marker *)
  unfold finditer. fold s.
  change s with (pre ++ s1).
  rewrite finditer_skip.
  2:{ intros i Hi. fold s. apply Hnb; unfold p2; lia. }
  rewrite Nat.add_0_l. fold p1.
  (* the first marker: its group runs into the second marker *)
  rewrite finditer_from_cons by apply begin_app_nonempty.
  assert (Hfirst : match_here anchored (line_start_after pre true) s1 = None).
  { unfold match_here. destruct (_ && _); [|reflexivity].
    unfold s1. rewrite drop_app_length.
    unfold s2. apply match_group_blocked.
    intros i Hi. fold s2. rewrite Hg.
    split; [apply Hnb|apply Hne]; unfold p2, e; lia. }
  rewrite Hfirst.
  (* the rest of the first marker and the garbage *)
  unfold s1 at 1. rewrite drop_app_le by (rewrite HlenB; lia).
  rewrite app_assoc, finditer_skip.
  2:{ intros i Hi. rewrite <- app_assoc, <- drop_app_le by (rewrite HlenB; lia).
      rewrite drop_drop. fold s1. rewrite Hs1.
      rewrite length_app, length_drop, HlenB in Hi.
      apply Hnb; unfold p2; lia. }
  rewrite length_app, length_drop, HlenB.
  replace (S p1 + (13 - 1 + length garbage))%nat with p2 by (unfold p2; lia).
  rewrite line_start_after_app.
  set (bol := line_start_after garbage _).
  assert (Hbol : negb anchored || bol = true).
  { destruct anchored; [|reflexivity]. simpl. subst bol.
    specialize (Hline eq_refl). unfold line_start_after in *.
    destruct (last garbage); [exact Hline|discriminate]. }
  (* the second marker and its group *)
  rewrite finditer_from_cons by apply begin_app_nonempty.
  unfold match_here. rewrite Hbol. unfold s2 at 1. rewrite startswith_app.
  unfold s2 at 1. rewrite drop_app_length.
  rewrite match_group_found.
  2:{ intros i Hi. rewrite Hbody. split; [apply Hnb|apply Hne]; unfold p2, e; lia. }
  change (true && true) with true. cbv zeta beta iota.
  assert (Hn : (length s2 - length post = 13 + length body + 12)%nat).
  { unfold s2. rewrite !length_app, HlenB, HlenE. lia. }
  rewrite Hn. f_equal; [f_equal; unfold e; lia|].
  (* past the match *)
  rewrite finditer_skipped by (rewrite length_drop; lia).
  rewrite drop_drop.
  replace (1 + (13 + length body + 12 - 1))%nat
    with (length (CMD_OUTPUT_PS1_BEGIN ++ body ++ CMD_OUTPUT_PS1_END))%nat
    by (rewrite !length_app, HlenB, HlenE; lia).
  unfold s2 at 1. rewrite !app_assoc, drop_app_length.
  rewrite <- (app_nil_r post) at 1. rewrite finditer_skip; [apply finditer_nil|].
  intros i Hi. rewrite app_nil_r, Hpost. apply Hnb; unfold p2, e; lia.
Qed.

(** C1. A transcript with two opening markers before its one closing
    marker has exactly one match, the block of the last opening marker
    before the closing marker (which, for the anchored pattern, begins a
    line).  The extractor returns that one block when it parses as JSON; a
    block that does not parse is skipped: the extractor returns the matches
    whose block parses, and nothing else. *)
Theorem ps1_last_block_recovered (pre garbage body post : str) :
  let s := pre ++ CMD_OUTPUT_PS1_BEGIN ++ garbage ++ CMD_OUTPUT_PS1_BEGIN
               ++ body ++ CMD_OUTPUT_PS1_END ++ post in
  let p2 := (length pre + 13 + length garbage)%nat in
  let e := (p2 + 13 + length body)%nat in
  let m := {| m_start := p2; m_end := (e + 12)%nat; group1 := body |} in
  (forall i, begin_at s i -> i = length pre \/ i = p2) ->
  (forall i, end_at s i -> i = e) ->
  (anchored = true -> line_start_after garbage false = true) ->
  (json_loads_ok (strip body) = true ->
   matches_ps1_metadata anchored json_loads_ok s = [m]) /\
  (json_loads_ok (strip body) = false ->
   matches_ps1_metadata anchored json_loads_ok s = []) /\
  (forall t m', m' ∈ matches_ps1_metadata anchored json_loads_ok t
                <-> m' ∈ finditer anchored t /\
                    json_loads_ok (strip (group1 m')) = true).
Proof.
  intros s p2 e m H1 H2 Hline.
  pose proof (finditer_last_block pre garbage body post H1 H2 Hline) as Hfind.
  fold s p2 e m in Hfind.
  split; [|split].
  - intros Hok. unfold matches_ps1_metadata. rewrite Hfind.
    rewrite filter_cons, decide_True by exact Hok. reflexivity.
  - intros Hbad. unfold matches_ps1_metadata. rewrite Hfind.
    rewrite filter_cons, decide_False by (simpl; congruence). reflexivity.
  - intros t m'. apply matches_filter.
Qed.

Lemma occurrences_complete (p s : str) (i pos : nat) :
  p <> [] -> startswith p (drop i s) = true ->
  (pos + i)%nat ∈ occurrences_from p s pos.
Proof.
  intros Hp. revert s pos. induction i as [|i IH]; intros s pos H.
  - rewrite drop_0 in H. rewrite Nat.add_0_r.
    destruct s; simpl; rewrite H; now left.
  - destruct s as [|c s]; simpl in H.
    + destruct p; [congruence|discriminate].
    + simpl. apply elem_of_app. right.
      replace (pos + S i)%nat with (S pos + i)%nat by lia. now apply IH.
Qed.

End PS1Facts.

Example nested_markers_one_match :
  forall anchored,
    PS1.group1 <$> PS1.matches_ps1_metadata anchored JsonText.json_text nested_markers
    = [intact_block].
Proof. intros []; vm_compute; reflexivity. Qed.

(** The transcript of test_interleaved_output_between_ps1_markers: the one
    block is not JSON. *)
Example interleaved_block_skipped :
  PS1.matches_ps1_metadata false JsonText.json_text
    (JsonText.nl ++ PS1.CMD_OUTPUT_PS1_BEGIN ++ JsonText.nl ++ JsonText.t "{" ++ JsonText.nl
     ++ JsonText.t "  " ++ JsonText.q "pid" ++ JsonText.t ": " ++ JsonText.q "123"
     ++ JsonText.nl
     ++ JsonText.t "INTERLEAVED COMMAND OUTPUT HERE - THIS BREAKS THE JSON" ++ JsonText.nl
     ++ JsonText.t "}" ++ JsonText.nl ++ PS1.CMD_OUTPUT_PS1_END ++ JsonText.nl)
  = [].
Proof. vm_compute. reflexivity. Qed.

Lemma ps1_last_block_recovered_witness :
  PS1.matches_ps1_metadata true JsonText.json_text nested_markers
  = [{| PS1.m_start := 142; PS1.m_end := 336; PS1.group1 := intact_block |}].
Proof.
  refine (proj1 (ps1_last_block_recovered true JsonText.json_text
                   before_ps1 corrupted_block intact_block after_ps1 _ _ _) _).
  - intros i Hi.
    apply (occurrences_complete _ _ i 0) in Hi; [|discriminate].
    vm_compute in Hi.
    apply elem_of_cons in Hi as [-> | Hi]; [left; reflexivity|].
    apply elem_of_cons in Hi as [-> | Hi]; [right; reflexivity|].
    now apply elem_of_nil in Hi.
  - intros i Hi.
    apply (occurrences_complete _ _ i 0) in Hi; [|discriminate].
    vm_compute in Hi.
    apply elem_of_cons in Hi as [-> | Hi]; [reflexivity|].
    now apply elem_of_nil in Hi.
  - intros _. vm_compute. reflexivity.
  - vm_compute. reflexivity.
Defined.

(** ** Runs of the refinement check *)
Section RefinementFacts.
Import CriticRefine Refinement.

(** A call that reads an integer counter does not raise, and leaves an
    integer counter: the old one, or the old one plus one when the agent is
    told to continue. *)
Lemma check_step (critic : option CriticBase) (state : ConversationState)
    (action_event : ActionEvent) (i : Z) :
  iteration_of state = Some i ->
  exists b f state',
    _check_iterative_refinement critic state action_event = (Ok (b, f), state') /\
    iteration_of state' = Some (if b then i + 1 else i) /\
    (b = true -> exists c config, critic = Some c /\ iterative_refinement c = Some config /\
                                  i < max_iterations config) /\
    (b = false -> state' = state).
Proof.
  intros Hi.
  destruct (check_outcomes critic state action_event i Hi)
    as [(config & cr & c & -> & Hcfg & Hcr & Hmax & Hsc & Hout) | [Hwhy Hout]];
    cbv zeta in Hout; rewrite Hout.
  - eexists true, _, _. split; [reflexivity|]. split; [|split].
    + unfold iteration_of. simpl. now rewrite lookup_insert_eq.
    + intros _. eauto.
    + discriminate.
  - exists false, None, state. split; [reflexivity|]. split; [exact Hi|].
    split; [discriminate|reflexivity].
Qed.

Lemma check_all_counter (critic : option CriticBase) (events : list ActionEvent) :
  forall (state : ConversationState) (i : Z),
    iteration_of state = Some i ->
    let run := check_all critic state events in
    Forall (fun out => raised out = false) (fst run) /\
    length (fst run) = length events /\
    iteration_of (snd run) = Some (i + Z.of_nat (continues (fst run))) /\
    (forall c config, critic = Some c -> iterative_refinement c = Some config ->
       Z.of_nat (continues (fst run)) <= Z.max 0 (max_iterations config - i)).
Proof.
  induction events as [|ev rest IH]; intros state i Hi; cbn [check_all].
  - simpl. split; [constructor|]. split; [reflexivity|].
    split; [now rewrite Z.add_0_r|]. intros; unfold continues; simpl; lia.
  - destruct (check_step critic state ev i Hi) as (b & f & state' & -> & Hi' & Hb & _).
    specialize (IH state' _ Hi'). cbv zeta in IH.
    destruct (check_all critic state' rest) as [outs state''].
    simpl in IH |- *. destruct IH as (Hok & Hlen & Hcount & Hbound).
    split; [constructor; [reflexivity|exact Hok]|].
    split; [now rewrite Hlen|].
    unfold continues in *. simpl. destruct b; simpl.
    + split; [rewrite Hcount; f_equal; lia|].
      intros c config Hc Hcfg. specialize (Hbound c config Hc Hcfg).
      destruct (Hb eq_refl) as (c' & config' & Hc' & Hcfg' & Hlt).
      rewrite Hc in Hc'. injection Hc' as <-.
      rewrite Hcfg in Hcfg'. injection Hcfg' as <-. lia.
    + split; [exact Hcount|]. exact Hbound.
Qed.

(** X1. Over any run of finish actions on a conversation whose counter is an
    integer, no check raises, and the agent is told to continue at most
    [max_iterations - counter] times, whatever the critic results are; the
    counter ends at its start value plus the number of continuations. *)
Theorem refinement_bounded (c : CriticBase) (config : IterativeRefinementConfig)
    (state : ConversationState) (events : list ActionEvent) (i : Z) :
  iterative_refinement c = Some config ->
  iteration_of state = Some i ->
  let run := check_all (Some c) state events in
  Forall (fun out => raised out = false) (fst run) /\
  Z.of_nat (continues (fst run)) <= Z.max 0 (max_iterations config - i) /\
  iteration_of (snd run) = Some (i + Z.of_nat (continues (fst run))).
Proof.
  intros Hcfg Hi run.
  destruct (check_all_counter (Some c) events state i Hi) as (Hok & _ & Hcount & Hbound).
  split; [exact Hok|]. split; [|exact Hcount].
  exact (Hbound c config eq_refl Hcfg).
Qed.

(** X2. Once the counter has reached [max_iterations], every later check
    answers [(False, None)] and the conversation state stays as it is,
    whatever the critic results are. *)
Theorem refinement_gives_up (c : CriticBase) (config : IterativeRefinementConfig)
    (state : ConversationState) (events : list ActionEvent) (i : Z) :
  iterative_refinement c = Some config ->
  iteration_of state = Some i ->
  max_iterations config <= i ->
  check_all (Some c) state events = (List.map (fun _ => Ok (false, None)) events, state).
Proof.
  intros Hcfg Hi Hmax. induction events as [|ev rest IH]; [reflexivity|].
  cbn [check_all List.map].
  destruct (check_outcomes (Some c) state ev i Hi)
    as [(config' & cr & c' & [= <-] & Hcfg' & _ & Hlt & _) | [_ Hout]].
  - rewrite Hcfg in Hcfg'. injection Hcfg' as <-. lia.
  - cbv zeta in Hout. rewrite Hout, IH. reflexivity.
Qed.

(** X3. The check writes no key of [agent_state] but its own counter: every
    other key reads the same after the call, whether the call continues,
    stops or raises. *)
Theorem refinement_keeps_other_keys (critic : option CriticBase)
    (state : ConversationState) (action_event : ActionEvent) (k : string) :
  k <> ITERATIVE_REFINEMENT_ITERATION_KEY ->
  agent_state (snd (_check_iterative_refinement critic state action_event)) !! k
  = agent_state state !! k.
Proof.
  intros Hk. unfold _check_iterative_refinement.
  destruct critic as [c|]; [|reflexivity].
  destruct (iterative_refinement c) as [config|]; [|reflexivity].
  destruct (as_int _) as [i|e]; [|reflexivity].
  destruct (i >=? max_iterations config); [reflexivity|].
  destruct (critic_result action_event) as [cr|]; [|reflexivity].
  destruct (Qle_bool _ _); [reflexivity|].
  simpl. now rewrite lookup_insert_ne by congruence.
Qed.

(** X4. With a refinement configuration, the check raises exactly when the
    stored counter is not a number ([None] or a string): it then raises
    [TypeError] before anything is written, and the state is unchanged. *)
Theorem refinement_counter_type (c : CriticBase) (config : IterativeRefinementConfig)
    (state : ConversationState) (action_event : ActionEvent) :
  iterative_refinement c = Some config ->
  let out := _check_iterative_refinement (Some c) state action_event in
  (raised (fst out) = true <-> iteration_of state = None) /\
  (iteration_of state = None -> out = (Raise TypeError, state)).
Proof.
  intros Hcfg out. subst out. unfold _check_iterative_refinement, iteration_of.
  rewrite Hcfg.
  destruct (agent_state state !! ITERATIVE_REFINEMENT_ITERATION_KEY) as [[| b | z | s]|];
    simpl.
  1,4: split; [split; reflexivity|reflexivity].
  all: split; [|discriminate]; split; [|discriminate].
  all: repeat match goal with
         | |- context [if ?b then _ else _] => destruct b
         | |- context [match critic_result ?e with _ => _ end] =>
             destruct (critic_result e)
         end; simpl; discriminate.
Qed.

End RefinementFacts.

(** Five finish actions with a low score on a fresh conversation: three
    continuations, then the agent is let go. *)
Example five_low_scores :
  List.map Refinement.should_continue
    (fst (Refinement.check_all (Some test_critic) fresh_conversation
            (replicate 5 low_score_finish)))
  = [true; true; true; false; false].
Proof. vm_compute. reflexivity. Qed.

Lemma refinement_bounded_witness :
  let run := Refinement.check_all (Some test_critic) fresh_conversation
               (replicate 5 low_score_finish) in
  Forall (fun out => Refinement.raised out = false) (fst run) /\
  Z.of_nat (Refinement.continues (fst run)) <= Z.max 0 (3 - 0) /\
  CriticRefine.iteration_of (snd run)
  = Some (0 + Z.of_nat (Refinement.continues (fst run))).
Proof.
  exact (refinement_bounded test_critic _ fresh_conversation
           (replicate 5 low_score_finish) 0 eq_refl
           ltac:(vm_compute; reflexivity)).
Defined.

Lemma refinement_gives_up_witness :
  Refinement.check_all (Some test_critic) refined_conversation [low_score_finish]
  = ([Ok (false, None)], refined_conversation).
Proof.
  exact (refinement_gives_up test_critic _ refined_conversation [low_score_finish] 3
           eq_refl ltac:(vm_compute; reflexivity) ltac:(simpl; lia)).
Defined.

Lemma refinement_keeps_other_keys_witness :
  CriticRefine.agent_state
    (snd (CriticRefine._check_iterative_refinement (Some test_critic)
            fresh_conversation low_score_finish)) !! "plan"
  = CriticRefine.agent_state fresh_conversation !! "plan".
Proof.
  apply refinement_keeps_other_keys. discriminate.
Defined.

Lemma refinement_counter_type_witness :
  CriticRefine._check_iterative_refinement (Some test_critic)
    broken_conversation low_score_finish
  = (Raise TypeError, broken_conversation).
Proof.
  apply (proj2 (refinement_counter_type test_critic _ broken_conversation
                  low_score_finish eq_refl)).
  vm_compute. reflexivity.
Defined.


(** ** Using the LLM registry *)
Section RegistryUse.
Import Registry.
Variable alloc : gset loc -> loc.

Lemma set_metrics_usage (w : world) (llm : loc) (x : option loc) (l : loc) :
  usage_id <$> heap (set_metrics w llm x) !! l = usage_id <$> heap w !! l.
Proof.
  simpl. destruct (decide (l = llm)) as [->|Hne].
  - rewrite lookup_alter_eq. now destruct (heap w !! llm).
  - now rewrite lookup_alter_ne.
Qed.

(** Looking at the metrics of an instance, and resetting them when they are
    shared, succeeds on every instance; it leaves the mapping, the subscriber
    and the usage ids alone. *)
Lemma ensure_independent_ok (w : world) (llm : loc) (o : LLM) :
  heap w !! llm = Some o ->
  exists w1,
    _ensure_independent_metrics alloc w llm = (Ok tt, w1) /\
    _usage_to_llm (registry w1) = _usage_to_llm (registry w) /\
    subscriber (registry w1) = subscriber (registry w) /\
    delivered w1 = delivered w /\
    (forall l, usage_id <$> heap w1 !! l = usage_id <$> heap w !! l).
Proof.
  intros Ho. unfold _ensure_independent_metrics, metrics at 1, deref. rewrite Ho.
  destruct (_metrics o) as [m|] eqn:Hm.
  - destruct (decide (m ∈ _metrics_ids (registry w))) as [Hin|Hnin].
    + unfold reset_metrics, metrics, deref. simpl. rewrite lookup_alter_eq, Ho. simpl.
      eexists. split; [reflexivity|]. simpl. repeat split.
      intros l. rewrite <- (set_metrics_usage w llm None l).
      apply (set_metrics_usage (set_metrics w llm None) llm _ l).
    + eexists. split; [reflexivity|]. simpl. repeat split.
  - simpl. destruct (decide (_ ∈ _)).
    + unfold reset_metrics, metrics, deref. simpl. rewrite !lookup_alter_eq, Ho. simpl.
      eexists. split; [reflexivity|]. simpl. repeat split.
      intros l.
      rewrite <- (set_metrics_usage w llm (Some (alloc (live_metrics (heap w)))) l).
      rewrite <- (set_metrics_usage (set_metrics w llm (Some (alloc (live_metrics (heap w)))))
                    llm None l).
      apply (set_metrics_usage
               (set_metrics (set_metrics w llm (Some (alloc (live_metrics (heap w)))))
                  llm None) llm _ l).
    + eexists. split; [reflexivity|]. simpl. repeat split.
      intros l. apply (set_metrics_usage w llm _ l).
Qed.

(** The two ways an [add] ends. *)
Lemma add_cases (w : world) (llm : loc) :
  (exists e, add alloc w llm = (Raise e, w) /\
             forall o, heap w !! llm = Some o ->
                       is_Some (_usage_to_llm (registry w) !! usage_id o))
  \/
  (exists o w',
      add alloc w llm = (Ok tt, w') /\
      heap w !! llm = Some o /\
      _usage_to_llm (registry w) !! usage_id o = None /\
      _usage_to_llm (registry w') = (<[usage_id o := llm]> (_usage_to_llm (registry w))) /\
      subscriber (registry w') = subscriber (registry w) /\
      delivered w' = delivered w ++ (if subscriber (registry w) then [llm] else []) /\
      (forall l, usage_id <$> heap w' !! l = usage_id <$> heap w !! l)).
Proof.
  unfold add, deref. destruct (heap w !! llm) as [o|] eqn:Ho.
  2:{ left. eexists. split; [reflexivity|]. discriminate. }
  destruct (decide (is_Some _)) as [Hreg|Hfree].
  { left. eexists. split; [reflexivity|]. now intros o' [= <-]. }
  right. destruct (ensure_independent_ok w llm o Ho) as (w1 & -> & Hmap & Hsub & Hdel & Hids).
  exists o. eexists. split; [reflexivity|]. split; [reflexivity|].
  split. { now apply eq_None_not_Some. }
  unfold notify, register. simpl. rewrite Hsub.
  destruct (subscriber (registry w)); simpl; rewrite Hmap, Hdel, ?app_nil_r;
    repeat split; exact Hids.
Qed.

(** X5. After an [add] that returned, [get] with the usage id of the added
    instance returns that very instance, and [get] with any other usage id
    answers as before the [add]. *)
Theorem add_then_get (w w' : world) (llm : loc) :
  add alloc w llm = (Ok tt, w') ->
  exists o,
    heap w !! llm = Some o /\
    get w' (usage_id o) = Ok llm /\
    (forall u, u <> usage_id o -> get w' u = get w u).
Proof.
  intros Hadd.
  destruct (add_cases w llm) as [(e & He & _) | (o & w1 & Hok & Ho & _ & Hmap & _)];
    [congruence|].
  rewrite Hadd in Hok. injection Hok as <-.
  exists o. split; [exact Ho|]. unfold get. rewrite Hmap. split.
  - now rewrite lookup_insert_eq.
  - intros u Hu. now rewrite lookup_insert_ne by congruence.
Qed.

Lemma find_agree {A : Type} (f g : A -> bool) (l : list A) :
  (forall x, f x = g x) -> List.find f l = List.find g l.
Proof.
  intros H. induction l as [|x l IH]; [reflexivity|].
  simpl. now rewrite H, IH.
Qed.

Lemma get_add_all (llms : list loc) :
  forall (w : world) (u : string),
    get (add_all alloc w llms) u
    = match _usage_to_llm (registry w) !! u with
      | Some l => Ok l
      | None =>
          match List.find (fun l => bool_decide (usage_id <$> heap w !! l = Some u)) llms with
          | Some l => Ok l
          | None => Raise (KeyError "Usage ID not found in registry")
          end
      end.
Proof.
  induction llms as [|llm rest IH]; intros w u.
  { simpl. unfold get. now destruct (_ !! u). }
  cbn [add_all foldl List.find]. change (foldl _ ?a rest) with (add_all alloc a rest).
  rewrite IH.
  destruct (add_cases w llm)
    as [(e & -> & Hreg) | (o & w' & -> & Ho & Hfree & Hmap & _ & _ & Hids)]; simpl.
  - destruct (_usage_to_llm (registry w) !! u) as [l|] eqn:Hu; [reflexivity|].
    case_bool_decide as Hllm; [|reflexivity].
    destruct (heap w !! llm) as [o|] eqn:Ho; [|discriminate].
    injection Hllm as <-. destruct (Hreg o eq_refl) as [x Hx]. congruence.
  - rewrite Hmap. destruct (decide (u = usage_id o)) as [->|Hne].
    + rewrite lookup_insert_eq, Hfree, Ho. simpl. now rewrite bool_decide_eq_true_2.
    + rewrite lookup_insert_ne by congruence.
      destruct (_usage_to_llm (registry w) !! u); [reflexivity|].
      rewrite Ho. simpl. rewrite bool_decide_eq_false_2 by congruence.
      erewrite find_agree; [reflexivity|].
      intros l. simpl. now rewrite Hids.
Qed.

(** X6. In a registry filled by a sequence of [add] calls, the first instance
    added with a usage id is the one [get] returns for it: a later instance
    with the same usage id never replaces it, and [get] raises [KeyError] for
    a usage id that no added instance carried. *)
Theorem first_registration_wins (h : gmap loc LLM) (subscribed : bool)
    (llms : list loc) (u : string) :
  get (add_all alloc (new_registry h subscribed) llms) u
  = match List.find (fun l => bool_decide (usage_id <$> h !! l = Some u)) llms with
    | Some l => Ok l
    | None => Raise (KeyError "Usage ID not found in registry")
    end.
Proof. rewrite get_add_all. simpl. now rewrite lookup_empty. Qed.

(** X7. An instance whose metrics object is not tracked by the registry keeps
    it through [add]: the usage accumulated so far is not lost, no instance
    is modified, and the object is tracked from then on. *)
Theorem add_keeps_own_metrics (w : world) (llm : loc) (o : LLM) (m : loc) :
  heap w !! llm = Some o ->
  _usage_to_llm (registry w) !! usage_id o = None ->
  _metrics o = Some m ->
  m ∉ _metrics_ids (registry w) ->
  exists w',
    add alloc w llm = (Ok tt, w') /\
    heap w' = heap w /\
    metrics_of w' (usage_id o) = Some m /\
    m ∈ _metrics_ids (registry w').
Proof.
  intros Ho Hfree Hm Hnin. unfold add, deref. rewrite Ho.
  destruct (decide (is_Some _)) as [[x Hx]|_]; [congruence|].
  unfold _ensure_independent_metrics, metrics, deref. rewrite Ho, Hm.
  destruct (decide (m ∈ _)) as [Hin|_]; [contradiction|].
  eexists. split; [reflexivity|]. unfold notify, register, track.
  destruct (subscriber (registry w)); simpl; (split; [reflexivity|]); split.
  1,3: unfold metrics_of; simpl; rewrite lookup_insert_eq; simpl; now rewrite Ho.
  all: apply elem_of_union_l; now apply elem_of_singleton.
Qed.

Lemma delivered_add_all (llms : list loc) :
  forall w : world,
    subscriber (registry (add_all alloc w llms)) = subscriber (registry w) /\
    (subscriber (registry w) = true ->
     delivered w ≡ₚ (map_to_list (_usage_to_llm (registry w))).*2 ->
     delivered (add_all alloc w llms)
       ≡ₚ (map_to_list (_usage_to_llm (registry (add_all alloc w llms)))).*2) /\
    (subscriber (registry w) = false ->
     delivered (add_all alloc w llms) = delivered w).
Proof.
  induction llms as [|llm rest IH]; intros w; [now repeat split|].
  cbn [add_all foldl]. change (foldl _ ?a rest) with (add_all alloc a rest).
  destruct (IH (snd (add alloc w llm))) as (IHs & IHt & IHf).
  destruct (add_cases w llm)
    as [(e & Hadd & _) | (o & w' & Hadd & _ & Hfree & Hmap & Hsub & Hdel & _)];
    rewrite Hadd in *; simpl in *.
  - now repeat split.
  - rewrite IHs, Hsub. split; [reflexivity|]. split.
    + intros Hs Hperm. apply IHt; [congruence|].
      rewrite Hdel, Hs, Hmap, map_to_list_insert by exact Hfree.
      rewrite fmap_cons. simpl. rewrite <- Hperm.
      symmetry. apply Permutation_cons_append.
    + intros Hs. rewrite IHf by congruence. rewrite Hdel, Hs. apply app_nil_r.
Qed.

(** X8. In a registry filled by a sequence of [add] calls, the subscriber has
    been called once for each registered instance and for nothing else: a
    rejected [add] emits no event.  Without a subscriber no event is kept. *)
Theorem one_event_per_registration (h : gmap loc LLM) (subscribed : bool)
    (llms : list loc) :
  let w := add_all alloc (new_registry h subscribed) llms in
  if subscribed
  then delivered w ≡ₚ (map_to_list (_usage_to_llm (registry w))).*2
  else delivered w = [].
Proof.
  intros w. subst w.
  destruct (delivered_add_all llms (new_registry h subscribed)) as (_ & Ht & Hf).
  destruct subscribed.
  - apply Ht; [reflexivity|]. simpl. now rewrite map_to_list_empty.
  - now apply Hf.
Qed.

End RegistryUse.

Lemma add_then_get_witness :
  exists o,
    Registry.heap (Registry.new_registry shared_heap true) !! 1%positive = Some o /\
    Registry.get
      (snd (Registry.add fresh (Registry.new_registry shared_heap true) 1%positive))
      (Registry.usage_id o) = Ok 1%positive.
Proof.
  destruct (add_then_get fresh (Registry.new_registry shared_heap true)
              (snd (Registry.add fresh (Registry.new_registry shared_heap true) 1%positive))
              1%positive ltac:(vm_compute; reflexivity)) as (o & Ho & Hget & _).
  exists o. split; assumption.
Defined.

(** The copy of the agent's instance is registered under its own usage id;
    a second instance for "agent" is turned away. *)
Example second_agent_rejected :
  Registry.get
    (Registry.add_all fresh
       (Registry.new_registry
          (<[3%positive := {| Registry.usage_id := "agent"; Registry._metrics := None |}]>
             shared_heap) true)
       [1%positive; 2%positive; 3%positive]) "agent"
  = Ok 1%positive.
Proof. vm_compute. reflexivity. Qed.

Lemma add_keeps_own_metrics_witness :
  exists w',
    Registry.add fresh (Registry.new_registry shared_heap true) 1%positive = (Ok tt, w') /\
    Registry.metrics_of w' "agent" = Some 5%positive.
Proof.
  destruct (add_keeps_own_metrics fresh (Registry.new_registry shared_heap true) 1%positive
              {| Registry.usage_id := "agent"; Registry._metrics := Some 5%positive |}
              5%positive
              ltac:(vm_compute; reflexivity) ltac:(vm_compute; reflexivity) eq_refl
              ltac:(vm_compute; set_solver))
    as (w' & Hadd & _ & Hm & _).
  exists w'. split; assumption.
Defined.


(** ** The set-up of the GraySwan analyzer *)
Section GraySwanSetupFacts.
Import PyNum Json GraySwan GraySwanSetup.
Context {event message : Type}.
Variable getenv : string -> option string.

(** X9. After [model_post_init] the analyzer has no usable key exactly when
    an empty key was given, or no key was given and the environment holds
    none or an empty one; a given key, even an empty one, is never replaced
    by the environment's.  An analyzer without a usable key answers
    [UNKNOWN] to every analysis, whatever the transport would return. *)
Theorem api_key_resolution (a : GraySwanAnalyzer) :
  (no_api_key (model_post_init getenv a) = true <->
   api_key a = Some "" \/
   (api_key a = None /\ not_str (getenv "GRAYSWAN_API_KEY") = true)) /\
  (forall k, api_key a = Some k -> api_key (model_post_init getenv a) = Some k) /\
  (no_api_key (model_post_init getenv a) = true ->
   forall (convert : list event -> pyresult (list message))
          (post : @request message -> http_outcome) _events action,
     security_risk convert post (model_post_init getenv a) _events action = Ok UNKNOWN).
Proof.
  split; [|split].
  - unfold no_api_key, model_post_init, not_str. simpl.
    destruct (api_key a) as [k|].
    + split.
      * intros H. left. f_equal. now apply String.eqb_eq.
      * intros [[= ->] | [[=] _]]. reflexivity.
    + destruct (getenv "GRAYSWAN_API_KEY") as [k|]; simpl.
      * destruct (String.eqb k "") eqn:Hk; simpl; [|rewrite Hk]; intuition congruence.
      * intuition congruence.
  - intros k Hk. unfold model_post_init. simpl. now rewrite Hk.
  - intros Hno convert post _events action. unfold security_risk. now rewrite Hno.
Qed.

(** X10. After [model_post_init] the analyzer always has a policy id, and it
    is not empty: the one given when it is not empty; else, when none was
    given, the one of the environment when that is not empty; else the
    default policy.  An empty policy id that was given is not looked up in
    the environment.  The other settings are left as given. *)
Theorem policy_id_resolution (a : GraySwanAnalyzer) :
  let a' := model_post_init getenv a in
  (exists p, policy_id a' = Some p /\ p <> "") /\
  (forall p, policy_id a = Some p -> p <> "" -> policy_id a' = Some p) /\
  (forall p, policy_id a = None -> getenv "GRAYSWAN_POLICY_ID" = Some p -> p <> "" ->
             policy_id a' = Some p) /\
  (policy_id a = Some "" \/
   (policy_id a = None /\ not_str (getenv "GRAYSWAN_POLICY_ID") = true) ->
   policy_id a' = Some DEFAULT_POLICY_ID) /\
  history_limit a' = history_limit a /\
  low_threshold a' = low_threshold a /\
  medium_threshold a' = medium_threshold a /\
  api_url a' = api_url a.
Proof.
  assert (Hne : forall p, p <> "" -> String.eqb p "" = false)
    by (intros p Hp; now apply String.eqb_neq).
  assert (Hnz : forall p, String.eqb p "" = false -> p <> "")
    by (intros p Hp; now apply String.eqb_neq).
  cbv zeta. unfold model_post_init, not_str. simpl.
  split; [|split; [|split; [|split]]].
  - destruct (policy_id a) as [p|]; [|destruct (getenv "GRAYSWAN_POLICY_ID") as [p|]];
      try destruct (String.eqb p "") eqn:Hp; eauto; eexists; split; eauto; discriminate.
  - intros p -> Hp. now rewrite (Hne p Hp).
  - intros p -> -> Hp. now rewrite (Hne p Hp).
  - intros [-> | [-> Henv]]; [reflexivity|].
    destruct (getenv "GRAYSWAN_POLICY_ID") as [p|]; [|reflexivity].
    simpl in Henv. now rewrite Henv.
  - repeat split.
Qed.

End GraySwanSetupFacts.

(** ** The history an analysis looks at *)
Section HistoryWindow.
Import PyNum Json GraySwan.
Context {event message : Type}.
Variable convert : list event -> pyresult (list message).
Variable post : @request message -> http_outcome.

Lemma slice_last_suffix {A : Type} (old recent : list A) :
  (0 < length recent)%nat ->
  slice_last (old ++ recent) (Z.of_nat (length recent)) = recent.
Proof.
  intros Hpos. unfold slice_last.
  destruct (Z.ltb_spec (- Z.of_nat (length recent)) 0) as [_|H]; [|lia].
  rewrite length_app.
  replace (Z.to_nat _) with (length old) by lia.
  apply drop_app_length.
Qed.

(** X11. With a history limit of at least one, an analysis depends on the
    last [history_limit] events of the history only: older events change
    nothing in the result. *)
Theorem history_window (a : GraySwanAnalyzer) (old recent : list event) (action : event) :
  1 <= history_limit a ->
  Z.of_nat (length recent) = history_limit a ->
  security_risk convert post a (old ++ recent) action
  = security_risk convert post a recent action.
Proof.
  intros Hlim Hlen. unfold security_risk.
  destruct (no_api_key a); [reflexivity|]. do 2 f_equal.
  destruct (Z.gtb_spec (Z.of_nat (length recent)) (history_limit a)) as [H|_]; [lia|].
  destruct (Z.gtb_spec (Z.of_nat (length (old ++ recent))) (history_limit a)) as [_|H].
  - rewrite <- Hlen, slice_last_suffix by lia. reflexivity.
  - rewrite length_app in H. destruct old; [reflexivity|simpl in H; lia].
Qed.

Lemma call_ignores_history_limit (a : GraySwanAnalyzer) (n : Z) (messages : list message) :
  _call_grayswan_api post (GraySwanSetup.with_history_limit a n) messages
  = _call_grayswan_api post a messages.
Proof. reflexivity. Qed.

Lemma slice_last_zero {A : Type} (l : list A) : slice_last l 0 = l.
Proof.
  unfold slice_last. change (- 0 <? 0) with false. cbv beta iota zeta.
  replace (Z.to_nat (Z.min (- 0) (Z.of_nat (length l)))) with 0%nat by lia.
  apply drop_0.
Qed.

(** X12. A history limit of zero does not cut the history: the slice
    [events[-0:]] is the whole list, so the analysis is the one of an
    analyzer whose limit is the length of the history. *)
Theorem history_limit_zero (a : GraySwanAnalyzer) (_events : list event) (action : event) :
  history_limit a = 0 ->
  security_risk convert post a _events action
  = security_risk convert post
      (GraySwanSetup.with_history_limit a (Z.of_nat (length _events))) _events action.
Proof.
  intros Hlim. unfold security_risk.
  change (no_api_key (GraySwanSetup.with_history_limit a (Z.of_nat (length _events))))
    with (no_api_key a).
  destruct (no_api_key a); [reflexivity|].
  change (history_limit (GraySwanSetup.with_history_limit a (Z.of_nat (length _events))))
    with (Z.of_nat (length _events)).
  rewrite Hlim, slice_last_zero.
  destruct (Z.gtb_spec (Z.of_nat (length _events)) (Z.of_nat (length _events))) as [H|_];
    [lia|].
  destruct (Z.of_nat (length _events) >? 0); reflexivity.
Qed.

End HistoryWindow.

(** ** The mapping of scores to risks *)
Section RiskOrder.
Import PyNum Json GraySwan GraySwanSetup.

(** X13. The mapping of violation scores to risks is monotone, whatever the
    thresholds are: a score that is at least another score is never mapped
    to a lower risk. *)
Theorem risk_is_monotone (a : GraySwanAnalyzer) (v1 v2 : json) (s1 s2 : pyfloat)
    (r1 r2 : SecurityRisk) :
  number v1 = Some s1 -> number v2 = Some s2 ->
  fle s1 s2 = true ->
  _map_violation_to_risk a v1 = Ok r1 ->
  _map_violation_to_risk a v2 = Ok r2 ->
  risk_rank r1 <= risk_rank r2.
Proof.
  intros H1 H2 Hle. unfold _map_violation_to_risk. rewrite H1, H2.
  destruct (fle s2 (low_threshold a)) eqn:Hlow2.
  - rewrite (fle_trans _ _ _ Hle Hlow2). intros [= <-] [= <-]. reflexivity.
  - destruct (fle s2 (medium_threshold a)) eqn:Hmed2.
    + pose proof (fle_trans _ _ _ Hle Hmed2) as Hmed1. rewrite Hmed1.
      destruct (fle s1 (low_threshold a)); intros [= <-] [= <-]; simpl; lia.
    + destruct (fle s1 (low_threshold a)); [|destruct (fle s1 (medium_threshold a))];
        intros [= <-] [= <-]; simpl; lia.
Qed.

End RiskOrder.


(** ** The conversion of events to OpenAI messages *)
Section ConversionFacts.
Import Json OpenAIMessages.
Variable json_loads : string -> pyresult json.
Variable json_dumps : json -> string.
Variable content_to_str : list content -> list string.

Abbreviation convert := (convert_events_to_openai_messages json_loads json_dumps content_to_str).
Abbreviation convert1 := (convert_event json_loads json_dumps content_to_str).

Lemma convert_app (es1 es2 : list event) :
  convert (es1 ++ es2)
  = (m1 ← convert es1; m2 ← convert es2; Ok (m1 ++ m2)).
Proof.
  induction es1 as [|e es1 IH]; simpl.
  - unfold mbind, pyresult_bind, pybind. now destruct (convert es2).
  - rewrite IH. unfold mbind, pyresult_bind, pybind.
    destruct (convert1 e); [|reflexivity].
    destruct (convert es1); [|reflexivity].
    destruct (convert es2); [|reflexivity].
    now rewrite app_assoc.
Qed.

(** X14. The conversion works event by event and keeps the order of the
    events: the messages of a history followed by another are the messages
    of the first followed by those of the second, and the conversion of the
    whole raises what the first of the two raises. *)
Theorem conversion_in_order (es1 es2 : list event) :
  convert_events_to_openai_messages json_loads json_dumps content_to_str (es1 ++ es2)
  = match convert_events_to_openai_messages json_loads json_dumps content_to_str es1 with
    | Raise e => Raise e
    | Ok m1 =>
        match convert_events_to_openai_messages json_loads json_dumps content_to_str es2
        with
        | Raise e => Raise e
        | Ok m2 => Ok (m1 ++ m2)
        end
    end.
Proof. apply convert_app. Qed.

Lemma convert_singleton (e : event) : convert [e] = convert1 e.
Proof.
  simpl. unfold mbind, pyresult_bind, pybind.
  destruct (convert1 e); [|reflexivity]. now rewrite app_nil_r.
Qed.

Lemma has_key_filter (fields : list (string * json)) (key : string) :
  has_key (List.filter (fun kv => negb (String.eqb (fst kv) key)) fields) key = false.
Proof.
  unfold has_key. induction fields as [|[k v] fields IH]; [reflexivity|].
  simpl. destruct (String.eqb k key) eqn:Hk; simpl; [exact IH|].
  now rewrite Hk.
Qed.

Lemma find_filter_agree {A : Type} (f g : A -> bool) (l : list A) :
  (forall x, g x = true -> f x = true) ->
  List.find g (List.filter f l) = List.find g l.
Proof.
  intros H. induction l as [|x l IH]; [reflexivity|].
  simpl. destruct (f x) eqn:Hf; simpl.
  - now rewrite IH.
  - destruct (g x) eqn:Hg; [|exact IH].
    apply H in Hg. congruence.
Qed.

Lemma filter_rev {A : Type} (f : A -> bool) (l : list A) :
  List.filter f (rev l) = rev (List.filter f l).
Proof.
  induction l as [|x l IH]; [reflexivity|].
  simpl. rewrite List.filter_app, IH. simpl.
  destruct (f x); simpl; [reflexivity|now rewrite app_nil_r].
Qed.

Lemma dict_get_filter (fields : list (string * json)) (key k : string) :
  k <> key ->
  dict_get (List.filter (fun kv => negb (String.eqb (fst kv) key)) fields) k
  = dict_get fields k.
Proof.
  intros Hk. unfold dict_get. rewrite <- filter_rev, find_filter_agree; [reflexivity|].
  intros [k' v]. simpl. intros Heq. apply String.eqb_eq in Heq. subst k'.
  apply negb_true_iff. now apply String.eqb_neq.
Qed.

(** X15. The tool call of an action event is sent with the arguments the
    model gave, except for the [security_risk] entry: arguments that are a
    JSON object with that entry are sent as the serialization of the object
    without it, every other entry keeping its value; arguments that are an
    object without it, and arguments that are not JSON at all, are sent
    verbatim. *)
Theorem security_risk_argument_removed (tool_call_id tool_name arguments : string)
    (thought : list string) :
  let sent (args : string) :=
    Ok [{| role := "assistant"; content_str := String.concat " " thought;
           tool_calls := Some [{| tc_id := tool_call_id; tc_type := "function";
                                  tc_name := tool_name; tc_arguments := args |}];
           msg_tool_call_id := None |}] in
  let converted := convert [ActionEvent tool_call_id tool_name arguments thought] in
  (json_loads arguments = Raise JSONDecodeError -> converted = sent arguments) /\
  (forall fields, json_loads arguments = Ok (JObj fields) ->
     (has_key fields "security_risk" = false -> converted = sent arguments) /\
     (has_key fields "security_risk" = true ->
      exists fields',
        converted = sent (json_dumps (JObj fields')) /\
        has_key fields' "security_risk" = false /\
        forall k, k <> "security_risk" -> dict_get fields' k = dict_get fields k)).
Proof.
  intros sent converted. subst sent converted. rewrite convert_singleton.
  unfold convert_event, sent_arguments. split.
  - intros ->. reflexivity.
  - intros fields ->. unfold mbind, pyresult_bind, pybind, contains, delitem.
    fold (has_key fields "security_risk"). split.
    + intros ->. reflexivity.
    + intros Hk. rewrite Hk. eexists. split; [reflexivity|].
      split; [apply has_key_filter|].
      intros k Hne. now apply dict_get_filter.
Qed.

(** X16. Arguments that parse to a JSON number, boolean or null make the
    conversion of the action event raise [TypeError]: the membership test on
    such a value is not among the errors the conversion catches.  The same
    holds for a history that ends with such an action when the events before
    it convert. *)
Theorem scalar_arguments_raise (events : list event)
    (tool_call_id tool_name arguments : string) (thought : list string) (v : json) :
  json_loads arguments = Ok v ->
  scalar v = true ->
  convert [ActionEvent tool_call_id tool_name arguments thought] = Raise TypeError /\
  (forall msgs, convert events = Ok msgs ->
     convert (events ++ [ActionEvent tool_call_id tool_name arguments thought])
     = Raise TypeError).
Proof.
  intros Hv Hs.
  assert (H1 : convert [ActionEvent tool_call_id tool_name arguments thought]
               = Raise TypeError).
  { rewrite convert_singleton. unfold convert_event, sent_arguments. rewrite Hv.
    destruct v; try discriminate; reflexivity. }
  split; [exact H1|].
  intros msgs Hm. now rewrite convert_app, Hm, H1.
Qed.

Lemma convert_event_well_formed (e : event) (msgs : list message) :
  convert1 e = Ok msgs -> Forall well_formed msgs.
Proof.
  assert (Hwf : forall r c, (r = "system" \/ r = "user" \/ r = "assistant") ->
            well_formed {| role := r; content_str := c;
                           tool_calls := None; msg_tool_call_id := None |}).
  { intros r c Hr. unfold well_formed. simpl. split; [tauto|]. split.
    - split; [intros ->; destruct Hr as [? | [? | ?]]; discriminate|].
      intros [x Hx]. discriminate.
    - split; [discriminate|]. discriminate. }
  assert (Htool : forall id c, String.eqb id "" = false ->
            well_formed {| role := "tool"; content_str := c;
                           tool_calls := None; msg_tool_call_id := Some id |}).
  { intros id c Hid. unfold well_formed. simpl. split; [tauto|]. split.
    - split; eauto.
    - split; [|discriminate]. intros [= ->]. discriminate. }
  destruct e as [p | source m | id name args thought | id c | id c | ]; simpl.
  - intros [= <-]. apply Forall_singleton, Hwf. tauto.
  - destruct (String.eqb source "user"); [|destruct (String.eqb source "agent")];
      intros [= <-]; [apply Forall_singleton, Hwf; tauto ..|constructor].
  - unfold mbind, pyresult_bind, pybind.
    destruct (sent_arguments _ _ args); [|discriminate].
    intros [= <-]. apply Forall_singleton. unfold well_formed. simpl.
    split; [tauto|]. split; [split; [discriminate|intros [x Hx]; discriminate]|].
    split; [discriminate|].
    intros calls [= <-]. split; [reflexivity|]. now apply Forall_singleton.
  - destruct (String.eqb id "") eqn:Hid; intros [= <-]; [constructor|].
    now apply Forall_singleton, Htool.
  - destruct (String.eqb id "") eqn:Hid; intros [= <-]; [constructor|].
    now apply Forall_singleton, Htool.
  - intros [= <-]. constructor.
Qed.

(** X17. Every message of a conversion that returns is well formed: its role
    is system, user, assistant or tool; a message names the tool call it
    answers exactly when it is a tool message, and that id is never empty;
    tool calls stand on assistant messages only and are function calls. *)
Theorem messages_well_formed (events : list event) (msgs : list message) :
  convert events = Ok msgs -> Forall well_formed msgs.
Proof.
  revert msgs. induction events as [|e events IH]; intros msgs; simpl.
  - intros [= <-]. constructor.
  - unfold mbind, pyresult_bind, pybind.
    destruct (convert1 e) as [m1|] eqn:He; [|discriminate].
    destruct (convert events) as [m2|]; [|discriminate].
    intros [= <-]. apply Forall_app. split.
    + now apply (convert_event_well_formed e).
    + now apply IH.
Qed.

(** X18. Image blocks of a message event are not sent: the conversion of a
    history is the same with and without an image block in the content of
    one of its message events. *)
Theorem images_not_sent (before after : list event) (source : string)
    (blocks1 blocks2 : list content) (image_urls : list string) :
  convert (before ++ MessageEvent source (blocks1 ++ ImageContent image_urls :: blocks2)
                  :: after)
  = convert (before ++ MessageEvent source (blocks1 ++ blocks2) :: after).
Proof.
  rewrite !convert_app. simpl. unfold text_parts.
  now rewrite !omap_app.
Qed.

End ConversionFacts.

(** ** The analyzer on converted events *)
Section AnalyzerOnEvents.
Import Json GraySwan OpenAIMessages.
Variable json_loads : string -> pyresult json.
Variable json_dumps : json -> string.
Variable content_to_str : list content -> list string.
Variable post : @request message -> http_outcome.

Abbreviation convert := (convert_events_to_openai_messages json_loads json_dumps content_to_str).

(** The events the analysis converts. *)
Lemma security_risk_converts (a : GraySwanAnalyzer) (_events : list event) (action : event) :
  no_api_key a = false ->
  exists recent,
    security_risk convert post a _events action
    = Ok (try_except
            (openai_messages ← convert (recent ++ [action]);
             match openai_messages with
             | [] => Ok UNKNOWN
             | _ => _call_grayswan_api post a openai_messages
             end)
            (fun _ => UNKNOWN)).
Proof.
  intros Hkey. unfold security_risk. rewrite Hkey. eexists. reflexivity.
Qed.

(** X19. An analysis of an action event never takes the way out for "no
    valid messages": when the history is within the limit and the conversion
    returns, the analysis is the answer of the API call on the converted
    messages, the last of which is the assistant message with the tool call
    of the action. *)
Theorem action_reaches_the_api (a : GraySwanAnalyzer) (_events : list event)
    (tool_call_id tool_name arguments : string) (thought : list string)
    (msgs : list message) :
  let action := ActionEvent tool_call_id tool_name arguments thought in
  no_api_key a = false ->
  Z.of_nat (length _events) <= history_limit a ->
  convert (_events ++ [action]) = Ok msgs ->
  security_risk convert post a _events action = _call_grayswan_api post a msgs /\
  exists sent,
    last msgs
    = Some {| role := "assistant"; content_str := String.concat " " thought;
              tool_calls := Some [{| tc_id := tool_call_id; tc_type := "function";
                                     tc_name := tool_name; tc_arguments := sent |}];
              msg_tool_call_id := None |}.
Proof.
  intros action Hkey Hlen Hconv. unfold security_risk. rewrite Hkey.
  destruct (Z.gtb_spec (Z.of_nat (length _events)) (history_limit a)) as [H|_]; [lia|].
  rewrite Hconv. simpl.
  rewrite convert_app in Hconv. unfold mbind, pyresult_bind, pybind in Hconv.
  destruct (convert _events) as [before|]; [|discriminate].
  subst action. rewrite convert_singleton in Hconv. simpl in Hconv.
  unfold mbind, pyresult_bind, pybind in Hconv.
  destruct (sent_arguments _ _ arguments) as [sent|]; [|discriminate].
  injection Hconv as <-. split.
  - unfold _call_grayswan_api. rewrite Hkey. now destruct before.
  - exists sent. apply last_snoc.
Qed.

(** X20. An action whose arguments parse to a JSON number, boolean or null
    is answered with [UNKNOWN] and is not sent to the API: the conversion
    raises, and the analysis takes every exception for [UNKNOWN]. *)
Theorem scalar_arguments_unknown (a : GraySwanAnalyzer) (_events : list event)
    (tool_call_id tool_name arguments : string) (thought : list string) (v : json) :
  json_loads arguments = Ok v ->
  scalar v = true ->
  security_risk convert post a _events
    (ActionEvent tool_call_id tool_name arguments thought) = Ok UNKNOWN.
Proof.
  intros Hv Hs.
  destruct (no_api_key a) eqn:Hkey.
  { unfold security_risk. now rewrite Hkey. }
  destruct (security_risk_converts a _events
              (ActionEvent tool_call_id tool_name arguments thought) Hkey)
    as (recent & ->).
  rewrite convert_app. unfold mbind, pyresult_bind, pybind.
  destruct (convert recent) as [msgs|]; [|reflexivity].
  rewrite convert_singleton. simpl. unfold sent_arguments. rewrite Hv.
  destruct v; try discriminate; reflexivity.
Qed.

End AnalyzerOnEvents.


(** ** Python string operations *)
Section StringFacts.
Import PS1.

Lemma lstrip_nil (s : str) : lstrip s = [] <-> forallb isspace s = true.
Proof.
  induction s as [|c s IH]; simpl; [tauto|].
  destruct (isspace c); simpl; [exact IH|]. split; discriminate.
Qed.

Lemma lstrip_all_space (s : str) :
  forallb isspace (lstrip s) = true <-> forallb isspace s = true.
Proof.
  induction s as [|c s IH]; simpl; [tauto|].
  destruct (isspace c) eqn:Hc; simpl; [exact IH|]. now rewrite Hc.
Qed.

Lemma forallb_rev {A : Type} (f : A -> bool) (l : list A) :
  forallb f (rev l) = forallb f l.
Proof.
  induction l as [|x l IH]; [reflexivity|].
  simpl. rewrite forallb_app, IH. simpl. rewrite andb_true_r. apply andb_comm.
Qed.

(** A string strips to nothing exactly when it is all whitespace. *)
Lemma strip_nil (s : str) : strip s = [] <-> forallb isspace s = true.
Proof.
  unfold strip. rewrite <- lstrip_all_space, <- (forallb_rev isspace (lstrip s)).
  rewrite <- lstrip_nil. split.
  - intros H. apply (f_equal (@rev ascii)) in H. now rewrite rev_involutive in H.
  - intros ->. reflexivity.
Qed.

Lemma startswith_split (p t : str) :
  startswith p t = true -> t = p ++ drop (length p) t.
Proof.
  revert t. induction p as [|a p IH]; intros t; [reflexivity|].
  destruct t as [|b t]; simpl; [discriminate|].
  intros H. apply andb_true_iff in H as [Hab Hp].
  apply Ascii.eqb_eq in Hab as ->. f_equal. now apply IH.
Qed.

End StringFacts.

(** ** The specification of a tool *)
Section ToolSpecFacts.
Import PS1 ToolSpec.

(** X21. A tool name is accepted exactly when it has a character that is not
    whitespace, and an accepted name is returned as given, not stripped; a
    name that is empty or all whitespace is refused with [ValueError]. *)
Theorem tool_name_validated (v : str) :
  (forallb isspace v = false -> validate_name v = Ok v) /\
  (forallb isspace v = true ->
   validate_name v = Raise (ValueError "Tool name cannot be empty")).
Proof.
  unfold validate_name. split; intros Hv.
  - destruct v as [|c v]; [discriminate|].
    destruct (strip (c :: v)) eqn:Hs; [|reflexivity].
    apply strip_nil in Hs. congruence.
  - apply strip_nil in Hv. rewrite Hv. simpl. now rewrite orb_true_r.
Qed.

End ToolSpecFacts.

(** ** The profile store *)
Section ProfilePathFacts.
Import PS1 ToolSpec ProfileStore.

Lemma endswith_split (suffix s : str) :
  endswith suffix s = true -> s = take (length s - length suffix) s ++ suffix.
Proof.
  unfold endswith. intros H. apply startswith_split in H.
  apply (f_equal (@rev ascii)) in H.
  rewrite rev_involutive, rev_app_distr, rev_involutive in H.
  revert H. generalize (rev (drop (length (rev suffix)) (rev s))). intros pre ->.
  rewrite length_app, Nat.add_sub. now rewrite take_app_length.
Qed.

Lemma endswith_app (suffix s : str) : endswith suffix (s ++ suffix) = true.
Proof. unfold endswith. rewrite rev_app_distr. apply startswith_app. Qed.

Lemma contains_app (c : ascii) (s t : str) :
  contains c (s ++ t) = contains c s || contains c t.
Proof. apply existsb_app. Qed.

(** What is cut off a name is the suffix, and nothing else. *)
Lemma removesuffix_spec (name : str) :
  name = removesuffix JSON_SUFFIX name \/
  name = removesuffix JSON_SUFFIX name ++ JSON_SUFFIX.
Proof.
  unfold removesuffix. change (is_empty JSON_SUFFIX) with false. cbn [negb andb].
  destruct (endswith JSON_SUFFIX name) eqn:H; [|now left].
  right. now apply endswith_split.
Qed.

Lemma profile_path_stem (name path : str) :
  _get_profile_path name = Ok path ->
  path = removesuffix JSON_SUFFIX name ++ JSON_SUFFIX.
Proof.
  unfold _get_profile_path. destruct (_ || _); [discriminate|]. now intros [= <-].
Qed.

(** X22. The file of a profile lies in the directory of the store itself: an
    accepted name yields a file name that ends in [.json], has a stem that is
    not empty and does not begin with a dot, and holds no slash and no
    backslash.  A name with a slash or a backslash anywhere is refused with
    [ValueError]. *)
Theorem profile_path_confined (name : str) :
  (forall path, _get_profile_path name = Ok path ->
     exists clean_name,
       path = clean_name ++ JSON_SUFFIX /\ clean_name <> [] /\
       startswith [DOT] path = false /\
       contains SLASH path = false /\ contains BACKSLASH path = false) /\
  (contains SLASH name = true \/ contains BACKSLASH name = true ->
   _get_profile_path name = Raise (ValueError "Invalid profile name")).
Proof.
  unfold _get_profile_path. split.
  - intros path.
    destruct (is_empty _) eqn:He; [discriminate|].
    destruct (contains SLASH _) eqn:Hs; [discriminate|].
    destruct (contains BACKSLASH _) eqn:Hb; [discriminate|].
    destruct (startswith [DOT] _) eqn:Hd; [discriminate|].
    simpl. intros [= <-]. eexists. split; [reflexivity|].
    destruct (removesuffix JSON_SUFFIX name) as [|c clean]; [discriminate|].
    split; [discriminate|]. rewrite !contains_app, Hs, Hb.
    split; [|split; reflexivity].
    simpl in Hd |- *. exact Hd.
  - intros Hsep.
    assert (Hclean : contains SLASH (removesuffix JSON_SUFFIX name) = true \/
                     contains BACKSLASH (removesuffix JSON_SUFFIX name) = true).
    { destruct (removesuffix_spec name) as [H | H]; rewrite H in Hsep; [exact Hsep|].
      rewrite !contains_app in Hsep. simpl in Hsep. rewrite !orb_false_r in Hsep.
      exact Hsep. }
    destruct Hclean as [-> | ->]; now rewrite ?orb_true_r.
Qed.

End ProfilePathFacts.

Section ProfileStoreFacts.
Import PS1 ToolSpec.
Context {LLM : Type}.
Variable model_dump_json : LLM -> bool -> ProfileStore.str.
Variable load_from_json : ProfileStore.str -> pyresult LLM.
Variable mktemp : gmap ProfileStore.str ProfileStore.str -> ProfileStore.str.

Abbreviation save := (ProfileStore.save model_dump_json mktemp).
Abbreviation load := (ProfileStore.load load_from_json).

Lemma profile_path_suffix (name path : ProfileStore.str) :
  ProfileStore._get_profile_path name = Ok path ->
  ProfileStore.endswith ProfileStore.JSON_SUFFIX path = true.
Proof.
  intros H. rewrite (profile_path_stem name path H). apply endswith_app.
Qed.

(** X23. A profile that was saved can be loaded again under the same name:
    [load] parses the very text [save] wrote, the profile is listed, and no
    other file of the directory has changed; in particular the temporary
    file is gone.  This holds for a temporary file name that is new in the
    directory and, as its suffix is [.tmp], does not end in [.json]. *)
Theorem save_then_load (s s' : ProfileStore.store) (name : ProfileStore.str)
    (llm : LLM) (include_secrets : bool) :
  ProfileStore.files s !! mktemp (ProfileStore.files s) = None ->
  ProfileStore.endswith ProfileStore.JSON_SUFFIX (mktemp (ProfileStore.files s)) = false ->
  save s name llm include_secrets = (Ok tt, s') ->
  exists path,
    ProfileStore._get_profile_path name = Ok path /\
    ProfileStore.files s'
    = <[path := model_dump_json llm include_secrets]> (ProfileStore.files s) /\
    load s' name
    = match load_from_json (model_dump_json llm include_secrets) with
      | Ok llm_instance => Ok llm_instance
      | Raise _ => Raise (ValueError "Failed to load profile")
      end /\
    ProfileStore.list s' = Ok (ProfileStore.glob_json s') /\
    path ∈ ProfileStore.glob_json s'.
Proof.
  intros Hfresh Htmp. unfold ProfileStore.save.
  destruct (ProfileStore._get_profile_path name) as [path|] eqn:Hpath; [|discriminate].
  destruct (ProfileStore.lock_free s) eqn:Hlock; [|discriminate].
  intros [= <-]. exists path. split; [reflexivity|].
  assert (Hfiles : base.delete (mktemp (ProfileStore.files s))
                     (<[mktemp (ProfileStore.files s) := model_dump_json llm include_secrets]>
                        (ProfileStore.files s))
                   = ProfileStore.files s).
  { rewrite delete_insert_eq. now apply delete_id. }
  simpl. rewrite Hfiles. split; [reflexivity|].
  unfold ProfileStore.load, ProfileStore.list. rewrite Hpath. simpl.
  rewrite Hlock, lookup_insert_eq. split; [reflexivity|]. split; [reflexivity|].
  unfold ProfileStore.glob_json. simpl.
  apply list_elem_of_In, filter_In. split.
  - apply list_elem_of_In, list_elem_of_fmap.
    exists (path, model_dump_json llm include_secrets). split; [reflexivity|].
    apply elem_of_map_to_list, lookup_insert_eq.
  - now apply profile_path_suffix with name.
Qed.

(** X24. After [delete] the profile cannot be loaded any more: [load] raises
    [FileNotFoundError].  The call removes the file of the profile and no
    other file, and when there is no such file it changes nothing at all. *)
Theorem delete_then_load (s s' : ProfileStore.store) (name : ProfileStore.str) :
  ProfileStore.delete s name = (Ok tt, s') ->
  exists path,
    ProfileStore._get_profile_path name = Ok path /\
    ProfileStore.files s' = base.delete path (ProfileStore.files s) /\
    load s' name = Raise ProfileStore.FileNotFoundError /\
    (ProfileStore.files s !! path = None -> s' = s).
Proof.
  unfold ProfileStore.delete.
  destruct (ProfileStore._get_profile_path name) as [path|] eqn:Hpath; [|discriminate].
  destruct (ProfileStore.lock_free s) eqn:Hlock; [|discriminate].
  destruct (ProfileStore.files s !! path) as [text|] eqn:Hfile; intros [= <-];
    exists path; (split; [reflexivity|]); unfold ProfileStore.load; rewrite Hpath; simpl;
    rewrite Hlock.
  - rewrite lookup_delete_eq. split; [reflexivity|]. split; [reflexivity|].
    congruence.
  - rewrite Hfile. split; [symmetry; now apply delete_id|]. split; reflexivity.
Qed.

End ProfileStoreFacts.


(** ** The recording of browser events *)
Section RecordingFacts.
Import Recording.
Context {event : Type}.
Variable timestamp : nat -> string.
Variable writable : string -> bool.

Abbreviation flush_round := (@Recording.flush_round event timestamp writable).
Abbreviation flush_rounds := (@Recording.flush_rounds event timestamp writable).

Lemma append_nonempty (a b : string) : b <> "" -> (a ++ b)%string <> "".
Proof.
  intros Hb. destruct a as [|c a]; [exact Hb|].
  change ((String c a ++ b)%string) with (String c (a ++ b)). discriminate.
Qed.

(** A path joined with a file name is not the empty string. *)
Lemma path_join_nonempty (a b : string) : b <> "" -> path_join a b <> "".
Proof.
  intros Hb. unfold path_join.
  destruct (String.prefix "/" b); [exact Hb|].
  destruct (_ || _); [now apply append_nonempty|].
  apply append_nonempty. now apply append_nonempty.
Qed.

Lemma json_name_nonempty (t : string) : (t ++ ".json")%string <> "".
Proof. apply append_nonempty. discriminate. Qed.

(** What one call of [save_events] does. *)
Lemma save_events_spec (self : EventStorage) (w : world) (events : list event) :
  let '(out, self', w') := save_events timestamp writable self w events in
  output_dir self' = output_dir self /\ _session_dir self' = _session_dir self /\
  ((exists filepath, out = Ok (Some filepath) /\ filepath <> "" /\ events <> [] /\
                     written w' = written w ++ [(filepath, events)] /\
                     _files_written self' = _files_written self + 1 /\
                     _total_events self' = _total_events self + Z.of_nat (length events))
   \/
   ((out = Ok None \/ out = Raise OSError) /\
    written w' = written w /\ self' = self)).
Proof.
  unfold save_events.
  destruct (_session_dir self) as [dir|] eqn:Hdir; [|simpl; auto 6].
  destruct (String.eqb dir "" || is_nil events) eqn:Hskip; [simpl; auto 6|].
  apply orb_false_iff in Hskip as [_ Hev].
  destruct (writable _); simpl; [|auto 6].
  split; [reflexivity|]. split; [reflexivity|]. left. eexists. split; [reflexivity|].
  split; [apply path_join_nonempty, json_name_nonempty|].
  split; [now destruct events|]. repeat split.
Qed.

(** What one round of the flush loop does to a session that is recording. *)
Lemma flush_round_spec (self : RecordingSession) (w : world)
    (browser : pyresult (list event)) :
  _is_recording self = true ->
  let '(self', w') := flush_round self w browser in
  _is_recording self' = true /\
  exists new,
    written w' = written w ++ new /\
    concat new.*2 ++ _events self' = _events self ++ delivered browser /\
    _files_written (_storage self') = _files_written (_storage self) + Z.of_nat (length new) /\
    _total_events (_storage self') = _total_events (_storage self) + events_in new.
Proof.
  intros Hrec. unfold Recording.flush_round, flush_events. rewrite Hrec.
  set (self1 := snd _).
  assert (H1 : _is_recording self1 = true /\ _storage self1 = _storage self /\
               _events self1 = _events self ++ delivered browser).
  { subst self1. destruct browser as [events|e]; simpl.
    - destruct events; simpl; rewrite ?app_nil_r; auto.
    - rewrite app_nil_r. auto. }
  destruct H1 as (Hrec1 & Hst1 & Hev1). rewrite <- Hev1, <- Hst1. clearbody self1.
  destruct (is_nil (_events self1)) eqn:Hnil.
  { split; [exact Hrec1|]. exists []. simpl. rewrite app_nil_r, !Z.add_0_r. auto. }
  unfold _save_and_clear_events. rewrite Hnil.
  pose proof (save_events_spec (_storage self1) w (_events self1)) as Hsave.
  revert Hsave.
  destruct (save_events timestamp writable (_storage self1) w (_events self1))
    as [[out st] w'].
  intros Hsave.
  destruct Hsave as (_ & _ & [(filepath & -> & Hpath & _ & Hw & Hfiles & Htotal)
                             | ([-> | ->] & Hw & ->)]); simpl.
  - assert (Hne : String.eqb filepath "" = false) by now apply String.eqb_neq.
    rewrite ?Hne; simpl; rewrite ?Hne; simpl. split; [exact Hrec1|].
    exists [(filepath, _events self1)]. unfold events_in. simpl.
    rewrite !app_nil_r. auto.
  - split; [exact Hrec1|]. exists []. simpl. rewrite Hw, app_nil_r, !Z.add_0_r. auto.
  - split; [exact Hrec1|]. exists []. simpl. rewrite Hw, app_nil_r, !Z.add_0_r. auto.
Qed.

Lemma flush_rounds_spec (answers : list (pyresult (list event))) :
  forall (self : RecordingSession) (w : world),
    _is_recording self = true ->
    let '(self', w') := flush_rounds self w answers in
    exists new,
      written w' = written w ++ new /\
      concat new.*2 ++ _events self' = _events self ++ concat (delivered <$> answers) /\
      _files_written (_storage self')
      = _files_written (_storage self) + Z.of_nat (length new) /\
      _total_events (_storage self') = _total_events (_storage self) + events_in new.
Proof.
  induction answers as [|browser answers IH]; intros self w Hrec.
  { simpl. exists []. simpl. rewrite !app_nil_r, !Z.add_0_r. auto. }
  unfold Recording.flush_rounds. cbn [foldl fst snd].
  pose proof (flush_round_spec self w browser Hrec) as H1. revert H1.
  destruct (flush_round self w browser) as [self1 w1]. intros H1.
  destruct H1 as (Hrec1 & new1 & Hw1 & Hev1 & Hf1 & Ht1).
  specialize (IH self1 w1 Hrec1). unfold Recording.flush_rounds in IH. revert IH.
  destruct (foldl _ (self1, w1) answers) as [self' w']. intros IH.
  destruct IH as (new2 & Hw2 & Hev2 & Hf2 & Ht2).
  exists (new1 ++ new2). rewrite Hw2, Hw1, Hf2, Hf1, Ht2, Ht1.
  split; [now rewrite app_assoc|]. split.
  - rewrite fmap_app, concat_app, <- app_assoc, Hev2, app_assoc, Hev1.
    now rewrite fmap_cons, concat_cons, app_assoc.
  - unfold events_in. rewrite fmap_app, concat_app, !length_app. split; lia.
Qed.

(** X25. No event is lost or written twice by the periodic flush, whatever
    rounds fail: after any number of rounds of a recording session, the
    events in the files written during these rounds, oldest file first,
    followed by the events still in the buffer, are the events that were in
    the buffer before, followed by those the browser delivered, in order. *)
Theorem flush_keeps_every_event (self : RecordingSession) (w : world)
    (answers : list (pyresult (list event))) :
  _is_recording self = true ->
  exists new,
    written (snd (flush_rounds self w answers)) = written w ++ new /\
    concat new.*2 ++ _events (fst (flush_rounds self w answers))
    = _events self ++ concat (delivered <$> answers).
Proof.
  intros Hrec. pose proof (flush_rounds_spec answers self w Hrec) as H. revert H.
  destruct (flush_rounds self w answers) as [self' w'].
  intros (new & Hw & Hev & _). exists new. auto.
Qed.

(** X26. The counters of the storage agree with what was written: over any
    rounds of the periodic flush of a recording session, [file_count] grows
    by the number of files written and [total_events] by the number of
    events in them; a round that fails to write counts nothing. *)
Theorem counters_match_files (self : RecordingSession) (w : world)
    (answers : list (pyresult (list event))) :
  _is_recording self = true ->
  exists new,
    written (snd (flush_rounds self w answers)) = written w ++ new /\
    file_count (_storage (fst (flush_rounds self w answers)))
    = file_count (_storage self) + Z.of_nat (length new) /\
    total_events (_storage (fst (flush_rounds self w answers)))
    = total_events (_storage self) + Z.of_nat (length (concat new.*2)).
Proof.
  intros Hrec. pose proof (flush_rounds_spec answers self w Hrec) as H. revert H.
  destruct (flush_rounds self w answers) as [self' w'].
  intros (new & Hw & _ & Hf & Ht). exists new. auto.
Qed.

End RecordingFacts.


(** ** The theorems on the inputs of the tests *)

Lemma history_window_witness :
  GraySwan.security_risk
    (OpenAIMessages.convert_events_to_openai_messages loads_of_tests dumps_of_tests
       OpenAIMessages.text_parts)
    calm_post
    {| GraySwan.history_limit := 2;
       GraySwan.low_threshold := PyNum.FFin (3 # 10);
       GraySwan.medium_threshold := PyNum.FFin (7 # 10);
       GraySwan.api_url := "https://api.grayswan.ai/cygnal/monitor";
       GraySwan.api_key := Some "test_key";
       GraySwan.policy_id := Some "689ca4885af3538a39b2ba04" |}
    (take 2 grayswan_history ++ drop 2 grayswan_history) plain_action
  = GraySwan.security_risk
      (OpenAIMessages.convert_events_to_openai_messages loads_of_tests dumps_of_tests
         OpenAIMessages.text_parts)
      calm_post
      {| GraySwan.history_limit := 2;
         GraySwan.low_threshold := PyNum.FFin (3 # 10);
         GraySwan.medium_threshold := PyNum.FFin (7 # 10);
         GraySwan.api_url := "https://api.grayswan.ai/cygnal/monitor";
         GraySwan.api_key := Some "test_key";
         GraySwan.policy_id := Some "689ca4885af3538a39b2ba04" |}
      (drop 2 grayswan_history) plain_action.
Proof.
  apply history_window; [simpl; lia|reflexivity].
Defined.

(** The history of the tests converts to four messages; the tool call is
    sent without its [security_risk] entry and the picture is left out. *)
Example history_converts :
  OpenAIMessages.convert_events_to_openai_messages loads_of_tests dumps_of_tests
    OpenAIMessages.text_parts grayswan_history
  = Ok [{| OpenAIMessages.role := "system";
           OpenAIMessages.content_str := "You are a helpful assistant.";
           OpenAIMessages.tool_calls := None;
           OpenAIMessages.msg_tool_call_id := None |};
        {| OpenAIMessages.role := "user";
           OpenAIMessages.content_str := "Look at this";
           OpenAIMessages.tool_calls := None;
           OpenAIMessages.msg_tool_call_id := None |};
        {| OpenAIMessages.role := "assistant";
           OpenAIMessages.content_str := "I will run it";
           OpenAIMessages.tool_calls :=
             Some [{| OpenAIMessages.tc_id := "call_1";
                      OpenAIMessages.tc_type := "function";
                      OpenAIMessages.tc_name := "terminal";
                      OpenAIMessages.tc_arguments := plain_arguments |}];
           OpenAIMessages.msg_tool_call_id := None |};
        {| OpenAIMessages.role := "tool";
           OpenAIMessages.content_str := "done";
           OpenAIMessages.tool_calls := None;
           OpenAIMessages.msg_tool_call_id := Some "call_1" |}].
Proof. vm_compute. reflexivity. Qed.

Lemma scalar_arguments_raise_witness :
  OpenAIMessages.convert_events_to_openai_messages loads_of_tests dumps_of_tests
    OpenAIMessages.text_parts (grayswan_history ++ [null_action])
  = Raise TypeError.
Proof.
  exact (proj2 (scalar_arguments_raise loads_of_tests dumps_of_tests
                  OpenAIMessages.text_parts grayswan_history
                  "call_2" "terminal" "null" [] Json.JNull eq_refl eq_refl)
           _ history_converts).
Defined.

Lemma messages_well_formed_witness :
  exists msgs,
    OpenAIMessages.convert_events_to_openai_messages loads_of_tests dumps_of_tests
      OpenAIMessages.text_parts grayswan_history = Ok msgs /\
    Forall OpenAIMessages.well_formed msgs.
Proof.
  eexists. split; [exact history_converts|].
  exact (messages_well_formed loads_of_tests dumps_of_tests OpenAIMessages.text_parts
           grayswan_history _ history_converts).
Defined.

Lemma action_reaches_the_api_witness :
  GraySwan.security_risk
    (OpenAIMessages.convert_events_to_openai_messages loads_of_tests dumps_of_tests
       OpenAIMessages.text_parts)
    calm_post default_analyzer [OpenAIMessages.SystemPromptEvent "Be careful."] plain_action
  = Ok GraySwan.LOW.
Proof.
  etransitivity.
  - exact (proj1 (action_reaches_the_api loads_of_tests dumps_of_tests
                    OpenAIMessages.text_parts calm_post default_analyzer
                    [OpenAIMessages.SystemPromptEvent "Be careful."]
                    "call_3" "terminal" plain_arguments [] _
                    eq_refl ltac:(simpl; lia) eq_refl)).
  - vm_compute. reflexivity.
Defined.

Lemma scalar_arguments_unknown_witness :
  GraySwan.security_risk
    (OpenAIMessages.convert_events_to_openai_messages loads_of_tests dumps_of_tests
       OpenAIMessages.text_parts)
    calm_post default_analyzer grayswan_history null_action
  = Ok GraySwan.UNKNOWN.
Proof.
  exact (scalar_arguments_unknown loads_of_tests dumps_of_tests OpenAIMessages.text_parts
           calm_post default_analyzer grayswan_history
           "call_2" "terminal" "null" [] Json.JNull eq_refl eq_refl).
Defined.

(** Names a tool may and may not have, and names of profiles. *)
Example tool_names :
  ToolSpec.validate_name (list_ascii_of_string " TerminalTool ")
  = Ok (list_ascii_of_string " TerminalTool ") /\
  ToolSpec.validate_name (list_ascii_of_string "   ")
  = Raise (ValueError "Tool name cannot be empty").
Proof. split; reflexivity. Qed.

Example profile_names :
  ProfileStore._get_profile_path (profile_file "gpt4") = Ok (profile_file "gpt4.json") /\
  ProfileStore._get_profile_path (profile_file "gpt4.json") = Ok (profile_file "gpt4.json") /\
  ProfileStore._get_profile_path (profile_file "../secrets")
  = Raise (ValueError "Invalid profile name") /\
  ProfileStore._get_profile_path (profile_file ".hidden")
  = Raise (ValueError "Invalid profile name") /\
  ProfileStore._get_profile_path (profile_file ".json")
  = Raise (ValueError "Invalid profile name").
Proof. repeat split; reflexivity. Qed.

Lemma save_then_load_witness :
  ProfileStore.load parse_of_tests
    (snd (ProfileStore.save dump_of_tests mktemp_of_tests one_profile
            (profile_file "fast") "gpt-4o-mini" false))
    (profile_file "fast")
  = Ok "gpt-4o-mini".
Proof.
  destruct (save_then_load dump_of_tests parse_of_tests mktemp_of_tests one_profile
              (snd (ProfileStore.save dump_of_tests mktemp_of_tests one_profile
                      (profile_file "fast") "gpt-4o-mini" false))
              (profile_file "fast") "gpt-4o-mini" false
              ltac:(vm_compute; reflexivity) ltac:(vm_compute; reflexivity)
              ltac:(vm_compute; reflexivity))
    as (path & _ & _ & Hload & _).
  exact Hload.
Defined.

Lemma delete_then_load_witness :
  ProfileStore.load parse_of_tests
    (snd (ProfileStore.delete one_profile (profile_file "default")))
    (profile_file "default")
  = Raise ProfileStore.FileNotFoundError.
Proof.
  destruct (delete_then_load parse_of_tests one_profile
              (snd (ProfileStore.delete one_profile (profile_file "default")))
              (profile_file "default") ltac:(vm_compute; reflexivity))
    as (path & _ & _ & Hload & _).
  exact Hload.
Defined.

(** Three rounds of the flush loop: the first cannot write, the second
    writes the four events gathered so far, the third has nothing to
    write. *)
Example three_flush_rounds :
  let full := Recording.with_storage recording_session
                {| Recording.output_dir := Some "/full";
                   Recording._session_dir := Some "/full/recording-1";
                   Recording._files_written := 0;
                   Recording._total_events := 0 |} in
  let '(s1, w1) := Recording.flush_round stamp_of_tests disk_of_tests full empty_disk
                     (Ok [3%nat]) in
  let '(s2, w2) := Recording.flush_rounds stamp_of_tests disk_of_tests
                     recording_session empty_disk
                     [Ok [3%nat]; Raise TimeoutException; Ok []] in
  Recording._events s1 = [1%nat; 2%nat; 3%nat] /\
  Recording._consecutive_flush_failures s1 = 1 /\
  Recording.written w1 = [] /\
  Recording._events s2 = [] /\
  Recording.written w2
  = [("/rec/recording-1/20260101-000000-000000.json", [1%nat; 2%nat; 3%nat])] /\
  Recording.file_count (Recording._storage s2) = 1 /\
  Recording.total_events (Recording._storage s2) = 3.
Proof. vm_compute. repeat split. Qed.

Lemma flush_keeps_every_event_witness :
  exists new,
    Recording.written
      (snd (Recording.flush_rounds stamp_of_tests disk_of_tests recording_session
              empty_disk [Ok [3%nat]; Raise TimeoutException; Ok [4%nat]]))
    = Recording.written empty_disk ++ new /\
    concat new.*2
    ++ Recording._events
         (fst (Recording.flush_rounds stamp_of_tests disk_of_tests recording_session
                 empty_disk [Ok [3%nat]; Raise TimeoutException; Ok [4%nat]]))
    = Recording._events recording_session
      ++ concat (Recording.delivered <$> [Ok [3%nat]; Raise TimeoutException; Ok [4%nat]]).
Proof.
  exact (flush_keeps_every_event stamp_of_tests disk_of_tests recording_session
           empty_disk [Ok [3%nat]; Raise TimeoutException; Ok [4%nat]] eq_refl).
Defined.

Lemma counters_match_files_witness :
  exists new,
    Recording.written
      (snd (Recording.flush_rounds stamp_of_tests disk_of_tests recording_session
              empty_disk [Ok [3%nat]; Ok [4%nat]]))
    = Recording.written empty_disk ++ new /\
    Recording.file_count
      (Recording._storage
         (fst (Recording.flush_rounds stamp_of_tests disk_of_tests recording_session
                 empty_disk [Ok [3%nat]; Ok [4%nat]])))
    = Recording.file_count (Recording._storage recording_session)
      + Z.of_nat (length new) /\
    Recording.total_events
      (Recording._storage
         (fst (Recording.flush_rounds stamp_of_tests disk_of_tests recording_session
                 empty_disk [Ok [3%nat]; Ok [4%nat]])))
    = Recording.total_events (Recording._storage recording_session)
      + Z.of_nat (length (concat new.*2)).
Proof.
  exact (counters_match_files stamp_of_tests disk_of_tests recording_session
           empty_disk [Ok [3%nat]; Ok [4%nat]] eq_refl).
Defined.


Lemma history_limit_zero_witness :
  GraySwan.security_risk
    (OpenAIMessages.convert_events_to_openai_messages loads_of_tests dumps_of_tests
       OpenAIMessages.text_parts)
    calm_post (GraySwanSetup.with_history_limit default_analyzer 0)
    grayswan_history plain_action
  = GraySwan.security_risk
      (OpenAIMessages.convert_events_to_openai_messages loads_of_tests dumps_of_tests
         OpenAIMessages.text_parts)
      calm_post
      (GraySwanSetup.with_history_limit
         (GraySwanSetup.with_history_limit default_analyzer 0)
         (Z.of_nat (length grayswan_history)))
      grayswan_history plain_action.
Proof.
  apply history_limit_zero. reflexivity.
Defined.

Lemma risk_is_monotone_witness :
  GraySwanSetup.risk_rank GraySwan.LOW <= GraySwanSetup.risk_rank GraySwan.HIGH.
Proof.
  exact (risk_is_monotone default_analyzer
           (Json.JFloat (PyNum.FFin (1 # 10))) (Json.JFloat (PyNum.FFin (9 # 10)))
           _ _ GraySwan.LOW GraySwan.HIGH eq_refl eq_refl eq_refl eq_refl eq_refl).
Defined.

(** ** The HTTP client of the analyzer *)
Section ClientFacts.
Import GraySwanClient.

Lemma get_client_spec (s : state) :
  no_leak s ->
  let (c, s') := _get_client s in
  open s' c /\ _client s' = Some c /\ no_leak s' /\
  (forall c0, _client s = Some c0 -> open s c0 -> c = c0 /\ s' = s).
Proof.
  intros Hinv. unfold _get_client.
  assert (Hnew : (forall c, ~ open s c) ->
            let s' := {| clients := clients s ++ [false];
                         _client := Some (length (clients s)) |} in
            open s' (length (clients s)) /\ _client s' = Some (length (clients s)) /\
            no_leak s').
  { intros Hnone s'. subst s'. unfold no_leak, open. simpl.
    split; [now rewrite lookup_app_r, Nat.sub_diag by lia|]. split; [reflexivity|].
    intros c Hc. simpl in Hc. destruct (decide (c < length (clients s))%nat) as [Hlt|Hge].
    - rewrite lookup_app_l in Hc by exact Hlt. now apply Hnone in Hc.
    - apply lookup_lt_Some in Hc. rewrite length_app in Hc. simpl in Hc.
      f_equal. lia. }
  assert (Hdead : forall c0, _client s = Some c0 -> clients s !! c0 <> Some false ->
            forall c, ~ open s c).
  { intros c0 Hc0 Hl c Hc. pose proof (Hinv c Hc) as Heq. rewrite Hc0 in Heq.
    injection Heq as <-. exact (Hl Hc). }
  destruct (_client s) as [c0|] eqn:Hc0.
  - destruct (clients s !! c0) as [[|]|] eqn:Hl; simpl.
    + destruct Hnew as (H1 & H2 & H3).
      { apply (Hdead c0 eq_refl). congruence. }
      split; [exact H1|]. split; [exact H2|]. split; [exact H3|].
      intros cx [= <-] Hopen. unfold open in Hopen. congruence.
    + split; [exact Hl|]. split; [exact Hc0|]. split; [exact Hinv|].
      now intros cx [= <-] _.
    + destruct Hnew as (H1 & H2 & H3).
      { apply (Hdead c0 eq_refl). congruence. }
      split; [exact H1|]. split; [exact H2|]. split; [exact H3|].
      intros cx [= <-] Hopen. unfold open in Hopen. congruence.
  - simpl. destruct Hnew as (H1 & H2 & H3).
    { intros c Hc. pose proof (Hinv c Hc) as Heq. congruence. }
    split; [exact H1|]. split; [exact H2|]. split; [exact H3|]. discriminate.
Qed.

Lemma close_spec (s : state) :
  no_leak s -> no_leak (close s) /\ forall c, ~ open (close s) c.
Proof.
  intros Hinv. unfold close.
  destruct (_client s) as [c0|] eqn:Hc0.
  - destruct (clients s !! c0) as [[|]|] eqn:Hl.
    + assert (Hnone : forall c, ~ open s c).
      { intros c Hc. pose proof (Hinv c Hc) as Heq. rewrite Hc0 in Heq.
        injection Heq as ->. unfold open in Hc. congruence. }
      split; [exact Hinv|exact Hnone].
    + assert (Hnone : forall c, ~ open {| clients := <[c0 := true]> (clients s);
                                          _client := None |} c).
      { unfold open. simpl. intros c Hc. destruct (decide (c = c0)) as [->|Hne].
        - rewrite list_lookup_insert_eq in Hc by (now apply lookup_lt_Some in Hl).
          discriminate.
        - rewrite list_lookup_insert_ne in Hc by congruence.
          pose proof (Hinv c Hc) as Heq. congruence. }
      split; [|exact Hnone]. intros c Hc. now apply Hnone in Hc.
    + assert (Hnone : forall c, ~ open s c).
      { intros c Hc. pose proof (Hinv c Hc) as Heq. rewrite Hc0 in Heq.
        injection Heq as ->. unfold open in Hc. congruence. }
      split; [exact Hinv|exact Hnone].
  - split; [exact Hinv|]. intros c Hc. apply Hinv in Hc. congruence.
Qed.

Lemma run_no_leak (calls : list call) (s : state) : no_leak s -> no_leak (run s calls).
Proof.
  revert s. induction calls as [|c calls IH]; intros s Hinv; [exact Hinv|].
  unfold run. simpl. apply IH. destruct c; simpl.
  - pose proof (get_client_spec s Hinv) as H. revert H.
    destruct (_get_client s) as [c s']. simpl. intros (_ & _ & H & _). exact H.
  - now apply close_spec.
Qed.

(** X27. An analyzer never holds more than one open client and never drops
    one that is open: after any sequence of API calls and [close] calls on a
    new analyzer, every client that is not closed is the one in [_client].
    [_get_client] then returns an open client, the one it holds when that is
    open and a new one otherwise, and after [close] no client is open. *)
Theorem client_never_leaks (calls : list call) :
  let s := run new calls in
  (forall c, open s c -> _client s = Some c) /\
  (let (c, s') := _get_client s in
   open s' c /\ _client s' = Some c /\
   (forall c0, _client s = Some c0 -> open s c0 -> c = c0 /\ s' = s)) /\
  (forall c, ~ open (close s) c).
Proof.
  intros s.
  assert (Hinv : no_leak s).
  { apply run_no_leak. intros c Hc. unfold open in Hc. simpl in Hc.
    now rewrite lookup_nil in Hc. }
  split; [exact Hinv|]. split.
  - pose proof (get_client_spec s Hinv) as H. revert H.
    destruct (_get_client s) as [c s']. intros (H1 & H2 & _ & H4). auto.
  - now apply close_spec.
Qed.

End ClientFacts.

(** Two API calls share a client; after [close] the next call gets a new
    one. *)
Example client_is_reused :
  GraySwanClient.run GraySwanClient.new
    [GraySwanClient.GetClient; GraySwanClient.GetClient; GraySwanClient.Close;
     GraySwanClient.GetClient]
  = {| GraySwanClient.clients := [true; false]; GraySwanClient._client := Some 1%nat |}.
Proof. reflexivity. Qed.


(** ** The previous release of a package *)
Section PreviousRelease.
Import ApiBreakage.
Context {Version : Type}.
Variable _parse_version : string -> pyresult Version.
Variable lt : Version -> Version -> bool.

Abbreviation keyed := (ApiBreakage.keyed _parse_version).
Abbreviation older_than := (ApiBreakage.older_than _parse_version lt).

Lemma keyed_spec (l : list string) (ks : list (Version * string)) :
  keyed l = Ok ks ->
  forall v s, (v, s) ∈ ks <-> s ∈ l /\ _parse_version s = Ok v.
Proof.
  revert ks. induction l as [|x l IH]; intros ks; simpl.
  - intros [= <-] v s. rewrite !elem_of_nil. tauto.
  - unfold mbind, pyresult_bind, pybind.
    destruct (_parse_version x) as [k|] eqn:Hx; [|discriminate].
    destruct (keyed l) as [ks'|]; [|discriminate].
    intros [= <-] v s. rewrite !elem_of_cons, (IH ks' eq_refl). split.
    + intros [[= -> ->] | [Hs Hv]]; auto.
    + intros [[-> | Hs] Hv]; [left; congruence|auto].
Qed.

Lemma older_than_spec (cur : Version) (l older : list string) :
  older_than cur l = Ok older ->
  (forall s, s ∈ l -> is_Some (match _parse_version s with Ok v => Some v | _ => None end)) /\
  forall s, s ∈ older <->
            s ∈ l /\ exists v, _parse_version s = Ok v /\ lt v cur = true.
Proof.
  revert older. induction l as [|x l IH]; intros older; simpl.
  - intros [= <-]. split; [intros s H; now apply elem_of_nil in H|].
    intros s. rewrite !elem_of_nil. tauto.
  - unfold mbind, pyresult_bind, pybind.
    destruct (_parse_version x) as [v|] eqn:Hx; [|discriminate].
    destruct (older_than cur l) as [older'|]; [|discriminate].
    destruct (IH older' eq_refl) as [IHp IHo].
    intros [= <-]. split.
    + intros s Hs. apply elem_of_cons in Hs as [-> | Hs]; [rewrite Hx; eauto|auto].
    + intros s. destruct (lt v cur) eqn:Hv.
      * rewrite !elem_of_cons, IHo. split.
        -- intros [-> | [Hs Hs']]; [eauto|auto].
        -- intros [[-> | Hs] Hs']; auto.
      * rewrite elem_of_cons, IHo. split.
        -- intros [Hs Hs']. auto.
        -- intros [[-> | Hs] (v' & Hv' & Hlt)]; [congruence|eauto].
Qed.

Section Order.
(** The order of versions is a strict weak order. *)
Hypothesis lt_asym : forall a b, lt a b = true -> lt b a = false.
Hypothesis ge_trans : forall a b c, lt a b = false -> lt b c = false -> lt a c = false.

(** The first element of a sorted list has a greatest key. *)
Lemma insert_reverse_head (x : Version * string) (l : list (Version * string)) :
  (forall h rest, l = h :: rest -> forall y, y ∈ l -> lt (fst h) (fst y) = false) ->
  exists h rest,
    insert_reverse lt x l = h :: rest /\
    (forall y, y ∈ insert_reverse lt x l <-> y = x \/ y ∈ l) /\
    forall y, y ∈ insert_reverse lt x l -> lt (fst h) (fst y) = false.
Proof.
  assert (Hperm : forall l, forall y, y ∈ insert_reverse lt x l <-> y = x \/ y ∈ l).
  { clear. induction l as [|z l IH]; intros y; simpl.
    - rewrite list_elem_of_singleton, elem_of_nil. tauto.
    - destruct (lt (fst x) (fst z)).
      + rewrite !elem_of_cons, IH. tauto.
      + rewrite !elem_of_cons. tauto. }
  intros Hmax. destruct l as [|z l]; simpl.
  - exists x, []. split; [reflexivity|]. split; [apply (Hperm [])|].
    intros y Hy. apply list_elem_of_singleton in Hy as ->.
    destruct (lt (fst x) (fst x)) eqn:H; [|reflexivity]. now rewrite (lt_asym _ _ H) in H.
  - specialize (Hmax z l eq_refl).
    destruct (lt (fst x) (fst z)) eqn:Hxz.
    + exists z, (insert_reverse lt x l). split; [reflexivity|].
      split; [intros y; rewrite elem_of_cons, (Hperm l y), elem_of_cons; tauto|].
      intros y Hy. apply elem_of_cons in Hy as [-> | Hy].
      * apply Hmax. now left.
      * apply Hperm in Hy as [-> | Hy]; [now apply lt_asym|].
        apply Hmax. now right.
    + exists x, (z :: l). split; [reflexivity|].
      split; [intros y; apply elem_of_cons|].
      intros y Hy. apply elem_of_cons in Hy as [-> | Hy].
      * destruct (lt (fst x) (fst x)) eqn:H; [|reflexivity].
        now rewrite (lt_asym _ _ H) in H.
      * apply (ge_trans _ (fst z)); [exact Hxz|]. now apply Hmax.
Qed.

Lemma sorted_reverse_head (l : list (Version * string)) :
  (forall y, y ∈ sorted_reverse lt l <-> y ∈ l) /\
  forall h rest, sorted_reverse lt l = h :: rest ->
                 forall y, y ∈ l -> lt (fst h) (fst y) = false.
Proof.
  induction l as [|x l [IHp IHh]]; simpl.
  - split; [tauto|discriminate].
  - destruct (insert_reverse_head x (sorted_reverse lt l)) as (h & rest & Heq & Hp & Hh).
    { intros h rest Heq y Hy. apply (IHh h rest Heq). now apply IHp. }
    split.
    + intros y. rewrite Hp, elem_of_cons, IHp. tauto.
    + intros h' rest' Heq' y Hy. rewrite Heq in Heq'. injection Heq' as <- <-.
      apply Hh, Hp. apply elem_of_cons in Hy as [-> | Hy]; [now left|].
      right. now apply IHp.
Qed.

Lemma first_sorted_reverse_spec (l : list string) (r : string) :
  first_sorted_reverse _parse_version lt l = Ok r ->
  exists v, _parse_version r = Ok v /\ r ∈ l /\
            forall r' v', r' ∈ l -> _parse_version r' = Ok v' -> lt v v' = false.
Proof.
  unfold first_sorted_reverse, mbind, pyresult_bind, pybind.
  destruct (keyed l) as [ks|] eqn:Hks; [|discriminate].
  destruct (sorted_reverse lt ks) as [|[v s] rest] eqn:Hsorted; [discriminate|].
  intros [= <-]. destruct (sorted_reverse_head ks) as [Hp Hh].
  assert (Hin : (v, s) ∈ ks) by (apply Hp; rewrite Hsorted; now left).
  apply (keyed_spec l ks Hks) in Hin as [Hs Hv].
  exists v. split; [exact Hv|]. split; [exact Hs|].
  intros r' v' Hr' Hv'.
  apply (Hh (v, s) rest Hsorted (v', r')). apply (keyed_spec l ks Hks). auto.
Qed.

(** X28. The previous release is the greatest release below the current
    version: when [get_prev_pypi_version] returns a release, that release is
    one of the releases of the package, it is older than the current
    version, and no older release is newer than it; when it returns [None]
    although releases were fetched, no release is older than the current
    version. *)
Theorem previous_release_is_greatest (releases : list string) (current : string)
    (cur_parsed : Version) (prev : option string) :
  _parse_version current = Ok cur_parsed ->
  get_prev_pypi_version _parse_version lt (Ok releases) (Some current) = Ok prev ->
  match prev with
  | Some r =>
      exists v, _parse_version r = Ok v /\ r ∈ releases /\ lt v cur_parsed = true /\
                forall r' v', r' ∈ releases -> _parse_version r' = Ok v' ->
                              lt v' cur_parsed = true -> lt v v' = false
  | None =>
      forall r' v', r' ∈ releases -> _parse_version r' = Ok v' -> lt v' cur_parsed = false
  end.
Proof.
  intros Hcur. unfold get_prev_pypi_version.
  destruct releases as [|r0 releases].
  { intros [= <-] r' v' H. now apply elem_of_nil in H. }
  rewrite Hcur. unfold mbind, pyresult_bind, pybind.
  destruct (older_than cur_parsed (r0 :: releases)) as [older|] eqn:Holder; [|discriminate].
  destruct (older_than_spec cur_parsed _ older Holder) as [_ Ho].
  destruct older as [|o older].
  - intros [= <-] r' v' Hr' Hv'. destruct (lt v' cur_parsed) eqn:Hlt; [|reflexivity].
    assert (H : r' ∈ []) by (apply Ho; eauto). now apply elem_of_nil in H.
  - destruct (first_sorted_reverse _parse_version lt (o :: older)) as [r|] eqn:Hfirst;
      [|discriminate].
    intros [= <-].
    destruct (first_sorted_reverse_spec _ r Hfirst) as (v & Hv & Hin & Hmax).
    apply Ho in Hin as (Hin & v0 & Hv0 & Hlt).
    rewrite Hv in Hv0. injection Hv0 as <-.
    exists v. split; [exact Hv|]. split; [exact Hin|]. split; [exact Hlt|].
    intros r' v' Hr' Hv' Hlt'. apply (Hmax r' v'); [|exact Hv'].
    apply Ho. eauto.
Qed.

End Order.

End PreviousRelease.

Lemma pair_lt_asym (a b : Z * Z) :
  ApiBreakage.pair_lt a b = true -> ApiBreakage.pair_lt b a = false.
Proof. unfold ApiBreakage.pair_lt. destruct a, b. simpl. lia. Qed.

Lemma pair_ge_trans (a b c : Z * Z) :
  ApiBreakage.pair_lt a b = false -> ApiBreakage.pair_lt b c = false ->
  ApiBreakage.pair_lt a c = false.
Proof. unfold ApiBreakage.pair_lt. destruct a, b, c. simpl. lia. Qed.

(** The release before 1.11.0 is 1.10.0, not 1.9.0. *)
Example release_before_1_11 :
  ApiBreakage.get_prev_pypi_version parse_of_releases ApiBreakage.pair_lt
    (Ok pypi_releases) (Some "1.11.0") = Ok (Some "1.10.0").
Proof. reflexivity. Qed.

Lemma previous_release_is_greatest_witness :
  exists v, parse_of_releases "1.10.0" = Ok v /\ "1.10.0" ∈ pypi_releases /\
            ApiBreakage.pair_lt v (1, 11) = true /\
            forall r' v', r' ∈ pypi_releases -> parse_of_releases r' = Ok v' ->
                          ApiBreakage.pair_lt v' (1, 11) = true ->
                          ApiBreakage.pair_lt v v' = false.
Proof.
  exact (previous_release_is_greatest parse_of_releases ApiBreakage.pair_lt
           pair_lt_asym pair_ge_trans pypi_releases "1.11.0" (1, 11) (Some "1.10.0")
           eq_refl eq_refl).
Defined.

